(** * Audacity scripting client: pipe protocol, command facade, export workflows

    A shallow embedding of
      - [src/audacity_pipe/pipe.py]       (module [Pipe]),
      - [src/audacity_pipe/commands.py]   (module [Commands]),
      - [export_clips_individually.py]    (module [ExportClips]),
      - [export_tracks_individually.py]   (module [ExportTracks]),
    then the notions the properties are stated with, then the properties.

    Python values are modelled as follows.
      - [str] is a list of Unicode code points ([pystr]); literals are written
        [lit "..."].
      - [int] is [Z]; a finite [float] is the rational it denotes ([pynum]);
        converting an int outside the range of a float raises
        [OverflowError] ([fits_float]).
      - Exceptions are values of [exn].  A method of the pipe ends in an
        [outcome]; the workflows run in the monad [M], which threads the
        commands issued and the lines printed and may raise.
      - Everything outside the repository (the host application behind the
        pipe, the file system, [json.loads], [repr] and arithmetic of floats)
        is collected in the record [environment]; what [get_user_input]
        takes from the terminal and the file system, in [console]. *)

From Stdlib Require Import ZArith QArith String Ascii List Numbers.DecimalString
  Numbers.DecimalZ Lia.
From stdpp Require Import base option list gmap.

Local Open Scope Z_scope.

(** ** Python strings *)

Module PyStr.

Abbreviation codepoint := N (only parsing).
Abbreviation pystr := (list N) (only parsing).

(** A string literal of the source, character by character. *)
Definition lit (s : string) : pystr :=
  List.map N_of_ascii (list_ascii_of_string s).

Definition chr (a : ascii) : codepoint := N_of_ascii a.

Fixpoint eqb (s t : pystr) : bool :=
  match s, t with
  | [], [] => true
  | a :: s', b :: t' => N.eqb a b && eqb s' t'
  | _, _ => false
  end.

(** [bool(s)]: a string is truthy when it is not empty. *)
Definition truthy (s : pystr) : bool :=
  match s with [] => false | _ :: _ => true end.

(** [c in chars]. *)
Definition mem (c : codepoint) (chars : pystr) : bool :=
  existsb (N.eqb c) chars.

(** The code points [str.isspace] accepts, which are the ones [str.strip()]
    removes: U+0009..U+000D, U+001C..U+0020, U+0085, U+00A0, U+1680,
    U+2000..U+200A, U+2028, U+2029, U+202F, U+205F, U+3000. *)
Definition is_space (c : codepoint) : bool :=
  ((9 <=? c) && (c <=? 13) || (28 <=? c) && (c <=? 32)
   || (c =? 133) || (c =? 160) || (c =? 5760)
   || (8192 <=? c) && (c <=? 8202) || (c =? 8232) || (c =? 8233)
   || (c =? 8239) || (c =? 8287) || (c =? 12288))%N.

Fixpoint drop_while (p : codepoint -> bool) (s : pystr) : pystr :=
  match s with
  | [] => []
  | c :: s' => if p c then drop_while p s' else s
  end.

Definition lstrip_by (p : codepoint -> bool) (s : pystr) : pystr :=
  drop_while p s.

Definition rstrip_by (p : codepoint -> bool) (s : pystr) : pystr :=
  rev (drop_while p (rev s)).

Definition strip_by (p : codepoint -> bool) (s : pystr) : pystr :=
  rstrip_by p (lstrip_by p s).

(** [s.strip()] *)
Definition strip (s : pystr) : pystr := strip_by is_space s.

(** [s.strip(chars)] *)
Definition strip_chars (chars s : pystr) : pystr :=
  strip_by (fun c => mem c chars) s.

(** [s.lstrip(chars)] *)
Definition lstrip_chars (chars s : pystr) : pystr :=
  lstrip_by (fun c => mem c chars) s.

(** [s.startswith(p)] *)
Fixpoint starts_with (p s : pystr) : bool :=
  match p, s with
  | [], _ => true
  | a :: p', b :: s' => N.eqb a b && starts_with p' s'
  | _ :: _, [] => false
  end.

(** [p in s] for strings: [p] occurs in [s] as a substring. *)
Fixpoint contains (p s : pystr) : bool :=
  starts_with p s ||
  match s with
  | [] => false
  | _ :: s' => contains p s'
  end.

(** [s.replace(old, new)] for a non-empty [old]: the occurrences of [old] are
    found from the left and do not overlap.  [skip] counts the characters of
    a matched occurrence that are still to be passed over. *)
Fixpoint replace_from (old new : pystr) (skip : nat) (s : pystr) : pystr :=
  match s with
  | [] => []
  | c :: s' =>
      match skip with
      | S k => replace_from old new k s'
      | O =>
          if starts_with old s
          then new ++ replace_from old new (Nat.pred (length old)) s'
          else c :: replace_from old new O s'
      end
  end.

Definition replace (old new s : pystr) : pystr := replace_from old new O s.

(** [sep.join(parts)] *)
Fixpoint join (sep : pystr) (parts : list pystr) : pystr :=
  match parts with
  | [] => []
  | [p] => p
  | p :: ps => p ++ sep ++ join sep ps
  end.

(** The one-character string of a line feed. *)
Definition newline : pystr := [10%N].

(** [str(n)] / [f"{n}"] for an int. *)
Definition of_int (n : Z) : pystr := lit (NilEmpty.string_of_int (Z.to_int n)).

(** [f"{b}"] for a bool. *)
Definition of_bool (b : bool) : pystr :=
  if b then lit "True" else lit "False".

End PyStr.

Export PyStr.

(** ** Exceptions *)

Inductive exn : Type :=
| AudacityError (msg : pystr)      (* class AudacityError(Exception) *)
| JSONDecodeError                  (* json.JSONDecodeError *)
| OtherException (msg : pystr).    (* any other Exception *)

(** ** pipe.py: the protocol client *)

Module Pipe.

(** One call of [from_pipe.readline()]: the text it returned (empty when no
    data was available) and the value [time.time()] has at that moment.
    Clock values and the timeout are counted in one fixed unit. *)
Record read : Type := { line : pystr; at_time : Z }.

(** The outbound channel: what has been written, and the text of the
    exception the next write raises, if it does. *)
Record out_pipe : Type := { written : list pystr; write_fails : option pystr }.

(** The fields of an [AudacityPipe] object.  [from_pipe] holds the reads the
    inbound channel will deliver, in order. *)
Record AudacityPipe : Type := {
  timeout : Z;
  to_pipe : option out_pipe;
  from_pipe : option (list read);
  _is_connected : bool
}.

(** What a call on the pipe does: return, raise, or still wait for the
    channel when the scripted reads are used up. *)
Inductive outcome (A : Type) : Type :=
| Returned (a : A)
| Raised (e : exn)
| Blocked.
Arguments Returned {A} a.
Arguments Raised {A} e.
Arguments Blocked {A}.

(** [__init__] *)
Definition init (timeout : Z) : AudacityPipe :=
  {| timeout := timeout; to_pipe := None; from_pipe := None;
     _is_connected := false |}.

(** [connect]: [opened] is what opening the two named pipes yields, [inl]
    the text of the exception when that fails. *)
Definition connect (opened : pystr + (out_pipe * list read)) (p : AudacityPipe)
  : outcome unit * AudacityPipe :=
  if _is_connected p then (Returned tt, p)
  else
    match opened with
    | inr (w, r) =>
        (Returned tt,
         {| timeout := timeout p; to_pipe := Some w; from_pipe := Some r;
            _is_connected := true |})
    | inl e =>
        (Raised (AudacityError (lit "Failed to connect to Audacity: " ++ e)), p)
    end.

(** [disconnect] *)
Definition disconnect (p : AudacityPipe) : AudacityPipe :=
  {| timeout := timeout p; to_pipe := None; from_pipe := None;
     _is_connected := false |}.

(** [send_command] *)
Definition send_command (command : pystr) (p : AudacityPipe)
  : outcome unit * AudacityPipe :=
  if negb (_is_connected p) then
    (Raised (AudacityError (lit "Not connected to Audacity")), p)
  else
    match to_pipe p with
    | None => (Raised (AudacityError (lit "To-pipe not available")), p)
    | Some w =>
        match write_fails w with
        | Some e =>
            (Raised (AudacityError
                       (lit "Failed to send command '" ++ command
                        ++ lit "': " ++ e)), p)
        | None =>
            (Returned tt,
             {| timeout := timeout p;
                to_pipe := Some {| written := written w ++ [command ++ newline];
                                   write_fails := write_fails w |};
                from_pipe := from_pipe p;
                _is_connected := _is_connected p |})
        end
    end.

(** How the [while True] loop of [receive_response] ends. *)
Inductive loop_end : Type :=
| Break (response : pystr) (rest : list read)   (* [break] *)
| Timeout (rest : list read)                    (* [raise AudacityError(...)] *)
| Waiting (response : pystr).                   (* the reads are used up *)

(** The [while True] loop of [receive_response], one iteration per read. *)
Fixpoint receive_loop (timeout start_time : Z) (response : pystr)
    (reads : list read) : loop_end :=
  match reads with
  | [] => Waiting response
  | r :: rest =>
      if negb (truthy (line r)) then
        (* no data: check the deadline, sleep, retry *)
        if at_time r - start_time >? timeout then Timeout rest
        else receive_loop timeout start_time response rest
      else if PyStr.eqb (strip (line r)) [] then
        if truthy response then Break response rest
        else receive_loop timeout start_time response rest
      else receive_loop timeout start_time (response ++ line r) rest
  end.

Definition finished_ok : pystr := lit "BatchCommand finished: OK".

(** The clean-up of the accumulated text after the loop. *)
Definition clean_up (response : pystr) : pystr :=
  let response := strip response in
  strip (replace finished_ok [] response).

Definition set_from_pipe (p : AudacityPipe) (reads : list read) : AudacityPipe :=
  {| timeout := timeout p; to_pipe := to_pipe p; from_pipe := Some reads;
     _is_connected := _is_connected p |}.

(** [receive_response]; [start_time] is the value of [time.time()] when the
    loop starts. *)
Definition receive_response (start_time : Z) (p : AudacityPipe)
  : outcome pystr * AudacityPipe :=
  if negb (_is_connected p) then
    (Raised (AudacityError (lit "Not connected to Audacity")), p)
  else
    match from_pipe p with
    | None => (Raised (AudacityError (lit "From-pipe not available")), p)
    | Some reads =>
        match receive_loop (timeout p) start_time [] reads with
        | Break response rest =>
            (Returned (clean_up response), set_from_pipe p rest)
        | Timeout rest =>
            (Raised (AudacityError
                       (lit "Failed to receive response: "
                        ++ lit "Timeout waiting for response")),
             set_from_pipe p rest)
        | Waiting _ => (Blocked, set_from_pipe p [])
        end
    end.

(** [do_command] *)
Definition do_command (opened : pystr + (out_pipe * list read))
    (start_time : Z) (command : pystr) (p : AudacityPipe)
  : outcome pystr * AudacityPipe :=
  match (if negb (_is_connected p) then connect opened p else (Returned tt, p)) with
  | (Returned _, p1) =>
      match send_command command p1 with
      | (Returned _, p2) => receive_response start_time p2
      | (Raised e, p2) => (Raised e, p2)
      | (Blocked, p2) => (Blocked, p2)
      end
  | (Raised e, p1) => (Raised e, p1)
  | (Blocked, p1) => (Blocked, p1)
  end.

(** [is_connected] *)
Definition is_connected (p : AudacityPipe) : bool := _is_connected p.

(** [__enter__] and [__exit__]: the object as a context manager. *)
Definition __enter__ (opened : pystr + (out_pipe * list read)) (p : AudacityPipe)
  : outcome unit * AudacityPipe :=
  connect opened p.

Definition __exit__ (p : AudacityPipe) : AudacityPipe := disconnect p.

(** [quick_command]: [with self: return self.do_command(command)].  The
    [with] statement calls [__exit__] on every way out of its body, and does
    not reach the body when [__enter__] raises. *)
Definition quick_command (opened : pystr + (out_pipe * list read))
    (start_time : Z) (command : pystr) (p : AudacityPipe)
  : outcome pystr * AudacityPipe :=
  match __enter__ opened p with
  | (Returned _, p1) =>
      match do_command opened start_time command p1 with
      | (Returned response, p2) => (Returned response, __exit__ p2)
      | (Raised e, p2) => (Raised e, __exit__ p2)
      | (Blocked, p2) => (Blocked, p2)
      end
  | (Raised e, p1) => (Raised e, p1)
  | (Blocked, p1) => (Blocked, p1)
  end.

End Pipe.

(** ** Numbers, documents and the environment *)

(** A Python number: an [int], or a finite [float] given by its value. *)
Inductive pynum : Type :=
| PyInt (z : Z)
| PyFloat (q : Q).

Definition num_value (n : pynum) : Q :=
  match n with
  | PyInt z => inject_Z z
  | PyFloat q => q
  end.

(** [a < b] and [a <= b] on numbers compare the values exactly. *)
Definition num_ltb (a b : pynum) : bool := negb (Qle_bool (num_value b) (num_value a)).
Definition num_leb (a b : pynum) : bool := Qle_bool (num_value a) (num_value b).

(** [float(n)] for an int raises [OverflowError] when [n] is outside the
    range of a double: the conversion rounds to nearest, ties to even, and
    refuses what would round to 2^1024 or beyond. *)
Definition fits_float (n : Z) : bool := Z.abs n <? 2 ^ 1024 - 2 ^ 970.

Definition overflow_error : exn :=
  OtherException (lit "int too large to convert to float").

(** [f"{x:.3f}"] goes through [float(x)]: it raises for an int out of
    range. *)
Definition formats_3f (x : pynum) : bool :=
  match x with
  | PyInt z => fits_float z
  | PyFloat _ => true
  end.

(** An object of an info document ([GetInfo: Type=Tracks] or [Type=Clips]),
    restricted to the keys the workflows read, each with the type the
    response schema gives it; [None] is an absent key. *)
Record jobject : Type := {
  j_name : option pystr;
  j_mute : option Z;
  j_track : option Z;
  j_start : option pynum;
  j_end : option pynum
}.

(** [d.get(key, default)] *)
Definition get {A : Type} (field : option A) (default : A) : A :=
  match field with
  | Some v => v
  | None => default
  end.

(** What [pipe.do_command] does for one command: return the response text or
    raise [AudacityError]. *)
Inductive reply : Type :=
| Responds (text : pystr)
| Fails (msg : pystr).

(** Everything the workflows use that is not part of the repository.
    [respond] and [files] see the commands issued so far (oldest first):
    the host application and the files it writes are functions of that
    history. *)
Record environment : Type := {
  (* [AudacityPipe.connect]: the message of the error it raises, if any *)
  connect_error : option pystr;
  (* [pipe.do_command(command)] after the commands in [history] *)
  respond : list pystr -> pystr -> reply;
  (* the paths for which [os.path.exists] holds after [history] *)
  files : list pystr -> gset pystr;
  (* [json.loads]; [None] when it raises [JSONDecodeError] *)
  json_loads : pystr -> option (list jobject);
  (* [repr] of a float, as an f-string renders it *)
  float_repr : Q -> pystr;
  (* [float(n)] for an int in the range of a float, and subtraction of two
     floats *)
  float_of_int : Z -> Q;
  float_sub : Q -> Q -> Q
}.

(** ** The workflow monad: state (commands issued, lines printed) and
    exceptions *)

(** The lines a workflow prints that carry information, one constructor per
    [print] statement; rules, headings and hints are left out.  The four
    lines that announce a clip are one message, [ExportingClip]; when the
    third of them raises, the first two are [ExportingClipCutShort]. *)
Inductive message : Type :=
| FoundTracks (n : nat)
| ParseErrorReport (response : pystr)
| NoClipsFound
| SkippingMuted (clip_name : pystr) (track_number : Z)
| NoClipsInUnmutedTracks
| FoundClips (n : nat)
| CreatedTemporaryTrack (index : Z)
| SkippingInvalid (clip_name : pystr)
| ExportingClip (i : nat) (total : nat) (clip_name : pystr) (track_number : Z)
    (start_time end_time : pynum) (output_path : pystr)
| ExportingClipCutShort (i : nat) (total : nat) (clip_name : pystr)
    (track_number : Z)
| ExportComplete
| FailedToExportClip (e : exn)
| ExportedClips (exported_count : nat) (total : nat) (output_dir : pystr)
| NoTracksFound
| ExportingTrack (i : nat) (num_tracks : nat) (track_name : pystr)
    (output_path : pystr)
| RestoringTrackStates
| AllTracksUnmuted
| AllTracksExported (output_dir : pystr)
| AudacityErrorReport (msg : pystr)
| JSONErrorReport
| UnexpectedErrorReport (e : exn).

Record world : Type := {
  sent : list pystr;          (* the commands given to [do_command], in order *)
  printed : list message;     (* the lines printed, in order *)
  connected : bool            (* between [connect] and [disconnect] *)
}.

Definition initial_world : world :=
  {| sent := []; printed := []; connected := false |}.

Inductive result (A : Type) : Type :=
| Val (a : A)
| Exc (e : exn).
Arguments Val {A} a.
Arguments Exc {A} e.

Definition M (A : Type) : Type := world -> result A * world.

Definition ret {A : Type} (a : A) : M A := fun w => (Val a, w).

Definition bind {A B : Type} (m : M A) (k : A -> M B) : M B :=
  fun w =>
    match m w with
    | (Val a, w') => k a w'
    | (Exc e, w') => (Exc e, w')
    end.

Definition raise {A : Type} (e : exn) : M A := fun w => (Exc e, w).

(** An expression that returns or raises and leaves the state alone. *)
Definition lift {A : Type} (r : result A) : M A := fun w => (r, w).

(** [try: m  except Exception as e: handler(e)] *)
Definition try_except {A : Type} (m : M A) (handler : exn -> M A) : M A :=
  fun w =>
    match m w with
    | (Val a, w') => (Val a, w')
    | (Exc e, w') => handler e w'
    end.

Definition print (msg : message) : M unit :=
  fun w =>
    (Val tt, {| sent := sent w; printed := printed w ++ [msg];
                connected := connected w |}).

Declare Scope py_scope.
Delimit Scope py_scope with py.
Notation "x <- m ;; k" := (bind m (fun x => k))
  (at level 100, m at next level, right associativity) : py_scope.
Notation "m ;; k" := (bind m (fun _ => k))
  (at level 100, right associativity) : py_scope.
Local Open Scope py_scope.

(** [for x in xs: body(x)] *)
Fixpoint for_each {A : Type} (xs : list A) (body : A -> M unit) : M unit :=
  match xs with
  | [] => ret tt
  | x :: rest => body x ;; for_each rest body
  end.

(** [range(n)] *)
Definition range (n : nat) : list Z := List.map Z.of_nat (seq 0 n).

(** ** commands.py: the command facade *)

Module Commands.
Section WithEnvironment.

Variable env : environment.

(** [self.pipe.do_command(command)], as the environment answers it. *)
Definition do_command (command : pystr) : M pystr :=
  fun w =>
    let w' := {| sent := sent w ++ [command]; printed := printed w;
                 connected := connected w |} in
    match respond env (sent w) command with
    | Responds text => (Val text, w')
    | Fails msg => (Exc (AudacityError msg), w')
    end.

(** [f"{x}"] for a number. *)
Definition of_num (x : pynum) : pystr :=
  match x with
  | PyInt z => of_int z
  | PyFloat q => float_repr env q
  end.

(** [if x is not None: params.append(render(x))] *)
Definition param {A : Type} (x : option A) (render : A -> pystr) : list pystr :=
  match x with
  | Some v => [render v]
  | None => []
  end.

(** [verb + (" " + " ".join(params) if params else "")] *)
Definition with_params (verb : pystr) (params : list pystr) : pystr :=
  verb ++ match params with
          | [] => []
          | _ :: _ => lit " " ++ join (lit " ") params
          end.

(** [1 if b else 0] *)
Definition one_if (b : bool) : Z := if b then 1 else 0.

Definition dquote : pystr := [34%N].

(* File operations *)

Definition open_project (filename : pystr) (add_to_history : bool) : M pystr :=
  let cmd := lit "OpenProject2: Filename='" ++ filename
             ++ lit "' AddToHistory=" ++ of_bool add_to_history in
  do_command cmd.

Definition save_project (filename : pystr) (add_to_history compress : bool)
  : M pystr :=
  let cmd := lit "SaveProject2: Filename='" ++ filename
             ++ lit "' AddToHistory=" ++ of_bool add_to_history
             ++ lit " Compress=" ++ of_bool compress in
  do_command cmd.

Definition export_audio (filename : pystr) (num_channels : Z) : M pystr :=
  let safe_path := replace (lit "\") (lit "/") filename in
  let cmd := lit "Export2: Filename=" ++ dquote ++ safe_path ++ dquote
             ++ lit " NumChannels=" ++ of_int num_channels in
  do_command cmd.

(* Selection operations *)

Definition select_all : M pystr := do_command (lit "SelectAll:").

Definition select_none : M pystr := do_command (lit "SelectNone:").

Definition select_time (start end_ : pynum) (relative_to : pystr) : M pystr :=
  let cmd := lit "SelectTime: Start=" ++ of_num start ++ lit " End=" ++ of_num end_
             ++ lit " RelativeTo=" ++ relative_to in
  do_command cmd.

Definition select_tracks (track track_count : Z) (mode : pystr) : M pystr :=
  let cmd := lit "SelectTracks: Track=" ++ of_int track
             ++ lit " TrackCount=" ++ of_int track_count
             ++ lit " Mode=" ++ mode in
  do_command cmd.

Definition select_frequencies (high low : option pynum) : M pystr :=
  let params :=
    param high (fun high => lit "High=" ++ of_num high)
    ++ param low (fun low => lit "Low=" ++ of_num low) in
  let cmd := with_params (lit "SelectFrequencies:") params in
  do_command cmd.

(* Track property operations *)

Definition set_track_status (name : option pystr) (selected focused : option bool)
  : M pystr :=
  let params :=
    param name (fun name => lit "Name='" ++ name ++ lit "'")
    ++ param selected (fun selected => lit "Selected=" ++ of_int (one_if selected))
    ++ param focused (fun focused => lit "Focused=" ++ of_int (one_if focused)) in
  let cmd := with_params (lit "SetTrackStatus:") params in
  do_command cmd.

Definition set_track_audio (mute solo : option bool) (gain pan : option pynum)
  : M pystr :=
  let params :=
    param mute (fun mute => lit "Mute=" ++ of_int (one_if mute))
    ++ param solo (fun solo => lit "Solo=" ++ of_int (one_if solo))
    ++ param gain (fun gain => lit "Gain=" ++ of_num gain)
    ++ param pan (fun pan => lit "Pan=" ++ of_num pan) in
  let cmd := with_params (lit "SetTrackAudio:") params in
  do_command cmd.

Definition set_track_visuals (height : option Z)
    (display scale color vzoom : option pystr)
    (vzoom_high vzoom_low : option pynum)
    (spec_prefs spectral_sel : option bool) (scheme : option pystr) : M pystr :=
  let params :=
    param height (fun height => lit "Height=" ++ of_int height)
    ++ param display (fun display => lit "Display=" ++ display)
    ++ param scale (fun scale => lit "Scale=" ++ scale)
    ++ param color (fun color => lit "Color=" ++ color)
    ++ param vzoom (fun vzoom => lit "VZoom=" ++ vzoom)
    ++ param vzoom_high (fun v => lit "VZoomHigh=" ++ of_num v)
    ++ param vzoom_low (fun v => lit "VZoomLow=" ++ of_num v)
    ++ param spec_prefs (fun b => lit "SpecPrefs=" ++ of_int (one_if b))
    ++ param spectral_sel (fun b => lit "SpectralSel=" ++ of_int (one_if b))
    ++ param scheme (fun scheme => lit "Scheme='" ++ scheme ++ lit "'") in
  let cmd := with_params (lit "SetTrackVisuals:") params in
  do_command cmd.

Definition set_track (name : option pystr) (selected focused mute solo : option bool)
    (gain pan : option pynum) (height : option Z)
    (display scale color : option pystr) : M pystr :=
  let params :=
    param name (fun name => lit "Name='" ++ name ++ lit "'")
    ++ param selected (fun b => lit "Selected=" ++ of_int (one_if b))
    ++ param focused (fun b => lit "Focused=" ++ of_int (one_if b))
    ++ param mute (fun b => lit "Mute=" ++ of_int (one_if b))
    ++ param solo (fun b => lit "Solo=" ++ of_int (one_if b))
    ++ param gain (fun gain => lit "Gain=" ++ of_num gain)
    ++ param pan (fun pan => lit "Pan=" ++ of_num pan)
    ++ param height (fun height => lit "Height=" ++ of_int height)
    ++ param display (fun display => lit "Display=" ++ display)
    ++ param scale (fun scale => lit "Scale=" ++ scale)
    ++ param color (fun color => lit "Color=" ++ color) in
  let cmd := with_params (lit "SetTrack:") params in
  do_command cmd.

Definition set_clip (at_ : option pynum) (color : option pystr)
    (start : option pynum) : M pystr :=
  let params :=
    param at_ (fun a => lit "At=" ++ of_num a)
    ++ param color (fun color => lit "Color=" ++ color)
    ++ param start (fun start => lit "Start=" ++ of_num start) in
  let cmd := with_params (lit "SetClip:") params in
  do_command cmd.

Definition set_envelope (time value : option pynum) (delete : option bool)
  : M pystr :=
  let params :=
    param time (fun time => lit "Time=" ++ of_num time)
    ++ param value (fun value => lit "Value=" ++ of_num value)
    ++ param delete (fun b => lit "Delete=" ++ of_int (one_if b)) in
  let cmd := with_params (lit "SetEnvelope:") params in
  do_command cmd.

Definition set_label (label : Z) (text : option pystr) (start end_ : option pynum)
    (selected : option bool) : M pystr :=
  let params :=
    [lit "Label=" ++ of_int label]
    ++ param text (fun text => lit "Text='" ++ text ++ lit "'")
    ++ param start (fun start => lit "Start=" ++ of_num start)
    ++ param end_ (fun e => lit "End=" ++ of_num e)
    ++ param selected (fun b => lit "Selected=" ++ of_int (one_if b)) in
  let cmd := lit "SetLabel: " ++ join (lit " ") params in
  do_command cmd.

Definition set_project (name : option pystr) (rate : option pynum)
    (x y width height : option Z) : M pystr :=
  let params :=
    param name (fun name => lit "Name='" ++ name ++ lit "'")
    ++ param rate (fun rate => lit "Rate=" ++ of_num rate)
    ++ param x (fun x => lit "X=" ++ of_int x)
    ++ param y (fun y => lit "Y=" ++ of_int y)
    ++ param width (fun width => lit "Width=" ++ of_int width)
    ++ param height (fun height => lit "Height=" ++ of_int height) in
  let cmd := with_params (lit "SetProject:") params in
  do_command cmd.

Definition set_preference (name value : pystr) (reload : bool) : M pystr :=
  let cmd := lit "SetPreference: Name='" ++ name ++ lit "' Value='" ++ value
             ++ lit "' Reload=" ++ of_int (one_if reload) in
  do_command cmd.

(* Effects *)

Definition normalize (peak_level : pynum)
    (apply_gain remove_dc stereo_independent : bool) : M pystr :=
  let cmd := lit "Normalize: PeakLevel=" ++ of_num peak_level
             ++ lit " ApplyGain=" ++ of_bool apply_gain ++ lit " "
             ++ lit "RemoveDcOffset=" ++ of_bool remove_dc
             ++ lit " StereoIndependent=" ++ of_bool stereo_independent in
  do_command cmd.

Definition compressor (threshold noise_floor ratio attack_time release_time : pynum)
    (normalize : bool) : M pystr :=
  let cmd := lit "Compressor: Threshold=" ++ of_num threshold
             ++ lit " NoiseFloor=" ++ of_num noise_floor ++ lit " "
             ++ lit "Ratio=" ++ of_num ratio
             ++ lit " AttackTime=" ++ of_num attack_time
             ++ lit " ReleaseTime=" ++ of_num release_time ++ lit " "
             ++ lit "Normalize=" ++ of_bool normalize in
  do_command cmd.

(* Track and edit operations *)

Definition new_stereo_track : M pystr := do_command (lit "NewStereoTrack:").

Definition copy : M pystr := do_command (lit "Copy:").

Definition paste : M pystr := do_command (lit "Paste:").

Definition delete : M pystr := do_command (lit "Delete:").

(* Analysis *)

Definition get_info (info_type format_type : pystr) : M pystr :=
  let cmd := lit "GetInfo: Type=" ++ info_type in
  do_command cmd.

End WithEnvironment.
End Commands.

(** ** What both export scripts share *)

(** How a script ends: it returns, or it calls [sys.exit(code)]. *)
Inductive exit_status : Type :=
| Completed
| SysExit (code : Z).

(** [s.endswith(p)] *)
Definition ends_with (p s : pystr) : bool := starts_with (rev p) (rev s).

(** [os.path.join(a, b)] (POSIX). *)
Definition path_join (a b : pystr) : pystr :=
  if starts_with (lit "/") b then b
  else if negb (truthy a) || ends_with (lit "/") a then a ++ b
  else a ++ lit "/" ++ b.

(** [with AudacityPipe() as audacity: body]: connect, run the body,
    disconnect on every way out. *)
Definition set_connected (b : bool) : M unit :=
  fun w => (Val tt, {| sent := sent w; printed := printed w; connected := b |}).

Definition with_pipe (env : environment) (body : M unit) : M unit :=
  match connect_error env with
  | Some e => raise (AudacityError (lit "Failed to connect to Audacity: " ++ e))
  | None =>
      set_connected true ;;
      try_except (body ;; set_connected false)
                 (fun e => set_connected false ;; raise e)
  end.

(** What [get_user_input] uses of the world around it.  [dir_exists] and
    [makedirs] see the directories the script has tried to create so far
    (oldest first). *)
Record console : Type := {
  expanduser : pystr -> pystr;                (* [os.path.expanduser] *)
  abspath : pystr -> pystr;                   (* [os.path.abspath] *)
  lower : pystr -> pystr;                     (* [str.lower] *)
  dir_exists : list pystr -> pystr -> bool;   (* [os.path.exists] *)
  makedirs : list pystr -> pystr -> bool      (* [os.makedirs] returns *)
}.

(** The [while True] loop with which both scripts ask for the output
    directory.  [inputs] are the lines [input()] will return, [made] the
    directories the loop has tried to create; the result is the directory,
    [made] and the lines left, or [None] when the lines run out ([input()]
    raises [EOFError]). *)
Fixpoint ask_output_dir (c : console) (made : list pystr) (inputs : list pystr)
  : option (pystr * list pystr * list pystr) :=
  match inputs with
  | [] => None
  | line :: rest =>
      let output_dir := strip line in
      if negb (truthy output_dir) then ask_output_dir c made rest
      else
        (* Expand user path and normalize *)
        let output_dir := expanduser c output_dir in
        let output_dir := abspath c output_dir in
        (* Create directory if it doesn't exist *)
        if negb (dir_exists c made output_dir) then
          match rest with
          | [] => None
          | answer :: rest' =>
              let create := lower c (strip answer) in
              if PyStr.eqb create (lit "y") then
                if makedirs c made output_dir
                then Some (output_dir, made ++ [output_dir], rest')
                else ask_output_dir c (made ++ [output_dir]) rest'
              else ask_output_dir c made rest'
          end
        else Some (output_dir, made, rest)
  end.

(** ** export_clips_individually.py *)

Module ExportClips.

(** The dictionary [get_user_input] returns. *)
Record settings : Type := {
  output_dir : pystr;
  prefix : pystr;
  file_extension : pystr
}.

(** [get_user_input]: the settings, the directories it has tried to create
    and the lines left; [None] when the lines run out. *)
Definition get_user_input (c : console) (inputs : list pystr)
  : option (settings * list pystr * list pystr) :=
  match ask_output_dir c [] inputs with
  | None => None
  | Some (output_dir, made, rest) =>
      match rest with
      | line1 :: line2 :: rest' =>
          (* Get optional prefix *)
          let prefix := strip line1 in
          (* Get file extension *)
          let file_extension := strip line2 in
          let file_extension :=
            if negb (truthy file_extension) then lit "wav" else file_extension in
          (* Remove leading dot if user included it *)
          let file_extension := lstrip_chars (lit ".") file_extension in
          Some ({| output_dir := output_dir; prefix := prefix;
                   file_extension := file_extension |}, made, rest')
      | _ => None
      end
  end.

Definition invalid_chars : pystr := lit "<>:" ++ [34%N] ++ lit "/\|?*".

Definition sanitize_filename (name : pystr) : pystr :=
  (* Replace invalid characters with underscores *)
  let name := List.map (fun c => if mem c invalid_chars then chr "_" else c) name in
  (* Remove leading/trailing spaces and dots *)
  let name := strip_chars (lit ". ") name in
  (* Limit length *)
  let name := if (200 <? length name)%nat then take 200 name else name in
  (* Handle empty names *)
  let name := if negb (truthy name) then lit "unnamed" else name in
  name.

(** The file name tried for a clip: without a suffix at first
    ([counter = None]), then with [_1], [_2], ... *)
Definition output_filename (prefix safe_name file_extension : pystr)
    (counter : option Z) : pystr :=
  let suffix := match counter with
                | None => []
                | Some c => lit "_" ++ of_int c
                end in
  if truthy prefix
  then prefix ++ safe_name ++ suffix ++ lit "." ++ file_extension
  else safe_name ++ suffix ++ lit "." ++ file_extension.

(** The [while os.path.exists(output_path)] loop that handles duplicate file
    names.  It returns the path the loop ends with and the paths it has
    tested, in order; [None] when [fuel] iterations did not end it. *)
Fixpoint free_path (fuel : nat) (exists_ : pystr -> bool)
    (output_dir prefix safe_name file_extension : pystr)
    (counter : Z) (output_path : pystr) (tested : list pystr)
  : option (pystr * list pystr) :=
  match fuel with
  | O => None
  | S fuel' =>
      if exists_ output_path then
        let output_filename :=
          output_filename prefix safe_name file_extension (Some counter) in
        let output_path' := path_join output_dir output_filename in
        free_path fuel' exists_ output_dir prefix safe_name file_extension
                  (counter + 1) output_path' (tested ++ [output_path])
      else Some (output_path, tested ++ [output_path])
  end.

(** Lines 230-233: the four lines that announce a clip.  The third formats
    both times with [:.3f]; when that raises, the first two lines have been
    printed. *)
Definition announce_clip (i total : nat) (clip_name : pystr) (track_number : Z)
    (start_time end_time : pynum) (output_path : pystr) : M unit :=
  if formats_3f start_time && formats_3f end_time then
    print (ExportingClip i total clip_name track_number start_time end_time
                         output_path)
  else
    print (ExportingClipCutShort i total clip_name track_number) ;;
    raise overflow_error.

Section WithEnvironment.

Variable env : environment.

(** [os.path.exists(path)] at this point of the run. *)
Definition path_exists (w : world) (path : pystr) : bool :=
  bool_decide (path ∈ files env (sent w)).

(** The output path of a clip: lines 211-228.  A directory holds finitely
    many files, so one more iteration than there are files ends the loop
    (lemma [free_path_total]). *)
Definition choose_output_path (output_dir prefix file_extension safe_name : pystr)
  : M pystr :=
  fun w =>
    let output_filename := output_filename prefix safe_name file_extension None in
    let output_path := path_join output_dir output_filename in
    match free_path (S (size (files env (sent w)))) (path_exists w)
                    output_dir prefix safe_name file_extension 1 output_path []
    with
    | Some (path, _) => (Val path, w)
    | None => (Val output_path, w)
    end.

(** [track_mute_status], filled by the loop over [enumerate(tracks_data)]. *)
Fixpoint mute_status_from (i : Z) (tracks_data : list jobject)
    (track_mute_status : gmap Z bool) : gmap Z bool :=
  match tracks_data with
  | [] => track_mute_status
  | track :: rest =>
      mute_status_from (i + 1) rest
        (<[ i := Z.eqb (get (j_mute track) 0) 1 ]> track_mute_status)
  end.

(** [track_mute_status.get(track_idx, False)] for the clip's track. *)
Definition is_muted (track_mute_status : gmap Z bool) (clip : jobject) : bool :=
  let track_idx := get (j_track clip) 0 in
  default false (track_mute_status !! track_idx).

(** Lines 158-167: filter clips from unmuted tracks. *)
Fixpoint unmuted_clips (track_mute_status : gmap Z bool)
    (clips_data : list jobject) : M (list jobject) :=
  match clips_data with
  | [] => ret []
  | clip :: rest =>
      let track_idx := get (j_track clip) 0 in
      if negb (is_muted track_mute_status clip) then
        clips_to_export <- unmuted_clips track_mute_status rest ;;
        ret (clip :: clips_to_export)
      else
        print (SkippingMuted (get (j_name clip) (lit "Unnamed")) (track_idx + 1)) ;;
        unmuted_clips track_mute_status rest
  end.

(** [a - b] on numbers.  Next to a float an int is converted to a float
    first, which raises when it is out of range. *)
Definition num_sub (a b : pynum) : result pynum :=
  match a, b with
  | PyInt x, PyInt y => Val (PyInt (x - y))
  | PyInt x, PyFloat y =>
      if fits_float x
      then Val (PyFloat (float_sub env (float_of_int env x) y))
      else Exc overflow_error
  | PyFloat x, PyInt y =>
      if fits_float y
      then Val (PyFloat (float_sub env x (float_of_int env y)))
      else Exc overflow_error
  | PyFloat x, PyFloat y => Val (PyFloat (float_sub env x y))
  end.

(** Line 204: the clip carries no usable track or time range. *)
Definition invalid_data (clip : jobject) : bool :=
  let track_idx := get (j_track clip) (-1) in
  let start_time := get (j_start clip) (PyFloat (-10)) in
  let end_time := get (j_end clip) (PyFloat (-10)) in
  (track_idx =? -1) || num_ltb start_time (PyInt 0) || num_leb end_time start_time.

(** Lines 246-251: clear any existing audio in the temp track. *)
Definition clear_temp_track (temp_track_idx : Z) : M unit :=
  Commands.select_none env ;;
  Commands.select_tracks env temp_track_idx 1 (lit "Set") ;;
  Commands.select_time env (PyInt 0) (PyInt 100) (lit "ProjectStart") ;;
  Commands.delete env ;;
  ret tt.

(** Lines 236-263: the commands of the [try] block for one clip. *)
Definition export_clip (temp_track_idx track_idx : Z) (start_time end_time : pynum)
    (output_path : pystr) : M unit :=
  (* Select the specific track with the clip *)
  Commands.select_none env ;;
  Commands.select_tracks env track_idx 1 (lit "Set") ;;
  (* Select the time range of this clip *)
  Commands.select_time env start_time end_time (lit "ProjectStart") ;;
  (* Copy the selected audio *)
  Commands.copy env ;;
  clear_temp_track temp_track_idx ;;
  Commands.select_none env ;;
  Commands.select_tracks env temp_track_idx 1 (lit "Set") ;;
  (* Paste the clip into the temp track *)
  Commands.paste env ;;
  (* Select the temp track and export it *)
  Commands.select_none env ;;
  Commands.select_tracks env temp_track_idx 1 (lit "Set") ;;
  duration <- lift (num_sub end_time start_time) ;;
  Commands.select_time env (PyInt 0) duration (lit "ProjectStart") ;;
  Commands.export_audio env output_path 2 ;;
  ret tt.

(** Lines 199-270: the loop over [enumerate(clips_to_export, start=1)];
    [clips] are the clips still to come, [i] the number of the first. *)
Fixpoint clip_loop (output_dir prefix file_extension : pystr)
    (temp_track_idx : Z) (total : nat) (i : nat) (clips : list jobject)
    (exported_count : nat) : M nat :=
  match clips with
  | [] => ret exported_count
  | clip :: rest =>
      let clip_name := get (j_name clip) (lit "clip_" ++ of_int (Z.of_nat i)) in
      let track_idx := get (j_track clip) (-1) in
      let start_time := get (j_start clip) (PyFloat (-10)) in
      let end_time := get (j_end clip) (PyFloat (-10)) in
      if invalid_data clip then
        print (SkippingInvalid clip_name) ;;
        clip_loop output_dir prefix file_extension temp_track_idx total
                  (S i) rest exported_count
      else
        (* Sanitize the clip name for use as filename *)
        let safe_name := sanitize_filename clip_name in
        output_path <- choose_output_path output_dir prefix file_extension
                                          safe_name ;;
        announce_clip i total clip_name (track_idx + 1) start_time end_time
                      output_path ;;
        exported_count <-
          try_except
            (export_clip temp_track_idx track_idx start_time end_time output_path ;;
             print ExportComplete ;;
             ret (S exported_count))
            (fun e => print (FailedToExportClip e) ;; ret exported_count) ;;
        clip_loop output_dir prefix file_extension temp_track_idx total
                  (S i) rest exported_count
  end.

(** Lines 188-196: mute all other tracks except the temp track. *)
Definition mute_all_but (temp_track_idx : Z) (num_tracks : nat) : M unit :=
  for_each (range num_tracks) (fun t =>
    Commands.select_none env ;;
    Commands.select_tracks env t 1 (lit "Set") ;;
    (if t =? temp_track_idx
     then Commands.set_track_audio env (Some false) None None None
     else Commands.set_track_audio env (Some true) None None None) ;;
    ret tt).

(** [json.loads(text)] where a [JSONDecodeError] is not caught on the spot. *)
Definition loads (text : pystr) : M (list jobject) :=
  match json_loads env text with
  | Some data => ret data
  | None => raise JSONDecodeError
  end.

(** Lines 122-274: the body of the [with] block. *)
Definition export_clips_body (output_dir prefix file_extension : pystr) : M unit :=
  (* Get track information to check mute status *)
  tracks_info <- Commands.get_info env (lit "Tracks") (lit "JSON") ;;
  tracks_data <- loads tracks_info ;;
  let track_mute_status := mute_status_from 0 tracks_data ∅ in
  print (FoundTracks (length tracks_data)) ;;
  (* Get clip information *)
  clips_info <- Commands.get_info env (lit "Clips") (lit "JSON") ;;
  match json_loads env clips_info with
  | None => print (ParseErrorReport clips_info)
  | Some clips_data =>
      match clips_data with
      | [] => print NoClipsFound
      | _ :: _ =>
          (* Filter clips from unmuted tracks *)
          clips_to_export <- unmuted_clips track_mute_status clips_data ;;
          match clips_to_export with
          | [] => print NoClipsInUnmutedTracks
          | _ :: _ =>
              print (FoundClips (length clips_to_export)) ;;
              (* Create a temporary export track at the end *)
              Commands.new_stereo_track env ;;
              tracks_info_updated <- Commands.get_info env (lit "Tracks") (lit "JSON") ;;
              tracks_data_updated <- loads tracks_info_updated ;;
              let temp_track_idx := Z.of_nat (length tracks_data_updated) - 1 in
              print (CreatedTemporaryTrack temp_track_idx) ;;
              let num_tracks := length tracks_data_updated in
              mute_all_but temp_track_idx num_tracks ;;
              exported_count <-
                clip_loop output_dir prefix file_extension temp_track_idx
                          (length clips_to_export) 1 clips_to_export 0 ;;
              print (ExportedClips exported_count (length clips_to_export)
                                   output_dir)
          end
      end
  end.

(** [export_clips_individually]: the [with] block and the three handlers. *)
Definition export_clips_individually (output_dir prefix file_extension : pystr)
    (w : world) : exit_status * world :=
  match with_pipe env (export_clips_body output_dir prefix file_extension) w with
  | (Val _, w') => (Completed, w')
  | (Exc (AudacityError msg), w') =>
      (SysExit 1, snd (print (AudacityErrorReport msg) w'))
  | (Exc JSONDecodeError, w') =>
      (SysExit 1, snd (print JSONErrorReport w'))
  | (Exc e, w') =>
      (SysExit 1, snd (print (UnexpectedErrorReport e) w'))
  end.

End WithEnvironment.
End ExportClips.

(** ** export_tracks_individually.py *)

Module ExportTracks.

(** The dictionary [get_user_input] returns. *)
Record settings : Type := {
  output_dir : pystr;
  base_filename : pystr;
  file_extension : pystr
}.

(** [get_user_input] *)
Definition get_user_input (c : console) (inputs : list pystr)
  : option (settings * list pystr * list pystr) :=
  match ask_output_dir c [] inputs with
  | None => None
  | Some (output_dir, made, rest) =>
      match rest with
      | line1 :: line2 :: rest' =>
          (* Get base filename *)
          let base_filename := strip line1 in
          let base_filename :=
            if negb (truthy base_filename) then lit "track" else base_filename in
          (* Get file extension *)
          let file_extension := strip line2 in
          let file_extension :=
            if negb (truthy file_extension) then lit "wav" else file_extension in
          (* Remove leading dot if user included it *)
          let file_extension := lstrip_chars (lit ".") file_extension in
          Some ({| output_dir := output_dir; base_filename := base_filename;
                   file_extension := file_extension |}, made, rest')
      | _ => None
      end
  end.
Section WithEnvironment.

Variable env : environment.

(** Lines 140-143: mute all tracks first. *)
Definition mute_all (num_tracks : nat) : M unit :=
  for_each (range num_tracks) (fun j =>
    Commands.select_tracks env j 1 (lit "Set") ;;
    Commands.set_track_audio env (Some true) None None None ;;
    ret tt).

(** Lines 159-161: unmute all tracks. *)
Definition unmute_all (num_tracks : nat) : M unit :=
  for_each (range num_tracks) (fun j =>
    Commands.select_tracks env j 1 (lit "Set") ;;
    Commands.set_track_audio env (Some false) None None None ;;
    ret tt).

(** Lines 129-155: the loop over [enumerate(tracks_data, start=1)];
    [tracks] are the tracks still to come, [i] the number of the first. *)
Fixpoint track_loop (output_dir base_filename file_extension : pystr)
    (num_tracks : nat) (i : nat) (tracks : list jobject) : M unit :=
  match tracks with
  | [] => ret tt
  | track :: rest =>
      let track_name := get (j_name track) (lit "Track " ++ of_int (Z.of_nat i)) in
      let track_index := Z.of_nat i - 1 in
      (* Construct output filename *)
      let output_filename :=
        base_filename ++ lit "_" ++ of_int (Z.of_nat i) ++ lit "." ++ file_extension in
      let output_path := path_join output_dir output_filename in
      print (ExportingTrack i num_tracks track_name output_path) ;;
      (* Mute all tracks first *)
      mute_all num_tracks ;;
      (* Unmute only the current track (solo it) *)
      Commands.select_tracks env track_index 1 (lit "Set") ;;
      Commands.set_track_audio env (Some false) None None None ;;
      (* Select all time for this track *)
      Commands.select_all env ;;
      (* Export the track *)
      Commands.export_audio env output_path 2 ;;
      print ExportComplete ;;
      track_loop output_dir base_filename file_extension num_tracks (S i) rest
  end.

(** Lines 98-166: the body of the [with] block. *)
Definition export_tracks_body (output_dir base_filename file_extension : pystr)
  : M unit :=
  tracks_info <- Commands.get_info env (lit "Tracks") (lit "JSON") ;;
  match json_loads env tracks_info with
  | None => print (ParseErrorReport tracks_info)
  | Some tracks_data =>
      let num_tracks := length tracks_data in
      if (num_tracks =? 0)%nat then print NoTracksFound
      else
        print (FoundTracks num_tracks) ;;
        (* Export each track individually *)
        track_loop output_dir base_filename file_extension num_tracks 1 tracks_data ;;
        (* Unmute all tracks after export is complete *)
        print RestoringTrackStates ;;
        unmute_all num_tracks ;;
        print AllTracksUnmuted ;;
        print (AllTracksExported output_dir)
  end.

(** [export_tracks_individually]: the [with] block and the two handlers. *)
Definition export_tracks_individually (output_dir base_filename file_extension : pystr)
    (w : world) : exit_status * world :=
  match with_pipe env (export_tracks_body output_dir base_filename file_extension) w
  with
  | (Val _, w') => (Completed, w')
  | (Exc (AudacityError msg), w') =>
      (SysExit 1, snd (print (AudacityErrorReport msg) w'))
  | (Exc e, w') =>
      (SysExit 1, snd (print (UnexpectedErrorReport e) w'))
  end.

End WithEnvironment.
End ExportTracks.

(** * Notions the properties are stated with *)

(** ** Response framing *)

Module Framing.
Import Pipe.

(** The three kinds of read the loop tells apart. *)
Definition no_data (r : read) : bool := negb (truthy (line r)).

Definition blank (r : read) : bool :=
  truthy (line r) && PyStr.eqb (strip (line r)) [].

Definition content (r : read) : bool :=
  truthy (line r) && negb (PyStr.eqb (strip (line r)) []).

Definition has_content (reads : list read) : bool := existsb content reads.

(** The lines with content, concatenated. *)
Definition content_of (reads : list read) : pystr :=
  concat (List.map line (List.filter content reads)).

(** No read of [reads] is a blank line that follows content; [seen] tells
    whether content came before [reads]. *)
Fixpoint no_terminator (seen : bool) (reads : list read) : bool :=
  match reads with
  | [] => true
  | r :: rest =>
      if blank r then negb seen && no_terminator seen rest
      else no_terminator (seen || content r) rest
  end.

(** Every read of [reads] that found no data happened by the deadline. *)
Definition on_time (timeout start_time : Z) (reads : list read) : bool :=
  forallb (fun r => negb (no_data r) || (at_time r - start_time <=? timeout)) reads.

(** A terminator (a blank line after content) is read by the deadline. *)
Definition terminator_by_deadline (timeout start_time : Z) (reads : list read)
  : Prop :=
  exists pre b rest,
    reads = pre ++ b :: rest /\ blank b = true /\ has_content pre = true /\
    at_time b - start_time <= timeout.

Definition timeout_error : exn :=
  AudacityError (lit "Failed to receive response: Timeout waiting for response").

(** A connected pipe with the given timeout whose inbound channel delivers
    [reads]. *)
Definition listening (timeout : Z) (reads : list read) : AudacityPipe :=
  {| timeout := timeout;
     to_pipe := Some {| written := []; write_fails := None |};
     from_pipe := Some reads;
     _is_connected := true |}.

(** A line of text as [readline] returns it, with its line feed. *)
Definition ln (s : string) : pystr := lit s ++ newline.

(** The response text as the specification describes it: the text with a
    trailing status sentinel taken off and nothing else changed (surrounding
    white space apart). *)
Definition without_trailing_sentinel (response : pystr) : pystr :=
  let text := strip response in
  if ends_with finished_ok text
  then strip (take (length text - length finished_ok) text)
  else text.

End Framing.

(** ** Commands issued *)

(** The commands a computation issues when run in [w]. *)
Definition issued {A : Type} (m : M A) (w : world) : list pystr :=
  drop (length (sent w)) (sent (snd (m w))).

(** The text of [open_project]'s command if the flag were written as the
    specification has it, as [0] or [1]. *)
Definition open_project_with_digit (filename : pystr) (add_to_history : bool)
  : pystr :=
  lit "OpenProject2: Filename='" ++ filename ++ lit "' AddToHistory="
  ++ (if add_to_history then lit "1" else lit "0").

(** The parameters of a command, each after a space. *)
Definition spaced (params : list pystr) : pystr :=
  concat (List.map (fun p => lit " " ++ p) params).

(** A parameter as it stands in a command: [Key=value] after one space,
    and nothing when the parameter is left out. *)
Definition field (key : string) (value : option pystr) : pystr :=
  match value with
  | Some v => lit " " ++ lit key ++ lit "=" ++ v
  | None => []
  end.

(** A text between single quotes. *)
Definition quoted (s : pystr) : pystr := lit "'" ++ s ++ lit "'".

(** A flag as the host reads it. *)
Definition digit (b : bool) : pystr := if b then lit "1" else lit "0".

(** The text [field] is one of the space-separated fields of [command]. *)
Definition carries (command field : pystr) : Prop :=
  exists before after, command = before ++ lit " " ++ field ++ after /\
    (after = [] \/ exists rest, after = lit " " ++ rest).

(** A path as [export_audio] sends it: a slash for every backslash. *)
Definition slashed (filename : pystr) : pystr :=
  List.map (fun c => if (c =? 92)%N then 47%N else c) filename.

(** ** Environments to run the workflows in *)

(** A stand-in for [repr] of a float: numerator and denominator. *)
Definition fraction_repr (q : Q) : pystr :=
  of_int (Qnum q) ++ lit "/" ++ of_int (Zpos (Qden q)).

(** An environment in which the pipe connects, given what the host answers,
    how answers parse and which files exist. *)
Definition environment_of (answer : list pystr -> pystr -> reply)
    (parse : pystr -> option (list jobject))
    (existing : list pystr -> gset pystr) : environment :=
  {| connect_error := None;
     respond := answer;
     files := existing;
     json_loads := parse;
     float_repr := fraction_repr;
     float_of_int := inject_Z;
     float_sub := Qminus |}.

(** The host that answers every command with an empty response. *)
Definition silent_host : environment :=
  environment_of (fun _ _ => Responds []) (fun _ => None) (fun _ => ∅).

(** ** File names *)

(** What [sanitize_filename] puts for one character. *)
Definition replaced (c : codepoint) : codepoint :=
  if mem c ExportClips.invalid_chars then chr "_" else c.

(** A name [sanitize_filename] finds nothing to change in. *)
Definition clean_name (name : pystr) : Prop :=
  name <> [] /\ (length name <= 200)%nat /\
  Forall (fun c => mem c ExportClips.invalid_chars = false) name /\
  (forall c rest, name = c :: rest -> mem c (lit ". ") = false) /\
  (forall c front, name = front ++ [c] -> mem c (lit ". ") = false).

(** A name that is cut at 200 characters right after a space. *)
Definition long_name : pystr := repeat 97%N 199 ++ lit " b".

(** The paths the collision loop goes through: [name.ext] for [k = 0], then
    [name_k.ext]. *)
Definition candidate (output_dir prefix safe_name file_extension : pystr)
    (k : nat) : pystr :=
  path_join output_dir
    (ExportClips.output_filename prefix safe_name file_extension
       (match k with
        | O => None
        | S _ => Some (Z.of_nat k)
        end)).

(** A directory [/out] that already holds [take.wav] and [take_1.wav]. *)
Definition two_takes : environment :=
  environment_of (fun _ _ => Responds []) (fun _ => None)
    (fun _ => {[ lit "/out/take.wav"; lit "/out/take_1.wav" ]}).

(** ** The host's mute flags *)

(** A reference model of the host application, as far as the mute flags go:
    which tracks are selected and which are muted, and how the commands of
    the track workflow change that.  A command changes the current
    selection only ([SetTrackAudio] mutes or unmutes the selected tracks);
    commands the model does not know leave the state as it is. *)
Module Host.

Record state : Type := { selected : list bool; muted : list bool }.

Definition select_one (j : Z) : pystr :=
  lit "SelectTracks: Track=" ++ of_int j ++ lit " TrackCount=1 Mode=Set".

Definition step (st : state) (command : pystr) : state :=
  let n := length (muted st) in
  if PyStr.eqb command (lit "SelectAll:") then
    {| selected := repeat true n; muted := muted st |}
  else if PyStr.eqb command (lit "SelectNone:") then
    {| selected := repeat false n; muted := muted st |}
  else if PyStr.eqb command (lit "SetTrackAudio: Mute=1") then
    {| selected := selected st;
       muted := zip_with (fun s m => s || m) (selected st) (muted st) |}
  else if PyStr.eqb command (lit "SetTrackAudio: Mute=0") then
    {| selected := selected st;
       muted := zip_with (fun s m => negb s && m) (selected st) (muted st) |}
  else
    match List.find (fun j => PyStr.eqb command (select_one (Z.of_nat j))) (seq 0 n) with
    | Some j => {| selected := List.map (Nat.eqb j) (seq 0 n); muted := muted st |}
    | None => st
    end.

Definition run (st : state) (commands : list pystr) : state :=
  fold_left step commands st.

(** A state for a project of [n] tracks. *)
Definition well_formed (n : nat) (st : state) : Prop :=
  length (selected st) = n /\ length (muted st) = n.

(** The state a project is in when its tracks are as [tracks_data] says. *)
Definition initial (tracks_data : list jobject) : state :=
  {| selected := repeat false (length tracks_data);
     muted := List.map (fun track => Z.eqb (get (j_mute track) 0) 1) tracks_data |}.

End Host.

(** The world [w] with the connection flag set to [b]. *)
Definition connected_world (w : world) (b : bool) : world :=
  {| sent := sent w; printed := printed w; connected := b |}.

(** ** The track workflow *)

(** The commands of the restore step for [n] tracks. *)
Definition restore_commands (n : nat) : list pystr :=
  flat_map (fun j => [Host.select_one j; lit "SetTrackAudio: Mute=0"]) (range n).

(** The command that exports track number [i] (counted from 1). *)
Definition export_track_command (output_dir base_filename file_extension : pystr)
    (i : nat) : pystr :=
  lit "Export2: Filename=" ++ Commands.dquote
  ++ replace (lit "\") (lit "/")
       (path_join output_dir
          (base_filename ++ lit "_" ++ of_int (Z.of_nat i) ++ lit "." ++ file_extension))
  ++ Commands.dquote ++ lit " NumChannels=2".

(** The commands that mute each of [n] tracks in turn. *)
Definition mute_commands (n : nat) : list pystr :=
  flat_map (fun j => [Host.select_one j; lit "SetTrackAudio: Mute=1"]) (range n).

(** The commands that lead up to the export of track number [i] (counted
    from 1): every track muted, track [i] unmuted, everything selected. *)
Definition solo_commands (n i : nat) : list pystr :=
  mute_commands n
  ++ [Host.select_one (Z.of_nat i - 1); lit "SetTrackAudio: Mute=0"; lit "SelectAll:"].

(** All commands for track number [i]. *)
Definition track_commands (output_dir base_filename file_extension : pystr)
    (n i : nat) : list pystr :=
  solo_commands n i ++ [export_track_command output_dir base_filename file_extension i].

(** All commands of a run over [n] tracks that goes through. *)
Definition track_run_commands (output_dir base_filename file_extension : pystr)
    (n : nat) : list pystr :=
  [lit "GetInfo: Type=Tracks"]
  ++ flat_map (track_commands output_dir base_filename file_extension n) (seq 1 n)
  ++ restore_commands n.

(** An [Export2] command. *)
Definition is_export (command : pystr) : bool :=
  starts_with (lit "Export2:") command.

(** The mute flags of [n] tracks of which track [j] alone is audible. *)
Definition only_unmuted (n j : nat) : list bool :=
  List.map (fun k => negb (k =? j)%nat) (seq 0 n).

(** A computation issues the commands of [commands] in order, all of them
    if it returns and some first ones if it raises, whatever it prints. *)
Definition sends {A : Type} (commands : list pystr) (m : M A) : Prop :=
  forall w, exists n,
    sent (snd (m w)) = sent w ++ take n commands /\
    (forall a, fst (m w) = Val a -> take n commands = commands).

(** Every command of [commands], issued after [history], gets a response. *)
Definition all_respond (env : environment) (history commands : list pystr) : Prop :=
  forall k c, commands !! k = Some c ->
    exists text, respond env (history ++ take k commands) c = Responds text.

(** What a run from [w] to [w'] with result [r] has issued: commands that
    all got a response, and then, if [r] is an exception, one more command,
    whose failure is the exception. *)
Definition fail_fast_run (env : environment) {A : Type} (w : world) (r : result A) (w' : world) : Prop :=
  exists new,
    sent w' = sent w ++ new /\
    match r with
    | Val _ => all_respond env (sent w) new
    | Exc e =>
        exists pre c msg,
          new = pre ++ [c] /\ all_respond env (sent w) pre /\
          respond env (sent w ++ pre) c = Fails msg /\ e = AudacityError msg
    end.

Definition fail_fast (env : environment) {A : Type} (m : M A) : Prop :=
  forall w, fail_fast_run env w (fst (m w)) (snd (m w)).

(** A project of two unmuted tracks whose host fails every [Export2]. *)
Definition two_tracks : list jobject :=
  [ {| j_name := Some (lit "Drums"); j_mute := Some 0; j_track := None;
       j_start := None; j_end := None |};
    {| j_name := Some (lit "Bass"); j_mute := Some 0; j_track := None;
       j_start := None; j_end := None |} ].

Definition failing_export : environment :=
  environment_of
    (fun _ command =>
       if starts_with (lit "Export2:") command
       then Fails (lit "Failed to receive response: Timeout waiting for response")
       else Responds (lit "[tracks]"))
    (fun _ => Some two_tracks)
    (fun _ => ∅).

(** The same project on a host that answers every command. *)
Definition answering_host : environment :=
  environment_of (fun _ _ => Responds (lit "[tracks]")) (fun _ => Some two_tracks)
                 (fun _ => ∅).

(** ** The clip workflow *)

(** What a computation adds to the commands issued and to the lines printed
    satisfies [P], however it ends. *)
Definition emits {A : Type} (P : list pystr -> list message -> Prop) (m : M A)
  : Prop :=
  forall w, exists new more,
    sent (snd (m w)) = sent w ++ new /\
    printed (snd (m w)) = printed w ++ more /\
    P new more.

(** The selection the clearing step deletes. *)
Definition clear_range : pystr :=
  lit "SelectTime: Start=0 End=100 RelativeTo=ProjectStart".

(** In [commands], every [Delete:] comes right after the three commands that
    select the seconds 0 to 100 of track [t] alone, and every [Paste:] comes
    three commands after a [Delete:]. *)
Definition cleared_before_paste (t : Z) (commands : list pystr) : Prop :=
  (forall k, commands !! k = Some (lit "Delete:") ->
     exists k0, k = (k0 + 3)%nat /\
       commands !! k0 = Some (lit "SelectNone:") /\
       commands !! (k0 + 1)%nat = Some (Host.select_one t) /\
       commands !! (k0 + 2)%nat = Some clear_range) /\
  (forall k, commands !! k = Some (lit "Paste:") ->
     exists k0, k = (k0 + 3)%nat /\ commands !! k0 = Some (lit "Delete:")).

(** Neither [Delete:] nor [Paste:]. *)
Definition harmless (command : pystr) : Prop :=
  command <> lit "Delete:" /\ command <> lit "Paste:".

(** The commands of the [try] block for one clip, in order; the last two
    are not reached when the subtraction of the times raises. *)
Definition clip_commands (env : environment) (temp_track_idx track_idx : Z)
    (start_time end_time : pynum) (output_path : pystr) : list pystr :=
  [ lit "SelectNone:";
    Host.select_one track_idx;
    lit "SelectTime: Start=" ++ Commands.of_num env start_time
      ++ lit " End=" ++ Commands.of_num env end_time ++ lit " RelativeTo=ProjectStart";
    lit "Copy:";
    lit "SelectNone:";
    Host.select_one temp_track_idx;
    clear_range;
    lit "Delete:";
    lit "SelectNone:";
    Host.select_one temp_track_idx;
    lit "Paste:";
    lit "SelectNone:";
    Host.select_one temp_track_idx ]
  ++ match ExportClips.num_sub env end_time start_time with
     | Val duration =>
         [ lit "SelectTime: Start=0 End=" ++ Commands.of_num env duration
             ++ lit " RelativeTo=ProjectStart";
           lit "Export2: Filename=" ++ Commands.dquote
             ++ replace (lit "\") (lit "/") output_path ++ Commands.dquote
             ++ lit " NumChannels=2" ]
     | Exc _ => []
     end.

(** The name the loop has for clip number [i], and the commands of its
    [try] block for the clip when it exports it to [output_path]. *)
Definition name_of (i : nat) (clip : jobject) : pystr :=
  get (j_name clip) (lit "clip_" ++ of_int (Z.of_nat i)).

Definition commands_for (env : environment) (temp_track_idx : Z) (clip : jobject)
    (output_path : pystr) : list pystr :=
  clip_commands env temp_track_idx (get (j_track clip) (-1))
    (get (j_start clip) (PyFloat (-10))) (get (j_end clip) (PyFloat (-10)))
    output_path.

(** A computation issues the commands of [commands] in order, all of them
    if it returns and some first ones if it raises; it prints nothing. *)
Definition issues {A : Type} (commands : list pystr) (m : M A) : Prop :=
  forall w, exists n,
    sent (snd (m w)) = sent w ++ take n commands /\
    printed (snd (m w)) = printed w /\
    (forall a, fst (m w) = Val a -> take n commands = commands).

(** The project of the specification's scenario: two tracks, the first one
    muted; three clips, the second one on the muted track. *)
Definition track_object (name : string) (mute : Z) : jobject :=
  {| j_name := Some (lit name); j_mute := Some mute; j_track := None;
     j_start := None; j_end := None |}.

Definition clip_object (name : string) (track : Z) (start_time end_time : pynum)
  : jobject :=
  {| j_name := Some (lit name); j_mute := None; j_track := Some track;
     j_start := Some start_time; j_end := Some end_time |}.

Definition scenario_tracks : list jobject :=
  [ track_object "Vocals" 1; track_object "Guitar" 0 ].

Definition scenario_clips : list jobject :=
  [ clip_object "intro" 1 (PyInt 0) (PyFloat (5 # 2));
    clip_object "muted take" 0 (PyInt 0) (PyInt 4);
    clip_object "outro" 1 (PyFloat 10) (PyFloat 12) ].

(** The host of the scenario: it lists the tracks (one more once the temp
    track is created) and the clips, and answers everything else with an
    empty response. *)
Definition scenario : environment :=
  environment_of
    (fun history command =>
       if PyStr.eqb command (lit "GetInfo: Type=Tracks") then
         if existsb (PyStr.eqb (lit "NewStereoTrack:")) history
         then Responds (lit "[tracks and temp track]")
         else Responds (lit "[tracks]")
       else if PyStr.eqb command (lit "GetInfo: Type=Clips") then
         Responds (lit "[clips]")
       else Responds [])
    (fun text =>
       if PyStr.eqb text (lit "[tracks]") then Some scenario_tracks
       else if PyStr.eqb text (lit "[tracks and temp track]") then
         Some (scenario_tracks ++ [track_object "Audio Track" 0])
       else if PyStr.eqb text (lit "[clips]") then Some scenario_clips
       else None)
    (fun _ => ∅).



(** The scenario on a host whose clip listing is not JSON. *)
Definition garbled_clips : environment :=
  environment_of
    (fun _ command =>
       if PyStr.eqb command (lit "GetInfo: Type=Tracks") then Responds (lit "[tracks]")
       else Responds (lit "garbled"))
    (fun text =>
       if PyStr.eqb text (lit "[tracks]") then Some scenario_tracks else None)
    (fun _ => ∅).

(** The scenario with other clips: the first ends at second 10^400, given
    as an int, which is beyond the range of a float; the second is a
    regular clip.  Both are on the unmuted track. *)
Definition endless_clips : list jobject :=
  [ clip_object "endless" 1 (PyInt 0) (PyInt (10 ^ 400));
    clip_object "outro" 1 (PyFloat 10) (PyFloat 12) ].

Definition endless : environment :=
  environment_of
    (respond scenario)
    (fun text =>
       if PyStr.eqb text (lit "[clips]") then Some endless_clips
       else json_loads scenario text)
    (fun _ => ∅).


(** ** Which clips are exported *)

(** The mute flag of track [t] in a track listing, if the track is listed. *)
Definition mute_flag (tracks_data : list jobject) (t : Z) : option bool :=
  if 0 <=? t
  then (fun track => Z.eqb (get (j_mute track) 0) 1) <$> tracks_data !! Z.to_nat t
  else None.

(** The four conditions of the specification: the clip refers to a track
    ([-1] stands for no track), the mute flag of that track is false or
    absent, the start time is at least 0, the end time is greater than the
    start time. *)
Definition included (tracks_data : list jobject) (clip : jobject) : bool :=
  match j_track clip, j_start clip, j_end clip with
  | Some t, Some start_time, Some end_time =>
      negb (t =? -1)
      && negb (default false (mute_flag tracks_data t))
      && num_leb (PyInt 0) start_time
      && num_ltb start_time end_time
  | _, _, _ => false
  end.

(** The times of the clip can be printed with [:.3f]: an int among them is
    within the range of a float. *)
Definition printable (clip : jobject) : bool :=
  formats_3f (get (j_start clip) (PyFloat (-10)))
  && formats_3f (get (j_end clip) (PyFloat (-10))).

(** The clips a run has taken up for export, as its [Exporting clip] lines
    tell: track number, start and end time. *)
Definition announced (lines : list message) : list (Z * pynum * pynum) :=
  flat_map (fun msg =>
              match msg with
              | ExportingClip _ _ _ track_number start_time end_time _ =>
                  [(track_number, start_time, end_time)]
              | _ => []
              end) lines.

(** The same three values of a clip of the document. *)
Definition clip_key (clip : jobject) : Z * pynum * pynum :=
  (get (j_track clip) (-1) + 1,
   get (j_start clip) (PyFloat (-10)),
   get (j_end clip) (PyFloat (-10))).

(** The [Skipping clip] lines of a run. *)
Definition skipped (lines : list message) : list message :=
  List.filter (fun msg =>
                 match msg with
                 | SkippingMuted _ _ | SkippingInvalid _ => true
                 | _ => false
                 end) lines.

(** From [w] to [w'] the run has announced the clips [a] and printed [s]
    [Skipping clip] lines. *)
Definition logs (w w' : world) (a : list (Z * pynum * pynum)) (s : nat) : Prop :=
  exists more,
    printed w' = printed w ++ more /\ announced more = a /\
    length (skipped more) = s.

(** A computation that prints nothing. *)
Definition silent {A : Type} (m : M A) : Prop :=
  forall w, printed (snd (m w)) = printed w.

(** ** How a run ends *)

(** The lines the handlers at the end of the two workflows print. *)
Definition handler_report (msg : message) : bool :=
  match msg with
  | AudacityErrorReport _ | JSONErrorReport | UnexpectedErrorReport _ => true
  | _ => false
  end.

(** No line of [lines] is a handler's report. *)
Definition unreported (lines : list message) : Prop :=
  Forall (fun msg => handler_report msg = false) lines.

(** How a run has ended, as its exit status and its output must agree: it
    completed without a handler's report, or it exited with status 1 and a
    handler's report is its last line and its only one. *)
Definition ends_consistently (status : exit_status) (lines : list message) : Prop :=
  match status with
  | Completed => unreported lines
  | SysExit code =>
      code = 1 /\
      exists before report,
        lines = before ++ [report] /\ handler_report report = true /\
        unreported before
  end.


(** ** The final count of the clip workflow *)

(** How many lines of [lines] report a clip exported, a clip that failed,
    a clip passed over for its data. *)
Definition completed_exports (lines : list message) : nat :=
  length (List.filter (fun msg => match msg with ExportComplete => true | _ => false end)
                      lines).

Definition failed_exports (lines : list message) : nat :=
  length (List.filter (fun msg =>
                         match msg with FailedToExportClip _ => true | _ => false end)
                      lines).

Definition invalid_clips (lines : list message) : nat :=
  length (List.filter (fun msg =>
                         match msg with SkippingInvalid _ => true | _ => false end)
                      lines).

(** From [w] to [w'] the run has printed [c], [f] and [i] such lines. *)
Definition tallies (w w' : world) (c f i : nat) : Prop :=
  exists more,
    printed w' = printed w ++ more /\
    completed_exports more = c /\ failed_exports more = f /\ invalid_clips more = i.

(** ** The mute flags in the clip workflow *)

(** The commands with which the clip workflow mutes every track but the
    last one of [n], its temp track. *)
Definition clip_mute_commands (n : nat) : list pystr :=
  flat_map (fun j => [lit "SelectNone:"; Host.select_one j;
                      lit "SetTrackAudio: Mute="
                      ++ digit (negb (j =? Z.of_nat n - 1))])
           (range n).

(** ** The clips a run tries to export *)

(** A host that answers every command. *)
Definition responsive (env : environment) : Prop :=
  forall history command, exists text, respond env history command = Responds text.

(** The commands with which the clip workflow sets up its temp track, the
    last of [n] tracks. *)
Definition clip_setup_commands (n : nat) : list pystr :=
  [ lit "GetInfo: Type=Tracks"; lit "GetInfo: Type=Clips";
    lit "NewStereoTrack:"; lit "GetInfo: Type=Tracks" ]
  ++ clip_mute_commands n.

(** [block] is what a run issues for [clip] when it tries to export it by
    way of temp track [t]: a first part, not empty, of the fifteen commands
    for the clip, with the output path one of the candidates for its name;
    all fifteen when the host answers every command. *)
Definition attempt (env : environment) (output_dir prefix file_extension : pystr)
    (t : Z) (clip : jobject) (block : list pystr) : Prop :=
  exists i k n,
    let commands :=
      commands_for env t clip
        (candidate output_dir prefix
           (ExportClips.sanitize_filename (name_of i clip)) file_extension k) in
    length commands = 15%nat /\
    block = take (S n) commands /\
    (responsive env -> block = commands).

(** A command that does not set a mute flag. *)
Definition mute_free (command : pystr) : Prop :=
  command <> lit "SetTrackAudio: Mute=1" /\ command <> lit "SetTrackAudio: Mute=0".

(** A run that has announced its temp track has, after some commands that
    export nothing, muted every track but that one and from then on left
    the mute flags alone. *)
Definition muted_for_export (commands : list pystr) (lines : list message) : Prop :=
  exists n setup following,
    In (CreatedTemporaryTrack (Z.of_nat n - 1)) lines /\
    commands = setup ++ clip_mute_commands n ++ following /\
    Forall (fun c => is_export c = false) setup /\
    Forall mute_free following.

(** ** The commands the scripts use *)

Definition clip_verbs : list pystr :=
  [ lit "GetInfo:"; lit "NewStereoTrack:"; lit "SelectNone:"; lit "SelectTracks:";
    lit "SetTrackAudio:"; lit "SelectTime:"; lit "Copy:"; lit "Delete:";
    lit "Paste:"; lit "Export2:" ].

Definition track_verbs : list pystr :=
  [ lit "GetInfo:"; lit "SelectTracks:"; lit "SetTrackAudio:"; lit "SelectAll:";
    lit "Export2:" ].

(** The command starts with one of [verbs]. *)
Definition has_verb (verbs : list pystr) (command : pystr) : bool :=
  existsb (fun verb => starts_with verb command) verbs.

(** A text without a line feed. *)
Definition one_line (s : pystr) : bool := negb (mem 10%N s).

(** The name of the clip, if it has one, is without a line feed. *)
Definition named_on_one_line (clip : jobject) : bool :=
  match j_name clip with
  | Some name => one_line name
  | None => true
  end.

(** What [send_command] writes for the commands of a run: each command and
    a line feed after it. *)
Definition pipe_text (commands : list pystr) : pystr :=
  concat (List.map (fun c => c ++ newline) commands).

(** The lines of a text, each up to its line feed; [current] is the line
    that has begun, last character first. *)
Fixpoint lines_from (current text : pystr) : list pystr :=
  match text with
  | [] => match current with
          | [] => []
          | _ :: _ => [rev current]
          end
  | c :: rest =>
      if (c =? 10)%N then rev current :: lines_from [] rest
      else lines_from (c :: current) rest
  end.

Definition lines (text : pystr) : list pystr := lines_from [] text.

(** The scenario with one clip, whose name holds a line feed. *)
Definition two_line_name : environment :=
  environment_of
    (respond scenario)
    (fun text =>
       if PyStr.eqb text (lit "[clips]")
       then Some [ {| j_name := Some (lit "a" ++ newline ++ lit "RemoveTracks");
                      j_mute := None; j_track := Some 1;
                      j_start := Some (PyInt 0); j_end := Some (PyInt 4) |} ]
       else json_loads scenario text)
    (fun _ => ∅).

(** ** Asking for the settings *)

(** The directory is there for the exports: it existed when the loop looked,
    or the loop has created it with its last [os.makedirs]. *)
Definition directory_ready (c : console) (made : list pystr) (dir : pystr) : Prop :=
  dir_exists c made dir = true \/
  exists before, made = before ++ [dir] /\ makedirs c before dir = true.

(** A console on which [/out] exists and nothing can be created. *)
Definition plain_console : console :=
  {| expanduser := fun path => path;
     abspath := fun path => path;
     lower := fun s => s;
     dir_exists := fun _ path => PyStr.eqb path (lit "/out");
     makedirs := fun _ _ => false |}.

(** * Properties *)

(** ** Strings *)

Section StringFacts.

Lemma eqb_spec (s t : pystr) : PyStr.eqb s t = true <-> s = t.
Proof.
  revert t. induction s as [|a s IH]; intros [|b t]; simpl; try (split; congruence).
  rewrite andb_true_iff, N.eqb_eq, IH. split.
  - intros [-> ->]. reflexivity.
  - intros [= -> ->]. split; reflexivity.
Qed.

Lemma eqb_refl (s : pystr) : PyStr.eqb s s = true.
Proof. apply eqb_spec. reflexivity. Qed.

Lemma eqb_false (s t : pystr) : PyStr.eqb s t = false <-> s <> t.
Proof.
  rewrite <- eqb_spec. destruct (PyStr.eqb s t); split; congruence.
Qed.

Lemma truthy_app (s t : pystr) : truthy (s ++ t) = truthy s || truthy t.
Proof. destruct s; reflexivity. Qed.

Lemma truthy_true (s : pystr) : truthy s = true <-> s <> [].
Proof. destruct s; simpl; split; congruence. Qed.

End StringFacts.

(** ** The receive loop *)

Section ReceiveLoop.
Import Pipe Framing.

Variables timeout start_time : Z.

Lemma read_kinds (r : read) :
  (truthy (line r) = false /\
   no_data r = true /\ blank r = false /\ content r = false) \/
  (truthy (line r) = true /\ PyStr.eqb (strip (line r)) [] = true /\
   no_data r = false /\ blank r = true /\ content r = false) \/
  (truthy (line r) = true /\ PyStr.eqb (strip (line r)) [] = false /\
   no_data r = false /\ blank r = false /\ content r = true).
Proof.
  unfold no_data, blank, content.
  destruct (truthy (line r)), (PyStr.eqb (strip (line r)) []); simpl; tauto.
Qed.

Lemma content_truthy (r : read) : content r = true -> truthy (line r) = true.
Proof. unfold content. intros H. apply andb_true_iff in H. tauto. Qed.

Lemma content_of_cons (r : read) (reads : list read) :
  content_of (r :: reads)
  = (if content r then line r else []) ++ content_of reads.
Proof. unfold content_of. simpl. destruct (content r); reflexivity. Qed.

Lemma has_content_cons (r : read) (reads : list read) :
  has_content (r :: reads) = content r || has_content reads.
Proof. reflexivity. Qed.

Lemma truthy_content_of (response : pystr) (reads : list read) :
  truthy (response ++ content_of reads) = truthy response || has_content reads.
Proof.
  rewrite truthy_app. f_equal.
  induction reads as [|r reads IH]; [reflexivity|].
  rewrite content_of_cons, has_content_cons, truthy_app, IH.
  destruct (content r) eqn:Hc; [|reflexivity].
  rewrite (content_truthy r Hc). reflexivity.
Qed.

(** One iteration of the loop, by the kind of the read. *)
Lemma receive_loop_cons (response : pystr) (r : read) (rest : list read) :
  receive_loop timeout start_time response (r :: rest)
  = if no_data r then
      if at_time r - start_time >? timeout then Timeout rest
      else receive_loop timeout start_time response rest
    else if blank r then
      if truthy response then Break response rest
      else receive_loop timeout start_time response rest
    else receive_loop timeout start_time (response ++ line r) rest.
Proof.
  cbn [receive_loop].
  destruct (read_kinds r) as [(Hl & Hn & Hb & Hc)|[(Hl & Hs & Hn & Hb & Hc)|(Hl & Hs & Hn & Hb & Hc)]];
    rewrite Hn, Hl; simpl; try rewrite Hs; try rewrite Hb; reflexivity.
Qed.

(** Reads that neither terminate the response nor run into the deadline are
    consumed, and their content is accumulated. *)
Lemma receive_loop_app (response : pystr) (pre rest : list read) :
  no_terminator (truthy response) pre = true ->
  on_time timeout start_time pre = true ->
  receive_loop timeout start_time response (pre ++ rest)
  = receive_loop timeout start_time (response ++ content_of pre) rest.
Proof.
  revert response. induction pre as [|r pre IH]; intros response Hterm Htime.
  - simpl. unfold content_of. simpl. rewrite app_nil_r. reflexivity.
  - simpl in Hterm, Htime. apply andb_true_iff in Htime as [Hr Htime].
    change ((r :: pre) ++ rest) with (r :: (pre ++ rest)).
    rewrite receive_loop_cons, content_of_cons.
    destruct (read_kinds r) as [(Hl & Hn & Hb & Hc)|[(Hl & Hs & Hn & Hb & Hc)|(Hl & Hs & Hn & Hb & Hc)]];
      rewrite Hn, ?Hb, Hc; rewrite Hb, ?Hc in Hterm; rewrite Hn in Hr; simpl in Hr.
    + assert ((at_time r - start_time >? timeout) = false) as -> by lia.
      rewrite orb_false_r in Hterm. simpl. apply IH; assumption.
    + apply andb_true_iff in Hterm as [Hseen Hterm].
      apply negb_true_iff in Hseen. rewrite Hseen. simpl. apply IH; assumption.
    + rewrite orb_true_r in Hterm. rewrite app_assoc. apply IH; [|assumption].
      rewrite truthy_app, Hl, orb_true_r. exact Hterm.
Qed.

(** How the loop can end, read off the reads it consumed. *)
Lemma receive_loop_end (response : pystr) (reads : list read) :
  match receive_loop timeout start_time response reads with
  | Break text rest =>
      exists pre b,
        reads = pre ++ b :: rest /\ blank b = true /\
        (truthy response || has_content pre) = true /\
        no_terminator (truthy response) pre = true /\
        on_time timeout start_time pre = true /\
        text = response ++ content_of pre
  | Timeout rest =>
      exists pre r,
        reads = pre ++ r :: rest /\ no_data r = true /\
        at_time r - start_time > timeout /\
        no_terminator (truthy response) pre = true /\
        on_time timeout start_time pre = true
  | Waiting text =>
      no_terminator (truthy response) reads = true /\
      on_time timeout start_time reads = true /\
      text = response ++ content_of reads
  end.
Proof.
  revert response. induction reads as [|r reads IH]; intros response.
  - simpl. unfold content_of. simpl. rewrite app_nil_r. auto.
  - rewrite receive_loop_cons.
    destruct (read_kinds r) as [(Hl & Hn & Hb & Hc)|[(Hl & Hs & Hn & Hb & Hc)|(Hl & Hs & Hn & Hb & Hc)]];
      rewrite Hn, ?Hb.
    + (* no data *)
      destruct (at_time r - start_time >? timeout) eqn:Hlate.
      * exists [], r. simpl. repeat split; auto. lia.
      * assert (Hr : (negb (no_data r) || (at_time r - start_time <=? timeout)) = true)
          by (rewrite Hn; simpl; lia).
        specialize (IH response).
        destruct (receive_loop timeout start_time response reads) as [text rest|rest|text].
        -- destruct IH as (pre & b & -> & Hbl & Hseen & Hterm & Htime & ->).
           exists (r :: pre), b.
           rewrite has_content_cons, content_of_cons. simpl.
           rewrite Hb, Hc, Hr, orb_false_r. simpl. auto 10.
        -- destruct IH as (pre & r' & -> & Hnd & Hgt & Hterm & Htime).
           exists (r :: pre), r'. simpl.
           rewrite Hb, Hc, Hr, orb_false_r. simpl. auto 10.
        -- destruct IH as (Hterm & Htime & ->).
           rewrite content_of_cons. simpl.
           rewrite Hb, Hc, Hr, orb_false_r. simpl. auto.
    + (* a blank line *)
      assert (Hr : (negb (no_data r) || (at_time r - start_time <=? timeout)) = true)
        by (rewrite Hn; reflexivity).
      destruct (truthy response) eqn:Hseen.
      * exists [], r. simpl. unfold content_of. simpl. rewrite app_nil_r. auto 10.
      * specialize (IH response). rewrite Hseen in IH.
        destruct (receive_loop timeout start_time response reads) as [text rest|rest|text].
        -- destruct IH as (pre & b & -> & Hbl & Hcont & Hterm & Htime & ->).
           exists (r :: pre), b.
           rewrite has_content_cons, content_of_cons. simpl.
           rewrite Hb, Hc, Hr. simpl. auto 10.
        -- destruct IH as (pre & r' & -> & Hnd & Hgt & Hterm & Htime).
           exists (r :: pre), r'. simpl. rewrite Hb, Hr. simpl. auto 10.
        -- destruct IH as (Hterm & Htime & ->).
           rewrite content_of_cons. simpl. rewrite Hb, Hc, Hr. simpl. auto.
    + (* a line with content *)
      assert (Hr : (negb (no_data r) || (at_time r - start_time <=? timeout)) = true)
        by (rewrite Hn; reflexivity).
      specialize (IH (response ++ line r)).
      rewrite truthy_app, Hl, orb_true_r in IH.
      destruct (receive_loop timeout start_time (response ++ line r) reads)
        as [text rest|rest|text].
      * destruct IH as (pre & b & -> & Hbl & _ & Hterm & Htime & ->).
        exists (r :: pre), b.
        rewrite has_content_cons, content_of_cons. simpl.
        rewrite Hb, Hc, Hr, !orb_true_r. simpl. rewrite app_assoc. auto 10.
      * destruct IH as (pre & r' & -> & Hnd & Hgt & Hterm & Htime).
        exists (r :: pre), r'. simpl. rewrite Hb, Hc, Hr, orb_true_r. simpl. auto 10.
      * destruct IH as (Hterm & Htime & ->).
        rewrite content_of_cons. simpl. rewrite Hb, Hc, Hr, orb_true_r. simpl.
        rewrite app_assoc. auto.
Qed.

End ReceiveLoop.

(** ** C1: when [receive_response] returns and when it raises *)

Section ReceiveResponse.
Import Pipe Framing.

Lemma receive_response_listening (start_time : Z) (p : AudacityPipe)
    (reads : list read) :
  _is_connected p = true -> from_pipe p = Some reads ->
  fst (receive_response start_time p)
  = match receive_loop (timeout p) start_time [] reads with
    | Break response _ => Returned (clean_up response)
    | Timeout _ => Raised timeout_error
    | Waiting _ => Blocked
    end.
Proof.
  intros Hc Hf. unfold receive_response. rewrite Hc, Hf. simpl.
  destruct (receive_loop (timeout p) start_time [] reads); reflexivity.
Qed.

Example receive_response_strips_status :
  fst (receive_response 0
         (listening 10 [ {| line := ln "[ ]"; at_time := 1 |};
                         {| line := ln "BatchCommand finished: OK"; at_time := 1 |};
                         {| line := newline; at_time := 1 |} ]))
  = Returned (lit "[ ]").
Proof. reflexivity. Qed.

Example receive_response_times_out :
  fst (receive_response 0
         (listening 10 [ {| line := ln "[ ]"; at_time := 1 |};
                         {| line := []; at_time := 9 |};
                         {| line := []; at_time := 11 |} ]))
  = Raised timeout_error.
Proof. reflexivity. Qed.

(** On a connected pipe whose write goes through, [do_command] ends as its
    [receive_response] does. *)
Lemma do_command_receives (opened : pystr + (out_pipe * list read))
    (start_time : Z) (command : pystr) (p : AudacityPipe) (w : out_pipe) :
  _is_connected p = true -> to_pipe p = Some w -> write_fails w = None ->
  fst (do_command opened start_time command p) = fst (receive_response start_time p).
Proof.
  intros Hc Hw Hf. unfold do_command. rewrite Hc. cbn [negb].
  unfold send_command. rewrite Hc, Hw, Hf. cbn [negb].
  unfold receive_response. cbn [_is_connected from_pipe timeout]. rewrite Hc.
  cbn [negb]. destruct (from_pipe p) as [reads|]; [|reflexivity].
  destruct (receive_loop (timeout p) start_time [] reads); reflexivity.
Qed.

(** How a call of [receive_response] ends.  On a connected pipe it returns
    exactly when the reads start with a stretch [pre] that holds content, no
    blank line after content and no empty read later than the deadline, and
    which is followed by a blank line; it then returns the cleaned-up content
    of [pre].  Blank lines before any content are passed over.  It raises the
    timeout error exactly when, before any such blank line, a read finds no
    data and more than [timeout] has elapsed since the loop started: the
    clock is consulted on empty reads only. *)
Theorem receive_response_framing (start_time : Z) (p : AudacityPipe)
    (reads : list read) :
  _is_connected p = true -> from_pipe p = Some reads ->
  (forall text,
      fst (receive_response start_time p) = Returned text <->
      exists pre b rest,
        reads = pre ++ b :: rest /\ blank b = true /\ has_content pre = true /\
        no_terminator false pre = true /\
        on_time (timeout p) start_time pre = true /\
        text = clean_up (content_of pre)) /\
  (forall e,
      fst (receive_response start_time p) = Raised e <->
      e = timeout_error /\
      exists pre r rest,
        reads = pre ++ r :: rest /\ no_data r = true /\
        at_time r - start_time > timeout p /\
        no_terminator false pre = true /\
        on_time (timeout p) start_time pre = true).
Proof.
  intros Hc Hf. rewrite (receive_response_listening start_time p reads Hc Hf).
  pose proof (receive_loop_end (timeout p) start_time [] reads) as Hend.
  split.
  - intros text. split.
    + destruct (receive_loop (timeout p) start_time [] reads) as [resp rest|rest|resp];
        try discriminate.
      intros [= <-].
      destruct Hend as (pre & b & -> & Hb & Hseen & Hterm & Htime & ->).
      exists pre, b, rest. simpl in *. auto 10.
    + intros (pre & b & rest & -> & Hb & Hseen & Hterm & Htime & ->).
      rewrite receive_loop_app by assumption.
      rewrite receive_loop_cons.
      destruct (read_kinds b) as [(_ & _ & Hb' & _)|[(_ & _ & Hn & _ & _)|(_ & _ & _ & Hb' & _)]];
        try congruence.
      rewrite Hn, Hb, truthy_content_of, Hseen. reflexivity.
  - intros e. split.
    + destruct (receive_loop (timeout p) start_time [] reads) as [resp rest|rest|resp];
        try discriminate.
      intros [= <-]. split; [reflexivity|].
      destruct Hend as (pre & r & -> & Hn & Hgt & Hterm & Htime).
      exists pre, r, rest. auto 10.
    + intros (-> & pre & r & rest & -> & Hn & Hgt & Hterm & Htime).
      rewrite receive_loop_app by assumption.
      rewrite receive_loop_cons, Hn.
      assert ((at_time r - start_time >? timeout p) = true) as -> by lia.
      reflexivity.
Qed.

Lemma receive_response_framing_witness :
  let reads := [ {| line := newline; at_time := 1 |};
                 {| line := ln "Tracks: 2"; at_time := 2 |};
                 {| line := []; at_time := 3 |};
                 {| line := newline; at_time := 4 |} ] in
  fst (receive_response 0 (listening 10 reads)) = Returned (lit "Tracks: 2").
Proof.
  intros reads.
  apply (proj1 (receive_response_framing 0 (listening 10 reads) reads
                  eq_refl eq_refl)).
  exists [ {| line := newline; at_time := 1 |};
           {| line := ln "Tracks: 2"; at_time := 2 |};
           {| line := []; at_time := 3 |} ],
         {| line := newline; at_time := 4 |}, [].
  repeat split; reflexivity.
Defined.

(** C1 fails on the code.  The constructor documents [timeout] as the
    maximum time to wait for pipe operations, and the claim has the call
    raise when no terminating blank line is observed within it.  Here the
    timeout is 10 and the only terminator is read at time 20: the call has
    waited twice the timeout, and it returns the response all the same.  The
    clock is looked at on empty reads only, and no read came back empty; so
    the call returns however late the terminator is read. *)
Lemma late_terminator_is_returned :
  let reads := [ {| line := ln "Tracks: 2"; at_time := 5 |};
                 {| line := newline; at_time := 20 |} ] in
  ~ terminator_by_deadline 10 0 reads /\
  fst (receive_response 0 (listening 10 reads)) = Returned (lit "Tracks: 2") /\
  (forall late,
      fst (receive_response 0
             (listening 10 [ {| line := ln "Tracks: 2"; at_time := 5 |};
                             {| line := newline; at_time := late |} ]))
      = Returned (lit "Tracks: 2")).
Proof.
  intros reads. split; [|split; [reflexivity|intros late; reflexivity]].
  intros (pre & b & rest & Heq & Hb & Hc & Ht).
  destruct pre as [|r1 [|r2 [|r3 pre]]]; simpl in Heq.
  - discriminate Hc.
  - injection Heq as <- <- <-. simpl in Ht. lia.
  - injection Heq as _ _ Heq. discriminate Heq.
  - injection Heq as _ _ Heq. discriminate Heq.
Qed.

End ReceiveResponse.

(** ** Stripping and replacing *)

Section StripFacts.

Variable p : codepoint -> bool.

Lemma drop_while_app_stop (a y : pystr) (c : codepoint) :
  p c = false -> drop_while p (a ++ c :: y) = drop_while p a ++ c :: y.
Proof.
  intros Hc. induction a as [|x a IH]; simpl.
  - rewrite Hc. reflexivity.
  - destruct (p x); [exact IH|reflexivity].
Qed.

Lemma drop_while_absorb (a y : pystr) :
  drop_while p (drop_while p a ++ y) = drop_while p (a ++ y).
Proof.
  induction a as [|x a IH]; simpl; [reflexivity|].
  destruct (p x) eqn:Hx; [exact IH|]. simpl. rewrite Hx. reflexivity.
Qed.

Lemma drop_while_idem (s : pystr) : drop_while p (drop_while p s) = drop_while p s.
Proof.
  induction s as [|x s IH]; simpl; [reflexivity|].
  destruct (p x) eqn:Hx; [exact IH|]. simpl. rewrite Hx. reflexivity.
Qed.

Lemma drop_while_snoc (s : pystr) (c : codepoint) :
  drop_while p (s ++ [c])
  = match drop_while p s with
    | [] => if p c then [] else [c]
    | r => r ++ [c]
    end.
Proof.
  induction s as [|x s IH]; simpl; [reflexivity|].
  destruct (p x); [exact IH|reflexivity].
Qed.

Lemma rstrip_by_cons (c : codepoint) (s : pystr) :
  rstrip_by p (c :: s)
  = match rstrip_by p s with
    | [] => if p c then [] else [c]
    | r => c :: r
    end.
Proof.
  unfold rstrip_by. simpl. rewrite drop_while_snoc.
  destruct (drop_while p (rev s)) as [|x r] eqn:Hd; simpl.
  - destruct (p c); reflexivity.
  - rewrite rev_app_distr. simpl.
    destruct (rev r ++ [x]) eqn:Hr; [|reflexivity].
    destruct (rev r); discriminate.
Qed.

Lemma rstrip_by_app_stop (x b : pystr) (c : codepoint) :
  p c = false -> rstrip_by p (x ++ c :: b) = x ++ c :: rstrip_by p b.
Proof.
  intros Hc. unfold rstrip_by.
  rewrite rev_app_distr. simpl. rewrite <- app_assoc. simpl.
  rewrite drop_while_app_stop by assumption.
  rewrite rev_app_distr. simpl. rewrite rev_involutive, <- app_assoc. reflexivity.
Qed.

Lemma rstrip_by_absorb (x b : pystr) :
  rstrip_by p (x ++ rstrip_by p b) = rstrip_by p (x ++ b).
Proof.
  unfold rstrip_by. rewrite !rev_app_distr, rev_involutive, drop_while_absorb.
  reflexivity.
Qed.

Lemma rstrip_by_idem (s : pystr) : rstrip_by p (rstrip_by p s) = rstrip_by p s.
Proof. unfold rstrip_by. rewrite rev_involutive, drop_while_idem. reflexivity. Qed.

Lemma strip_by_comm (s : pystr) :
  rstrip_by p (lstrip_by p s) = lstrip_by p (rstrip_by p s).
Proof.
  unfold lstrip_by. induction s as [|c s IH]; [reflexivity|].
  rewrite rstrip_by_cons. simpl. destruct (p c) eqn:Hc.
  - rewrite IH. destruct (rstrip_by p s); simpl; [reflexivity|].
    rewrite Hc. reflexivity.
  - rewrite rstrip_by_cons, Hc.
    destruct (rstrip_by p s); simpl; rewrite Hc; reflexivity.
Qed.

Lemma strip_by_idem (s : pystr) : strip_by p (strip_by p s) = strip_by p s.
Proof.
  unfold strip_by. rewrite (strip_by_comm (rstrip_by p (lstrip_by p s))).
  rewrite rstrip_by_idem, (strip_by_comm s).
  unfold lstrip_by. rewrite drop_while_idem. reflexivity.
Qed.

Lemma strip_by_absorb (a b : pystr) :
  strip_by p (lstrip_by p a ++ rstrip_by p b) = strip_by p (a ++ b).
Proof.
  unfold strip_by, lstrip_by at 1. rewrite drop_while_absorb.
  fold (lstrip_by p (a ++ rstrip_by p b)).
  rewrite strip_by_comm, rstrip_by_absorb, <- strip_by_comm. reflexivity.
Qed.

(** Around a text that starts and ends with characters that are kept, the
    two sides are stripped separately. *)
Lemma strip_by_around (a b mid : pystr) (c d : codepoint) :
  p c = false -> p d = false ->
  strip_by p (a ++ (c :: mid ++ [d]) ++ b)
  = lstrip_by p a ++ (c :: mid ++ [d]) ++ rstrip_by p b.
Proof.
  intros Hc Hd. unfold strip_by, lstrip_by.
  assert (E1 : a ++ (c :: mid ++ [d]) ++ b = a ++ c :: (mid ++ d :: b))
    by (simpl; rewrite <- app_assoc; reflexivity).
  rewrite E1, drop_while_app_stop by assumption.
  assert (E2 : drop_while p a ++ c :: mid ++ d :: b
               = (drop_while p a ++ c :: mid) ++ d :: b)
    by (rewrite <- app_assoc; reflexivity).
  rewrite E2, rstrip_by_app_stop by assumption.
  rewrite <- app_assoc. simpl. rewrite <- app_assoc. reflexivity.
Qed.

End StripFacts.

Section ReplaceFacts.

Lemma starts_with_app (q s t : pystr) :
  starts_with q s = true -> starts_with q (s ++ t) = true.
Proof.
  revert s. induction q as [|a q IH]; intros [|b s]; simpl; try congruence.
  rewrite !andb_true_iff. intros [-> H]. auto.
Qed.

Lemma starts_with_self_app (q t : pystr) : starts_with q (q ++ t) = true.
Proof. induction q as [|a q IH]; simpl; [reflexivity|]. rewrite N.eqb_refl. exact IH. Qed.

(** A prefix [q] of [a ++ z] lies within [a], or reaches into [z] with a
    non-empty rest. *)
Lemma starts_with_split (q a z : pystr) :
  starts_with q (a ++ z) = true ->
  starts_with q a = true \/
  exists q2, q = a ++ q2 /\ q2 <> [] /\ starts_with q2 z = true.
Proof.
  revert q. induction a as [|x a IH]; intros q H.
  - destruct q as [|y q]; [left; reflexivity|].
    right. exists (y :: q). repeat split; [discriminate|exact H].
  - destruct q as [|y q]; [left; reflexivity|].
    simpl in H. apply andb_true_iff in H as [Hxy H]. apply N.eqb_eq in Hxy as ->.
    destruct (IH q H) as [Hq|(q2 & -> & Hne & Hq2)].
    + left. simpl. rewrite N.eqb_refl. exact Hq.
    + right. exists q2. auto.
Qed.

Lemma contains_cons (q s : pystr) (c : codepoint) :
  contains q (c :: s) = false -> contains q s = false.
Proof. simpl. intros H. apply orb_false_iff in H. tauto. Qed.

Lemma contains_head (q s : pystr) : contains q s = false -> starts_with q s = false.
Proof. destruct s; simpl; intros H; apply orb_false_iff in H; tauto. Qed.

Lemma contains_drop_while (p : codepoint -> bool) (q s : pystr) :
  contains q s = false -> contains q (drop_while p s) = false.
Proof.
  induction s as [|c s IH]; [auto|]. intros H. simpl drop_while.
  destruct (p c); [|exact H]. apply IH. exact (contains_cons q s c H).
Qed.

Lemma contains_app_l (q s t : pystr) :
  contains q (s ++ t) = false -> contains q s = false.
Proof.
  induction s as [|c s IH]; intros H.
  - destruct q; [|reflexivity]. destruct t; discriminate H.
  - simpl in *. apply orb_false_iff in H as [H1 H2]. apply orb_false_iff. split.
    + destruct (starts_with q (c :: s)) eqn:E; [|reflexivity].
      apply (starts_with_app _ _ t) in E. simpl in E. congruence.
    + auto.
Qed.

Lemma contains_rstrip (p : codepoint -> bool) (q s : pystr) :
  contains q s = false -> contains q (rstrip_by p s) = false.
Proof.
  intros H. apply (contains_app_l q _ (rev (take (length s - length (rstrip_by p s)) (rev s)))).
  enough (rstrip_by p s ++ rev (take (length s - length (rstrip_by p s)) (rev s)) = s)
    as -> by exact H.
  unfold rstrip_by.
  assert (Hd : forall l : pystr, exists k, drop_while p l = drop k l /\ (k <= length l)%nat).
  { induction l as [|c l [k [Hk Hle]]]; [exists 0%nat; auto|].
    simpl. destruct (p c).
    - exists (S k). simpl. split; [exact Hk|lia].
    - exists 0%nat. simpl. split; [reflexivity|lia]. }
  destruct (Hd (rev s)) as (k & -> & Hk). rewrite length_rev in Hk.
  rewrite length_rev, length_drop, length_rev.
  replace (length s - (length s - k))%nat with k by lia.
  rewrite <- rev_app_distr, take_drop, rev_involutive. reflexivity.
Qed.

Lemma replace_absent (old new s : pystr) :
  contains old s = false -> replace old new s = s.
Proof.
  unfold replace. induction s as [|c s IH]; [reflexivity|]. intros H.
  cbn [replace_from]. rewrite (contains_head _ _ H).
  f_equal. apply IH. exact (contains_cons _ _ _ H).
Qed.

Lemma replace_from_skip (old new x y : pystr) :
  replace_from old new (length x) (x ++ y) = replace_from old new 0 y.
Proof. induction x as [|c x IH]; [reflexivity|exact IH]. Qed.

(** The first occurrence of [old], when [old] cannot overlap itself: the
    first character of [old] does not occur again in it. *)
Lemma replace_first (c : codepoint) (tail new a y : pystr) :
  mem c tail = false ->
  contains (c :: tail) a = false ->
  replace (c :: tail) new (a ++ c :: tail ++ y)
  = a ++ new ++ replace (c :: tail) new y.
Proof.
  intros Hfresh. unfold replace. induction a as [|x a IH]; intros Ha.
  - cbn [app replace_from].
    pose proof (starts_with_self_app (c :: tail) y) as E. cbn [app] in E.
    rewrite E. f_equal. cbn [length Nat.pred]. apply replace_from_skip.
  - cbn [app replace_from].
    destruct (starts_with (c :: tail) (x :: a ++ c :: tail ++ y)) eqn:E.
    + exfalso. cbn [starts_with] in E. apply andb_true_iff in E as [Hcx E].
      apply N.eqb_eq in Hcx as <-.
      destruct (starts_with_split _ _ _ E) as [Hin|(q2 & -> & Hne & Hq2)].
      * apply contains_head in Ha. cbn [starts_with] in Ha.
        rewrite N.eqb_refl, Hin in Ha. discriminate Ha.
      * destruct q2 as [|d q2]; [congruence|].
        cbn [app starts_with] in Hq2. apply andb_true_iff in Hq2 as [Hd _].
        apply N.eqb_eq in Hd as ->.
        unfold mem in Hfresh. rewrite existsb_app in Hfresh.
        apply orb_false_iff in Hfresh as [_ Hfresh]. simpl in Hfresh.
        rewrite N.eqb_refl in Hfresh. discriminate Hfresh.
    + f_equal. apply IH. exact (contains_cons _ _ _ Ha).
Qed.

End ReplaceFacts.

(** ** C6: the clean-up of the response text *)

Section CleanUp.
Import Pipe Framing.

Lemma finished_ok_shape :
  finished_ok = 66%N :: (lit "atchCommand finished: O" ++ [75%N]).
Proof. reflexivity. Qed.

(** Texts put together with the literal after each: [glued [a; b]] is
    [a ++ literal ++ b ++ literal]. *)
Local Abbreviation glued pieces :=
  (concat (List.map (fun piece => piece ++ finished_ok) pieces)).

Lemma join_snoc (pieces : list pystr) (last : pystr) :
  join finished_ok (pieces ++ [last]) = glued pieces ++ last.
Proof.
  induction pieces as [|p pieces IH]; [reflexivity|].
  change (join finished_ok ((p :: pieces) ++ [last]))
    with (join finished_ok (p :: pieces ++ [last])).
  destruct (pieces ++ [last]) as [|q rest] eqn:E.
  { destruct pieces; discriminate E. }
  change (join finished_ok (p :: q :: rest))
    with (p ++ finished_ok ++ join finished_ok (q :: rest)).
  rewrite IH. cbn [List.map concat]. rewrite <- !app_assoc. reflexivity.
Qed.

(** The literal ends with a character that is no white space, so trimming
    on the right does not get past it. *)
Lemma rstrip_glued (pieces : list pystr) (last : pystr) :
  rstrip_by is_space (glued pieces ++ last)
  = glued pieces ++ rstrip_by is_space last.
Proof.
  induction pieces as [|p pieces IH]; [reflexivity|].
  cbn [List.map concat]. rewrite finished_ok_shape.
  set (mid := lit "atchCommand finished: O").
  assert (E : forall y : pystr,
             ((p ++ 66%N :: mid ++ [75%N]) ++ y)
             = (p ++ 66%N :: mid) ++ 75%N :: y).
  { intros y. rewrite <- !app_assoc. cbn [app]. rewrite <- app_assoc.
    reflexivity. }
  rewrite <- !app_assoc.
  rewrite (app_assoc p), E, rstrip_by_app_stop by reflexivity.
  rewrite finished_ok_shape in IH. fold mid in IH. rewrite IH.
  rewrite (app_assoc p (66%N :: mid ++ [75%N])), E. reflexivity.
Qed.

(** Every literal is deleted: it cannot overlap itself, so the occurrences
    found from the left are the ones between the pieces. *)
Lemma replace_glued (pieces : list pystr) (last : pystr) :
  Forall (fun piece => contains finished_ok piece = false) pieces ->
  contains finished_ok last = false ->
  replace finished_ok [] (glued pieces ++ last) = concat pieces ++ last.
Proof.
  intros Hpieces Hlast. induction Hpieces as [|p pieces Hp Hps IH].
  - apply replace_absent, Hlast.
  - cbn [List.map concat]. rewrite <- !app_assoc.
    rewrite finished_ok_shape in *.
    set (mid := lit "atchCommand finished: O") in *.
    cbn [app].
    rewrite (replace_first 66%N (mid ++ [75%N]) [] p) by (reflexivity || exact Hp).
    cbn [app]. rewrite IH. reflexivity.
Qed.

Lemma strip_by_ends (p : codepoint -> bool) (a m b : pystr) :
  strip_by p (lstrip_by p a ++ m ++ rstrip_by p b) = strip_by p (a ++ m ++ b).
Proof.
  unfold strip_by, lstrip_by at 1. rewrite drop_while_absorb.
  fold (lstrip_by p (a ++ m ++ rstrip_by p b)).
  rewrite strip_by_comm, !app_assoc, rstrip_by_absorb, <- strip_by_comm.
  reflexivity.
Qed.

Lemma clean_up_joined (pieces : list pystr) :
  Forall (fun piece => contains finished_ok piece = false) pieces ->
  clean_up (join finished_ok pieces) = strip (concat pieces).
Proof.
  intros Hfree.
  destruct pieces as [|first rest]; [reflexivity|].
  destruct (exists_last (l := first :: rest) ltac:(discriminate))
    as (front & last & E).
  rewrite E in *. clear E first rest.
  apply Forall_app in Hfree as [Hfront Hlast].
  apply Forall_cons in Hlast as [Hlast _].
  rewrite join_snoc, concat_app. cbn [concat]. rewrite app_nil_r.
  unfold clean_up, strip.
  destruct front as [|p front].
  - cbn [List.map concat app]. rewrite replace_absent.
    + apply strip_by_idem.
    + unfold strip_by. apply contains_rstrip, contains_drop_while, Hlast.
  - apply Forall_cons in Hfront as [Hp Hfront].
    cbn [List.map concat]. rewrite <- !app_assoc.
    assert (Hstrip : strip_by is_space (p ++ finished_ok ++ glued front ++ last)
                     = lstrip_by is_space p ++ finished_ok
                       ++ glued front ++ rstrip_by is_space last).
    { rewrite <- rstrip_glued. rewrite finished_ok_shape.
      set (mid := lit "atchCommand finished: O").
      apply (strip_by_around is_space p _ mid 66%N 75%N); reflexivity. }
    rewrite Hstrip.
    pose proof (replace_glued (lstrip_by is_space p :: front)
                  (rstrip_by is_space last)) as Hr.
    cbn [List.map concat] in Hr. rewrite <- !app_assoc in Hr.
    rewrite Hr.
    + cbn [concat]. rewrite <- ?app_assoc. apply strip_by_ends.
    + apply Forall_cons. split; [apply contains_drop_while, Hp|exact Hfront].
    + apply contains_rstrip, Hlast.
Qed.

(** Every text is put together in this way: it is cut at the first literal,
    and what follows is cut again. *)
Lemma first_occurrence (s : pystr) :
  contains finished_ok s = true ->
  exists a y, s = a ++ finished_ok ++ y /\ contains finished_ok a = false.
Proof.
  induction s as [|c s IH]; [discriminate|].
  destruct (starts_with finished_ok (c :: s)) eqn:Hhead.
  - intros _. exists [], (drop (length finished_ok) (c :: s)).
    split; [|reflexivity]. cbn [app].
    revert Hhead. generalize (c :: s). generalize finished_ok.
    induction l as [|x l IHl]; intros [|y t] H; try discriminate H;
      [reflexivity|reflexivity|].
    cbn [starts_with] in H. apply andb_true_iff in H as [Hxy H].
    apply N.eqb_eq in Hxy as ->. cbn [length drop app]. f_equal.
    apply IHl, H.
  - intros H. cbn [contains] in H. rewrite Hhead in H. simpl in H.
    destruct (IH H) as (a & y & -> & Ha). exists (c :: a), y.
    split; [reflexivity|]. cbn [contains].
    rewrite Ha, orb_false_r.
    destruct (starts_with finished_ok (c :: a)) eqn:E; [|reflexivity].
    apply (starts_with_app _ _ (finished_ok ++ y)) in E.
    cbn [app] in E. congruence.
Qed.

Lemma splits_at_literal (s : pystr) :
  exists pieces,
    Forall (fun piece => contains finished_ok piece = false) pieces /\
    s = join finished_ok pieces.
Proof.
  assert (H : forall n (s : pystr), (length s <= n)%nat ->
            exists piece pieces,
              Forall (fun piece => contains finished_ok piece = false)
                     (piece :: pieces) /\
              s = join finished_ok (piece :: pieces)).
  { clear s. induction n as [|n IH]; intros s Hn.
    - destruct s; [|simpl in Hn; lia]. exists [], [].
      split; [repeat constructor|reflexivity].
    - destruct (contains finished_ok s) eqn:Hs.
      + destruct (first_occurrence s Hs) as (a & y & -> & Ha).
        destruct (IH y) as (q & qs & Hfree & ->).
        { rewrite !length_app in Hn. change (length finished_ok) with 25%nat in Hn.
          lia. }
        exists a, (q :: qs). split; [constructor; assumption|reflexivity].
      + exists s, []. split; [repeat constructor; exact Hs|reflexivity]. }
  destruct (H (length s) s (Nat.le_refl _)) as (piece & pieces & Hfree & Hs).
  eauto.
Qed.

(** C6, as the code has it.  The clean-up deletes the literal
    [BatchCommand finished: OK] wherever it stands in the accumulated text,
    not only at its end, and trims white space at both ends.  Every response
    is a list of texts without the literal, with the literal between one and
    the next; however it is put together in this way, the result is these
    texts one after the other, trimmed.  For a response without the literal
    (one piece) that is the response, trimmed. *)
Theorem clean_up_deletes_sentinel (response : pystr) :
  (exists pieces,
      Forall (fun piece => contains finished_ok piece = false) pieces /\
      response = join finished_ok pieces) /\
  (forall pieces,
      Forall (fun piece => contains finished_ok piece = false) pieces ->
      response = join finished_ok pieces ->
      clean_up response = strip (concat pieces)).
Proof.
  split; [apply splits_at_literal|].
  intros pieces Hfree ->. apply clean_up_joined, Hfree.
Qed.

Lemma clean_up_deletes_sentinel_witness :
  clean_up (ln "BatchCommand finished: OK" ++ ln "Tracks: 2"
            ++ ln "BatchCommand finished: OK")
  = lit "Tracks: 2".
Proof.
  exact (proj2 (clean_up_deletes_sentinel
                  (ln "BatchCommand finished: OK" ++ ln "Tracks: 2"
                   ++ ln "BatchCommand finished: OK"))
           [ []; newline ++ ln "Tracks: 2"; newline ]
           ltac:(repeat constructor) eq_refl).
Defined.

(** C6 as stated fails: a status line that does not end the text is deleted
    too.  Here the status line of an earlier command heads the response; the
    specification keeps it, the code returns the text without it. *)
Lemma leading_sentinel_is_deleted :
  let reads := [ {| line := ln "BatchCommand finished: OK"; at_time := 1 |};
                 {| line := ln "Tracks: 2"; at_time := 2 |};
                 {| line := ln "BatchCommand finished: OK"; at_time := 3 |};
                 {| line := newline; at_time := 4 |} ] in
  fst (receive_response 0 (listening 10 reads)) = Returned (lit "Tracks: 2") /\
  without_trailing_sentinel (content_of reads)
  = lit "BatchCommand finished: OK" ++ newline ++ lit "Tracks: 2" /\
  clean_up (content_of reads) <> without_trailing_sentinel (content_of reads).
Proof.
  intros reads. repeat split. discriminate.
Qed.

End CleanUp.

(** ** The facade: what a method sends *)

Section Facade.

Variable env : environment.

Lemma do_command_sent (command : pystr) (w : world) :
  sent (snd (Commands.do_command env command w)) = sent w ++ [command].
Proof.
  unfold Commands.do_command. destruct (respond env (sent w) command); reflexivity.
Qed.

Lemma one_command_inj (c d : pystr) : [c] = [d] -> c = d.
Proof. congruence. Qed.

Lemma issued_do_command (command : pystr) (w : world) :
  issued (Commands.do_command env command) w = [command].
Proof.
  unfold issued. rewrite do_command_sent, drop_app_length. reflexivity.
Qed.

(** The methods that convert their flags send them as [0] or [1]; for
    [set_track_audio]: *)
Lemma set_track_audio_flags (mute solo : bool) (w : world) :
  issued (Commands.set_track_audio env (Some mute) (Some solo) None None) w
  = [lit "SetTrackAudio: Mute=" ++ (if mute then lit "1" else lit "0")
     ++ lit " Solo=" ++ (if solo then lit "1" else lit "0")].
Proof.
  unfold Commands.set_track_audio. rewrite issued_do_command.
  destruct mute, solo; reflexivity.
Qed.

Lemma set_preference_flag (name value : pystr) (reload : bool) (w : world) :
  issued (Commands.set_preference env name value reload) w
  = [lit "SetPreference: Name='" ++ name ++ lit "' Value='" ++ value
     ++ lit "' Reload=" ++ (if reload then lit "1" else lit "0")].
Proof.
  unfold Commands.set_preference. rewrite issued_do_command.
  destruct reload; reflexivity.
Qed.

(** C7 fails for [open_project]: the flag goes out as Python prints a bool,
    [True] or [False], never as [0] or [1].  ([save_project], [normalize] and
    [compressor] format their flags the same way.) *)
Theorem open_project_sends_True_False (filename : pystr) (add_to_history : bool)
    (w : world) :
  issued (Commands.open_project env filename add_to_history) w
  = [lit "OpenProject2: Filename='" ++ filename ++ lit "' AddToHistory="
     ++ (if add_to_history then lit "True" else lit "False")] /\
  issued (Commands.open_project env filename add_to_history) w
  <> [open_project_with_digit filename add_to_history].
Proof.
  unfold Commands.open_project. rewrite issued_do_command. split.
  - destruct add_to_history; reflexivity.
  - unfold open_project_with_digit. intros H. apply one_command_inj in H.
    apply app_inv_head in H. apply app_inv_head in H.
    apply app_inv_head in H.
    destruct add_to_history; discriminate H.
Qed.

Lemma save_project_sends_True_False (filename : pystr)
    (add_to_history compress : bool) (w : world) :
  issued (Commands.save_project env filename add_to_history compress) w
  = [lit "SaveProject2: Filename='" ++ filename ++ lit "' AddToHistory="
     ++ (if add_to_history then lit "True" else lit "False")
     ++ lit " Compress=" ++ (if compress then lit "True" else lit "False")].
Proof.
  unfold Commands.save_project. rewrite issued_do_command.
  destruct add_to_history, compress; reflexivity.
Qed.

(** ** C9: [get_info] *)

Lemma contains_after_GetInfo (info_type : pystr) :
  contains (lit "Format=") (lit "GetInfo: Type=" ++ info_type)
  = contains (lit "Format=") info_type.
Proof. reflexivity. Qed.

(** C9, as the code has it.  [get_info] does the same whatever
    [format_type] is: the command it sends is [GetInfo: Type=] followed by
    [info_type], with nothing added.  The text holds a [Format=] parameter
    exactly when [info_type] itself does. *)
Theorem get_info_ignores_format (info_type format1 format2 : pystr) (w : world) :
  Commands.get_info env info_type format1 w
  = Commands.get_info env info_type format2 w /\
  issued (Commands.get_info env info_type format1) w
  = [lit "GetInfo: Type=" ++ info_type] /\
  contains (lit "Format=") (lit "GetInfo: Type=" ++ info_type)
  = contains (lit "Format=") info_type.
Proof.
  split; [reflexivity|]. split.
  - unfold Commands.get_info. apply issued_do_command.
  - apply contains_after_GetInfo.
Qed.

End Facade.

(** C7 at a failing input: opening [song.aup3] with the history flag set. *)
Example open_project_example :
  issued (Commands.open_project silent_host (lit "song.aup3") true) initial_world
  = [lit "OpenProject2: Filename='song.aup3' AddToHistory=True"].
Proof. reflexivity. Qed.

(** C9 as stated fails: an [info_type] that carries a parameter of its own
    puts a [Format] parameter into the command. *)
Lemma get_info_format_through_info_type :
  issued (Commands.get_info silent_host (lit "Tracks Format=LISP") (lit "JSON"))
         initial_world
  = [lit "GetInfo: Type=Tracks Format=LISP"] /\
  contains (lit "Format=") (lit "GetInfo: Type=Tracks Format=LISP") = true.
Proof. split; reflexivity. Qed.

(** ** C8: [sanitize_filename] *)

Section Sanitize.
Import ExportClips.

Example sanitize_filename_invalid_characters :
  sanitize_filename (lit "My:Clip*") = lit "My_Clip_".
Proof. reflexivity. Qed.

Example sanitize_filename_trims :
  sanitize_filename (lit " .take 1. ") = lit "take 1".
Proof. reflexivity. Qed.

Example sanitize_filename_empty : sanitize_filename (lit " .. ") = lit "unnamed".
Proof. reflexivity. Qed.

Example output_filename_with_prefix :
  output_filename (lit "take_") (sanitize_filename (lit "My:Clip*")) (lit "flac") None
  = lit "take_My_Clip_.flac".
Proof. reflexivity. Qed.

(** C8 fails on the code: a name cut off at 200 characters keeps whatever
    stands at the cut, here a space, and a second pass strips it. *)
Theorem sanitize_filename_not_idempotent :
  sanitize_filename long_name = repeat 97%N 199 ++ lit " " /\
  sanitize_filename (sanitize_filename long_name) = repeat 97%N 199 /\
  sanitize_filename (sanitize_filename long_name) <> sanitize_filename long_name.
Proof.
  split; [vm_compute; reflexivity|].
  split; [vm_compute; reflexivity|].
  vm_compute. discriminate.
Qed.

Lemma replaced_idem (c : codepoint) : replaced (replaced c) = replaced c.
Proof.
  unfold replaced. destruct (mem c invalid_chars) eqn:E; [reflexivity|].
  rewrite E. reflexivity.
Qed.

Lemma Forall_drop_while (P : codepoint -> Prop) (p : codepoint -> bool) (s : pystr) :
  Forall P s -> Forall P (drop_while p s).
Proof.
  induction 1 as [|c s Hc Hs IH]; simpl; [constructor|].
  destruct (p c); [exact IH|]. constructor; assumption.
Qed.

Lemma Forall_strip_by (P : codepoint -> Prop) (p : codepoint -> bool) (s : pystr) :
  Forall P s -> Forall P (strip_by p s).
Proof.
  intros H. unfold strip_by, rstrip_by, lstrip_by.
  apply Forall_rev, Forall_drop_while, Forall_rev, Forall_drop_while, H.
Qed.

Lemma map_fixed (s : pystr) :
  Forall (fun c => replaced c = c) s -> List.map replaced s = s.
Proof. induction 1 as [|c s Hc Hs IH]; simpl; congruence. Qed.

Lemma sanitize_filename_uncut (name : pystr) :
  let t := strip_chars (lit ". ") (List.map replaced name) in
  (length t <= 200)%nat ->
  sanitize_filename name = if truthy t then t else lit "unnamed".
Proof.
  intros t Hlen. unfold sanitize_filename. fold replaced. fold t.
  apply Nat.ltb_ge in Hlen. rewrite Hlen. destruct (truthy t); reflexivity.
Qed.

(** Where the length limit does not cut, a second pass changes nothing. *)
Lemma sanitize_filename_idempotent_uncut (name : pystr) :
  (length (strip_chars (lit ". ") (List.map replaced name)) <= 200)%nat ->
  sanitize_filename (sanitize_filename name) = sanitize_filename name.
Proof.
  intros Hlen. rewrite (sanitize_filename_uncut name Hlen).
  set (t := strip_chars (lit ". ") (List.map replaced name)) in *.
  destruct (truthy t) eqn:Htr; [|reflexivity].
  assert (Hfix : strip_chars (lit ". ") (List.map replaced t) = t).
  { assert (List.map replaced t = t) as ->.
    { apply map_fixed. subst t.
      apply Forall_strip_by, List.Forall_forall. intros x Hx.
      apply in_map_iff in Hx as (y & <- & _). apply replaced_idem. }
    subst t. apply strip_by_idem. }
  rewrite sanitize_filename_uncut; rewrite Hfix; [|exact Hlen].
  rewrite Htr. reflexivity.
Qed.

End Sanitize.

(** ** C5: the collision loop *)

Section Rendering.

Lemma lit_inj (s t : string) : lit s = lit t -> s = t.
Proof.
  unfold lit. intros H.
  rewrite <- (string_of_list_ascii_of_string s), <- (string_of_list_ascii_of_string t).
  f_equal. revert H.
  generalize (list_ascii_of_string s) (list_ascii_of_string t).
  induction l as [|a l IH]; intros [|b l']; simpl; try discriminate; [reflexivity|].
  intros [= Hab Hl]. f_equal; [|apply IH; exact Hl].
  rewrite <- (ascii_N_embedding a), <- (ascii_N_embedding b), Hab. reflexivity.
Qed.

Lemma of_int_inj (a b : Z) : of_int a = of_int b -> a = b.
Proof.
  unfold of_int. intros H. apply lit_inj in H.
  assert (Some (Z.to_int a) = Some (Z.to_int b)) as [= E]
    by (rewrite <- !NilEmpty.isi, H; reflexivity).
  rewrite <- (DecimalZ.of_to a), <- (DecimalZ.of_to b), E. reflexivity.
Qed.

End Rendering.

Section OutputPath.
Import ExportClips.

Variables output_dir prefix safe_name file_extension : pystr.

Local Abbreviation name := (output_filename prefix safe_name file_extension).

Lemma output_filename_eq (counter : option Z) :
  name counter
  = (prefix ++ safe_name)
    ++ match counter with
       | None => []
       | Some c => lit "_" ++ of_int c
       end ++ lit "." ++ file_extension.
Proof.
  unfold output_filename. destruct prefix; simpl; [reflexivity|].
  rewrite <- app_assoc. reflexivity.
Qed.

Lemma output_filename_inj (c d : option Z) : name c = name d -> c = d.
Proof.
  rewrite !output_filename_eq. intros H. apply app_inv_head in H.
  destruct c as [c|], d as [d|]; try discriminate H; [|reflexivity].
  f_equal. injection H as H. apply app_inv_tail in H. apply of_int_inj, H.
Qed.

Lemma output_filename_absolute (c d : option Z) :
  starts_with (lit "/") (name c) = starts_with (lit "/") (name d).
Proof.
  rewrite !output_filename_eq.
  destruct (prefix ++ safe_name) as [|x X]; [|reflexivity].
  destruct c, d; reflexivity.
Qed.

Lemma path_join_inj (c d : option Z) :
  path_join output_dir (name c) = path_join output_dir (name d) -> c = d.
Proof.
  unfold path_join. rewrite (output_filename_absolute c d).
  destruct (starts_with (lit "/") (name d)).
  - apply output_filename_inj.
  - destruct (negb (truthy output_dir) || ends_with (lit "/") output_dir);
      intros H; apply app_inv_head in H; [|apply app_inv_head in H];
      apply output_filename_inj, H.
Qed.

Local Abbreviation path := (candidate output_dir prefix safe_name file_extension).

Lemma candidate_inj (j k : nat) : path j = path k -> j = k.
Proof.
  unfold candidate. intros H. apply path_join_inj in H.
  destruct j, k; try discriminate H; [reflexivity|].
  injection H as H. lia.
Qed.

Lemma candidate_succ (j : nat) :
  path (S j)
  = path_join output_dir
      (output_filename prefix safe_name file_extension (Some (Z.of_nat j + 1))).
Proof.
  unfold candidate. do 3 f_equal. lia.
Qed.

Variable exists_ : pystr -> bool.

Local Abbreviation loop fuel j tested :=
  (free_path fuel exists_ output_dir prefix safe_name file_extension
             (Z.of_nat j + 1) (path j) tested).

Lemma free_path_step (fuel j : nat) (tested : list pystr) :
  loop (S fuel) j tested
  = if exists_ (path j) then loop fuel (S j) (tested ++ [path j])
    else Some (path j, tested ++ [path j]).
Proof.
  cbn [free_path]. destruct (exists_ (path j)); [|reflexivity].
  rewrite <- candidate_succ. do 2 f_equal. lia.
Qed.

(** The loop walks up the candidates to the first free one. *)
Lemma free_path_finds (n fuel j : nat) (tested : list pystr) :
  (j <= n)%nat -> (n - j < fuel)%nat ->
  (forall k, (j <= k < n)%nat -> exists_ (path k) = true) ->
  exists_ (path n) = false ->
  loop fuel j tested = Some (path n, tested ++ List.map path (seq j (S n - j))).
Proof.
  revert j tested. induction fuel as [|fuel IH]; intros j tested Hj Hfuel Hbusy Hfree;
    [lia|].
  rewrite free_path_step.
  destruct (Nat.eq_dec j n) as [->|Hne].
  - rewrite Hfree. replace (S n - n)%nat with 1%nat by lia. reflexivity.
  - rewrite Hbusy by lia.
    rewrite IH by (try lia; try assumption; intros; apply Hbusy; lia).
    replace (S n - j)%nat with (S (S n - S j)) by lia.
    simpl. rewrite <- app_assoc. reflexivity.
Qed.

(** What the loop returns is one of the candidates. *)
Lemma free_path_candidate (fuel j : nat) (tested : list pystr) (p : pystr)
    (ts : list pystr) :
  loop fuel j tested = Some (p, ts) -> exists n, p = path n.
Proof.
  revert j tested. induction fuel as [|fuel IH]; intros j tested H;
    [discriminate H|].
  rewrite free_path_step in H. destruct (exists_ (path j)).
  - exact (IH _ _ H).
  - injection H as <- _. eauto.
Qed.

(** When the loop is out of fuel, every candidate it went through exists. *)
Lemma free_path_out_of_fuel (fuel j : nat) (tested : list pystr) :
  loop fuel j tested = None ->
  forall k, (j <= k < j + fuel)%nat -> exists_ (path k) = true.
Proof.
  revert j tested. induction fuel as [|fuel IH]; intros j tested H k Hk; [lia|].
  rewrite free_path_step in H.
  destruct (exists_ (path j)) eqn:E; [|discriminate H].
  destruct (Nat.eq_dec k j) as [->|Hne]; [exact E|].
  apply (IH (S j) _ H). lia.
Qed.

End OutputPath.

Section ChooseOutputPath.
Import ExportClips.

Variable env : environment.
Variable w : world.
Variables output_dir prefix file_extension safe_name : pystr.

Local Abbreviation path := (candidate output_dir prefix safe_name file_extension).

Lemma path_exists_true (p : pystr) :
  path_exists env w p = true <-> p ∈ files env (sent w).
Proof. unfold path_exists. apply bool_decide_eq_true. Qed.

(** As many candidates as exist one after the other, so many files there
    are at least. *)
Lemma candidates_bounded (n : nat) :
  (forall k, (k < n)%nat -> path k ∈ files env (sent w)) ->
  (n <= size (files env (sent w)))%nat.
Proof.
  intros Hin.
  assert (Hnodup : NoDup (path <$> seq 0 n)).
  { apply NoDup_fmap_2_strong; [|apply NoDup_seq].
    intros j k _ _. apply candidate_inj. }
  assert (Hlen : length (path <$> seq 0 n) = n)
    by (rewrite length_fmap; apply length_seq).
  rewrite <- Hlen at 1.
  rewrite <- (size_list_to_set (C := gset (list N))) by exact Hnodup.
  apply subseteq_size. intros p Hp.
  apply elem_of_list_to_set, list_elem_of_fmap in Hp as (k & -> & Hk).
  apply Hin. apply elem_of_seq in Hk. lia.
Qed.

(** The path chosen is one of the candidates, and choosing it changes
    nothing. *)
Lemma choose_output_path_candidate :
  exists n,
    choose_output_path env output_dir prefix file_extension safe_name w
    = (Val (path n), w).
Proof.
  unfold choose_output_path.
  change (path_join output_dir
            (output_filename prefix safe_name file_extension None)) with (path 0).
  destruct (free_path _ _ _ _ _ _ _ _ _) as [[p ts]|] eqn:Hloop; [|eauto].
  destruct (free_path_candidate output_dir prefix safe_name file_extension
              (path_exists env w) _ 0 [] p ts Hloop) as [n ->].
  eauto.
Qed.

(** The collision loop always ends within the fuel [choose_output_path]
    gives it. *)
Lemma free_path_total :
  free_path (S (size (files env (sent w)))) (path_exists env w)
            output_dir prefix safe_name file_extension 1 (path 0) []
  <> None.
Proof.
  intros Hnone.
  pose proof (free_path_out_of_fuel output_dir prefix safe_name file_extension
                (path_exists env w) (S (size (files env (sent w)))) 0 [] Hnone) as Hall.
  assert (S (size (files env (sent w))) <= size (files env (sent w)))%nat; [|lia].
  apply candidates_bounded. intros k Hk.
  apply path_exists_true, Hall. lia.
Qed.

(** C5.  If the paths [name], [name_1], ..., [name_(n-1)] exist and [name_n]
    does not, the path chosen for the clip is [name_n] (for [n = 0]: the
    name without a suffix), and the loop tests [name], [name_1], ...,
    [name_n] for existence, in this order, each once. *)
Theorem collision_gives_next_suffix (n : nat) :
  (forall k, (k < n)%nat -> path k ∈ files env (sent w)) ->
  path n ∉ files env (sent w) ->
  choose_output_path env output_dir prefix file_extension safe_name w
  = (Val (path n), w) /\
  forall fuel, (n < fuel)%nat ->
    free_path fuel (path_exists env w) output_dir prefix safe_name file_extension
              1 (path 0) []
    = Some (path n, List.map path (seq 0 (S n))).
Proof.
  intros Hbusy Hfree.
  assert (Hloop : forall fuel, (n < fuel)%nat ->
    free_path fuel (path_exists env w) output_dir prefix safe_name file_extension
              1 (path 0) []
    = Some (path n, List.map path (seq 0 (S n)))).
  { intros fuel Hfuel.
    pose proof (free_path_finds output_dir prefix safe_name file_extension
                  (path_exists env w) n fuel 0 []) as H.
    apply H.
    - lia.
    - lia.
    - intros k Hk. apply path_exists_true, Hbusy. lia.
    - apply not_true_is_false. intros E.
      apply path_exists_true in E. contradiction. }
  split; [|exact Hloop].
  unfold choose_output_path.
  change (path_join output_dir
            (output_filename prefix safe_name file_extension None)) with (path 0).
  rewrite Hloop; [reflexivity|].
  pose proof (candidates_bounded n Hbusy). lia.
Qed.

End ChooseOutputPath.

Lemma collision_gives_next_suffix_witness :
  ExportClips.choose_output_path two_takes (lit "/out") [] (lit "wav") (lit "take")
                                 initial_world
  = (Val (lit "/out/take_2.wav"), initial_world).
Proof.
  refine (proj1 (collision_gives_next_suffix two_takes initial_world
                   (lit "/out") [] (lit "wav") (lit "take") 2 _ _)).
  - intros [|[|k]] Hk; [vm_compute; set_solver | vm_compute; set_solver | lia].
  - vm_compute. set_solver.
Defined.

(** ** Running the workflow monad *)

Section MonadFacts.

Context {A B : Type}.

Lemma bind_val (m : M A) (k : A -> M B) (w w' : world) (b : B) :
  bind m k w = (Val b, w') ->
  exists a w1, m w = (Val a, w1) /\ k a w1 = (Val b, w').
Proof.
  unfold bind. destruct (m w) as [[a|e] w1]; [eauto|discriminate].
Qed.

Lemma bind_exc (m : M A) (k : A -> M B) (w w' : world) (e : exn) :
  bind m k w = (Exc e, w') ->
  m w = (Exc e, w') \/ exists a w1, m w = (Val a, w1) /\ k a w1 = (Exc e, w').
Proof.
  unfold bind. destruct (m w) as [[a|e'] w1]; [eauto|intros [= -> ->]; eauto].
Qed.

Lemma bind_run_val (m : M A) (k : A -> M B) (w w1 : world) (a : A) :
  m w = (Val a, w1) -> bind m k w = k a w1.
Proof. unfold bind. intros ->. reflexivity. Qed.

Lemma bind_run_exc (m : M A) (k : A -> M B) (w w1 : world) (e : exn) :
  m w = (Exc e, w1) -> bind m k w = (Exc e, w1).
Proof. unfold bind. intros ->. reflexivity. Qed.

End MonadFacts.

(** ** Computations that stop at the first command that fails *)

Section FailFast.

Variable env : environment.

Lemma all_respond_nil (history : list pystr) : all_respond env history [].
Proof. intros k c H. discriminate H. Qed.

Lemma all_respond_one (history : list pystr) (c : pystr) (text : pystr) :
  respond env history c = Responds text -> all_respond env history [c].
Proof.
  intros H [|k] c' Hk; [|destruct k; discriminate Hk].
  injection Hk as <-. simpl. rewrite app_nil_r. eauto.
Qed.

Lemma all_respond_app (history c1 c2 : list pystr) :
  all_respond env history c1 -> all_respond env (history ++ c1) c2 ->
  all_respond env history (c1 ++ c2).
Proof.
  intros H1 H2 k c Hk. destruct (decide (k < length c1)%nat) as [Hlt|Hge].
  - rewrite lookup_app_l in Hk by exact Hlt.
    rewrite take_app_le by lia. apply H1, Hk.
  - rewrite lookup_app_r in Hk by lia.
    rewrite take_app_ge by lia. rewrite app_assoc. apply H2, Hk.
Qed.

Lemma all_respond_app_l (history c1 c2 : list pystr) :
  all_respond env history (c1 ++ c2) -> all_respond env history c1.
Proof.
  intros H k c Hk. pose proof (lookup_lt_Some _ _ _ Hk) as Hlt.
  destruct (H k c) as [text Ht].
  - rewrite lookup_app_l by exact Hlt. exact Hk.
  - rewrite take_app_le in Ht by lia. eauto.
Qed.

Lemma fail_fast_ret {A : Type} (a : A) : fail_fast env (ret a).
Proof.
  intros w. exists []. simpl. rewrite app_nil_r. split; [reflexivity|].
  apply all_respond_nil.
Qed.

Lemma fail_fast_print (msg : message) : fail_fast env (print msg).
Proof.
  intros w. exists []. simpl. rewrite app_nil_r. split; [reflexivity|].
  apply all_respond_nil.
Qed.

Lemma fail_fast_do_command (command : pystr) :
  fail_fast env (Commands.do_command env command).
Proof.
  intros w. exists [command]. unfold Commands.do_command.
  destruct (respond env (sent w) command) as [text|msg] eqn:E; simpl.
  - split; [reflexivity|]. exact (all_respond_one _ _ _ E).
  - split; [reflexivity|]. exists [], command, msg.
    rewrite app_nil_r. repeat split; [apply all_respond_nil|exact E].
Qed.

Lemma fail_fast_bind {A B : Type} (m : M A) (k : A -> M B) :
  fail_fast env m -> (forall a, fail_fast env (k a)) -> fail_fast env (bind m k).
Proof.
  intros Hm Hk w. specialize (Hm w). unfold bind.
  destruct (m w) as [[a|e] w1]; simpl in *; [|exact Hm].
  destruct Hm as (new1 & Hs1 & Hok1). specialize (Hk a w1).
  destruct (k a w1) as [r w2]; simpl in *.
  destruct Hk as (new2 & Hs2 & Hr). exists (new1 ++ new2).
  rewrite Hs2, Hs1, <- app_assoc. split; [reflexivity|].
  rewrite Hs1 in Hr. destruct r as [b|e].
  - apply all_respond_app; assumption.
  - destruct Hr as (pre & c & msg & -> & Hpre & Hc & ->).
    exists (new1 ++ pre), c, msg. rewrite <- !app_assoc in *.
    repeat split; [apply all_respond_app; assumption|exact Hc].
Qed.

Lemma fail_fast_for_each {A : Type} (xs : list A) (body : A -> M unit) :
  (forall x, fail_fast env (body x)) -> fail_fast env (for_each xs body).
Proof.
  intros Hbody. induction xs as [|x xs IH]; simpl.
  - apply fail_fast_ret.
  - apply fail_fast_bind; [apply Hbody|intros _; exact IH].
Qed.

End FailFast.

Create HintDb fail_fast.
#[export] Hint Resolve fail_fast_ret fail_fast_print fail_fast_do_command
  fail_fast_for_each : fail_fast.
#[export] Hint Extern 2 (fail_fast _ (bind _ _)) =>
  (apply fail_fast_bind; [|intros ?]) : fail_fast.

(** ** The track workflow stops at the first failure *)

Section TrackWorkflow.
Import ExportTracks.

Variable env : environment.

Ltac facade := unfold Commands.select_tracks, Commands.set_track_audio,
  Commands.select_all, Commands.select_none, Commands.export_audio,
  Commands.get_info, Commands.select_time, Commands.copy, Commands.paste,
  Commands.delete, Commands.new_stereo_track; auto with fail_fast.

Lemma fail_fast_mute_all (n : nat) : fail_fast env (mute_all env n).
Proof.
  unfold mute_all. apply fail_fast_for_each. intros j.
  repeat (apply fail_fast_bind; [|intros ?]); facade.
Qed.

Lemma fail_fast_unmute_all (n : nat) : fail_fast env (unmute_all env n).
Proof.
  unfold unmute_all. apply fail_fast_for_each. intros j.
  repeat (apply fail_fast_bind; [|intros ?]); facade.
Qed.

Lemma fail_fast_track_loop (output_dir base_filename file_extension : pystr)
    (num_tracks i : nat) (tracks : list jobject) :
  fail_fast env (track_loop env output_dir base_filename file_extension
                            num_tracks i tracks).
Proof.
  revert i. induction tracks as [|track rest IH]; intros i; simpl.
  - apply fail_fast_ret.
  - repeat (apply fail_fast_bind; [|intros ?]);
      try apply fail_fast_mute_all; try apply IH; facade.
Qed.

Lemma fail_fast_export_tracks_body (output_dir base_filename file_extension : pystr) :
  fail_fast env (export_tracks_body env output_dir base_filename file_extension).
Proof.
  unfold export_tracks_body. apply fail_fast_bind; [facade|]. intros tracks_info.
  destruct (json_loads env tracks_info) as [tracks_data|]; [|apply fail_fast_print].
  destruct (length tracks_data =? 0)%nat; [apply fail_fast_print|].
  repeat (apply fail_fast_bind; [|intros ?]);
    try apply fail_fast_track_loop; try apply fail_fast_unmute_all; facade.
Qed.

End TrackWorkflow.

Section WithPipe.

Variable env : environment.

Lemma with_pipe_connected (body : M unit) (w : world) :
  connect_error env = None ->
  with_pipe env body w
  = (fst (body (connected_world w true)),
     connected_world (snd (body (connected_world w true))) false).
Proof.
  intros Hc. unfold with_pipe. rewrite Hc.
  unfold bind, try_except, set_connected, raise, connected_world. simpl.
  destruct (body _) as [[[]|e] w1]; reflexivity.
Qed.

Lemma with_pipe_refused (body : M unit) (w : world) (e : pystr) :
  connect_error env = Some e ->
  with_pipe env body w
  = (Exc (AudacityError (lit "Failed to connect to Audacity: " ++ e)), w).
Proof. intros Hc. unfold with_pipe. rewrite Hc. reflexivity. Qed.

Lemma fail_fast_with_pipe (body : M unit) (w : world) :
  connect_error env = None -> fail_fast env body ->
  fail_fast_run env w (fst (with_pipe env body w)) (snd (with_pipe env body w)).
Proof.
  intros Hc Hbody. rewrite with_pipe_connected by exact Hc. simpl.
  exact (Hbody (connected_world w true)).
Qed.

End WithPipe.

(** ** C3: a failure in the track loop *)

Section TrackFailure.
Import ExportTracks.

Variable env : environment.
Variables output_dir base_filename file_extension : pystr.

Lemma export_tracks_fail_fast :
  let run := with_pipe env (export_tracks_body env output_dir base_filename
                                               file_extension) initial_world in
  connect_error env = None ->
  match fst run with
  | Val _ => all_respond env [] (sent (snd run))
  | Exc e =>
      exists pre c msg,
        sent (snd run) = pre ++ [c] /\ all_respond env [] pre /\
        respond env pre c = Fails msg /\ e = AudacityError msg
  end.
Proof.
  intros run Hc.
  destruct (fail_fast_with_pipe env _ initial_world Hc
              (fail_fast_export_tracks_body env output_dir base_filename
                                            file_extension))
    as (new & Hsent & Hr).
  fold run in Hsent, Hr. simpl in Hsent. rewrite Hsent.
  destruct (fst run); exact Hr.
Qed.

(** C3, as the code has it.  In the track workflow nothing catches a failing
    command: a command that fails is the last command the run issues, the
    error is reported and the script exits with status 1.  The tracks after
    the one at which a command failed are not attempted. *)
Theorem track_failure_ends_run (status : exit_status) (w' : world)
    (k : nat) (c msg : pystr) :
  export_tracks_individually env output_dir base_filename file_extension
                             initial_world = (status, w') ->
  sent w' !! k = Some c ->
  respond env (take k (sent w')) c = Fails msg ->
  status = SysExit 1 /\ length (sent w') = S k /\
  last (printed w') = Some (AudacityErrorReport msg).
Proof.
  unfold export_tracks_individually. intros Hrun Hk Hfail.
  destruct (connect_error env) as [e|] eqn:Hc.
  { rewrite (with_pipe_refused env _ _ e Hc) in Hrun.
    injection Hrun as <- <-. discriminate Hk. }
  pose proof (export_tracks_fail_fast Hc) as Hff. cbv zeta in Hff.
  destruct (with_pipe env _ initial_world) as [[[]|e] w1]; simpl in Hff.
  - injection Hrun as <- <-.
    destruct (Hff k c Hk) as [text Ht]. simpl in Ht. congruence.
  - destruct Hff as (pre & c' & msg' & Hsent & Hpre & Hc' & ->).
    injection Hrun as <- <-. simpl in *.
    rewrite Hsent in *.
    destruct (decide (k < length pre)%nat) as [Hlt|Hge].
    + rewrite lookup_app_l in Hk by exact Hlt.
      rewrite take_app_le in Hfail by lia.
      destruct (Hpre k c Hk) as [text Ht]. simpl in Ht. congruence.
    + pose proof (lookup_lt_Some _ _ _ Hk) as Hlt.
      rewrite length_app in Hlt. simpl in Hlt.
      assert (k = length pre) as -> by lia.
      rewrite list_lookup_middle in Hk by reflexivity. injection Hk as <-.
      rewrite take_app_length in Hfail.
      assert (msg' = msg) as -> by congruence.
      rewrite length_app, last_snoc. simpl. repeat split. lia.
Qed.

End TrackFailure.

Lemma track_failure_ends_run_witness :
  let run := ExportTracks.export_tracks_individually
               failing_export (lit "/out") (lit "track") (lit "wav") initial_world in
  fst run = SysExit 1 /\ length (sent (snd run)) = 9%nat /\
  last (printed (snd run))
  = Some (AudacityErrorReport
            (lit "Failed to receive response: Timeout waiting for response")).
Proof.
  intros run.
  refine (track_failure_ends_run failing_export (lit "/out") (lit "track") (lit "wav")
            (fst run) (snd run) 8
            (export_track_command (lit "/out") (lit "track") (lit "wav") 1)
            (lit "Failed to receive response: Timeout waiting for response")
            _ _ _).
  - exact (surjective_pairing run).
  - vm_compute. reflexivity.
  - vm_compute. reflexivity.
Defined.

(** C3 as stated fails: with two tracks and a host that fails the first
    export, the run ends with status 1 right there; no command for the second
    track is ever issued. *)
Lemma second_track_is_not_attempted :
  let run := ExportTracks.export_tracks_individually
               failing_export (lit "/out") (lit "track") (lit "wav") initial_world in
  fst run = SysExit 1 /\
  sent (snd run)
  = [ lit "GetInfo: Type=Tracks";
      lit "SelectTracks: Track=0 TrackCount=1 Mode=Set";
      lit "SetTrackAudio: Mute=1";
      lit "SelectTracks: Track=1 TrackCount=1 Mode=Set";
      lit "SetTrackAudio: Mute=1";
      lit "SelectTracks: Track=0 TrackCount=1 Mode=Set";
      lit "SetTrackAudio: Mute=0";
      lit "SelectAll:";
      export_track_command (lit "/out") (lit "track") (lit "wav") 1 ] /\
  ~ In (export_track_command (lit "/out") (lit "track") (lit "wav") 2)
       (sent (snd run)).
Proof.
  intros run. split; [reflexivity|]. split; [vm_compute; reflexivity|].
  vm_compute. intros H.
  repeat (destruct H as [H|H]; [discriminate H|]). exact H.
Qed.

(** ** The host's mute flags under the restore step *)

Section HostFacts.
Import Host.

Lemma select_one_inj (j k : Z) : select_one j = select_one k -> j = k.
Proof.
  unfold select_one. intros H. apply app_inv_head, app_inv_tail in H.
  apply of_int_inj, H.
Qed.

Lemma find_seq (f : nat -> bool) (a n j : nat) :
  (a <= j < a + n)%nat -> f j = true ->
  (forall k, (a <= k < j)%nat -> f k = false) ->
  List.find f (seq a n) = Some j.
Proof.
  revert a. induction n as [|n IH]; intros a Hj Hf Hbefore; [lia|].
  simpl. destruct (Nat.eq_dec a j) as [->|Hne].
  - rewrite Hf. reflexivity.
  - rewrite Hbefore by lia. apply IH; [lia|exact Hf|].
    intros k Hk. apply Hbefore. lia.
Qed.

Lemma step_select_one (n j : nat) (st : state) :
  length (muted st) = n -> (j < n)%nat ->
  step st (select_one (Z.of_nat j))
  = {| selected := List.map (Nat.eqb j) (seq 0 n); muted := muted st |}.
Proof.
  intros Hn Hj. unfold step. rewrite Hn.
  assert (Hno : forall rest tail : pystr,
             PyStr.eqb (select_one (Z.of_nat j)) (lit "SelectAll:") = false /\
             PyStr.eqb (select_one (Z.of_nat j)) (lit "SelectNone:") = false /\
             PyStr.eqb (select_one (Z.of_nat j)) (lit "SetTrackAudio: Mute=1") = false /\
             PyStr.eqb (select_one (Z.of_nat j)) (lit "SetTrackAudio: Mute=0") = false)
    by (intros; repeat split; reflexivity).
  destruct (Hno [] []) as (-> & -> & -> & ->).
  rewrite (find_seq _ 0 n j); [reflexivity|lia|apply eqb_refl|].
  intros k Hk. apply eqb_false. intros H. apply select_one_inj in H. lia.
Qed.

Lemma unmute_selected (n j : nat) (flags : list bool) :
  length flags = n ->
  zip_with (fun s m => negb s && m) (List.map (Nat.eqb j) (seq 0 n)) flags
  = <[ j := false ]> flags.
Proof.
  intros Hn. apply list_eq. intros i.
  rewrite lookup_zip_with.
  change (List.map (Nat.eqb j) (seq 0 n)) with (Nat.eqb j <$> seq 0 n).
  rewrite list_lookup_fmap.
  destruct (decide (i < n)%nat) as [Hi|Hi].
  - rewrite lookup_seq_lt by exact Hi. simpl.
    destruct (flags !! i) as [m|] eqn:Hm;
      [|apply lookup_ge_None in Hm; lia].
    simpl. destruct (Nat.eqb_spec j i) as [->|Hne].
    + rewrite list_lookup_insert_eq by lia. reflexivity.
    + rewrite list_lookup_insert_ne by exact Hne. rewrite Hm. reflexivity.
  - rewrite lookup_seq_ge by lia. simpl.
    symmetry. apply lookup_ge_None. rewrite length_insert. lia.
Qed.

(** Selecting track [j] and unmuting the selection clears the flag of [j]. *)
Lemma restore_one (n j : nat) (st : state) :
  well_formed n st -> (j < n)%nat ->
  let st' := run st [select_one (Z.of_nat j); lit "SetTrackAudio: Mute=0"] in
  well_formed n st' /\ muted st' = <[ j := false ]> (muted st).
Proof.
  intros [Hs Hm] Hj. simpl. rewrite (step_select_one n j st Hm Hj).
  unfold step at 1. cbn [PyStr.eqb lit]. simpl.
  rewrite (unmute_selected n j (muted st) Hm).
  split; [|reflexivity]. split; simpl.
  - rewrite length_map. apply length_seq.
  - rewrite length_insert. exact Hm.
Qed.


Lemma step_well_formed (n : nat) (st : state) (command : pystr) :
  well_formed n st -> well_formed n (step st command).
Proof.
  intros [Hs Hm]. unfold step. rewrite Hm.
  repeat (match goal with
          | |- context [if ?b then _ else _] => destruct b
          end);
    try (split; simpl; rewrite ?repeat_length, ?length_zip_with; lia).
  destruct (List.find _ _); split; simpl; rewrite ?length_map, ?length_seq; lia.
Qed.

Lemma run_well_formed (n : nat) (st : state) (commands : list pystr) :
  well_formed n st -> well_formed n (run st commands).
Proof.
  revert st. induction commands as [|c cs IH]; intros st Hwf; [exact Hwf|].
  simpl. apply IH, step_well_formed, Hwf.
Qed.



End HostFacts.

(** ** C2: the restore step of the track workflow *)

Section TrackRestore.
Import ExportTracks.

Variable env : environment.

Lemma do_command_val (command text : pystr) (w w' : world) :
  Commands.do_command env command w = (Val text, w') ->
  respond env (sent w) command = Responds text /\
  sent w' = sent w ++ [command] /\ printed w' = printed w.
Proof.
  unfold Commands.do_command.
  destruct (respond env (sent w) command); intros [= <- <-]; auto.
Qed.

Lemma print_run (msg : message) (w : world) :
  print msg w = (Val tt, {| sent := sent w; printed := printed w ++ [msg];
                            connected := connected w |}).
Proof. reflexivity. Qed.



Variables output_dir base_filename file_extension : pystr.



End TrackRestore.



(** ** C10: clearing the temp track *)

Section Issues.

Variable env : environment.

Lemma issues_ret {A : Type} (a : A) : issues [] (ret a).
Proof. intros w. exists 0%nat. simpl. rewrite app_nil_r. auto. Qed.

Lemma issues_do_command (command : pystr) :
  issues [command] (Commands.do_command env command).
Proof.
  intros w. exists 1%nat. unfold Commands.do_command.
  destruct (respond env (sent w) command); simpl; auto.
Qed.

Lemma issues_bind {A B : Type} (c1 c2 : list pystr) (m : M A) (k : A -> M B) :
  issues c1 m -> (forall a, issues c2 (k a)) -> issues (c1 ++ c2) (bind m k).
Proof.
  intros Hm Hk w. destruct (Hm w) as (n1 & Hs1 & Hp1 & Hfull). unfold bind.
  destruct (m w) as [[a|e] w1]; simpl in *.
  - destruct (Hk a w1) as (n2 & Hs2 & Hp2 & Hfull2).
    exists (length c1 + n2)%nat. rewrite (Hfull a eq_refl) in Hs1.
    rewrite take_app_ge, Hs2, Hs1, Hp2, Hp1 by lia.
    replace (length c1 + n2 - length c1)%nat with n2 by lia.
    rewrite <- app_assoc. repeat split.
    intros b Hb. rewrite (Hfull2 b Hb). reflexivity.
  - exists (min n1 (length c1)). rewrite take_app_le by lia.
    rewrite Hs1, Hp1. repeat split; [|discriminate].
    f_equal. destruct (Nat.le_ge_cases n1 (length c1)).
    + rewrite Nat.min_l by assumption. reflexivity.
    + rewrite Nat.min_r, firstn_all, take_ge by assumption. reflexivity.
Qed.

Lemma issues_lift_bind {A B : Type} (commands : list pystr) (r : result A)
    (k : A -> M B) :
  (forall a, r = Val a -> issues commands (k a)) ->
  issues commands (bind (lift r) k).
Proof.
  intros Hk w. destruct r as [a|e].
  - exact (Hk a eq_refl w).
  - exists 0%nat. simpl. rewrite app_nil_r. repeat split. discriminate.
Qed.

Lemma issues_export_clip (temp_track_idx track_idx : Z)
    (start_time end_time : pynum) (output_path : pystr) :
  issues (clip_commands env temp_track_idx track_idx start_time end_time output_path)
         (ExportClips.export_clip env temp_track_idx track_idx start_time end_time
                                  output_path).
Proof.
  unfold ExportClips.export_clip, ExportClips.clear_temp_track, clip_commands.
  unfold Commands.select_none, Commands.select_tracks, Commands.select_time,
    Commands.copy, Commands.delete, Commands.paste, Commands.export_audio.
  repeat (first
    [ apply issues_ret
    | apply (issues_bind [_] _ (Commands.do_command env _)); [apply issues_do_command|intros ?]
    | apply (issues_bind [_; _; _; _] _); [|intros ?]
    | apply issues_lift_bind; intros duration -> ]).
Qed.

(** After a first command that is issued in any case. *)
Lemma issues_first {B : Type} (c : pystr) (cs : list pystr) (k : pystr -> M B) :
  (forall a, issues cs (k a)) ->
  forall w, exists n,
    sent (snd (bind (Commands.do_command env c) k w))
    = sent w ++ take (S n) (c :: cs) /\
    printed (snd (bind (Commands.do_command env c) k w)) = printed w /\
    (forall b, fst (bind (Commands.do_command env c) k w) = Val b ->
               take (S n) (c :: cs) = c :: cs).
Proof.
  intros Hk w. unfold bind, Commands.do_command.
  destruct (respond env (sent w) c) as [text|msg].
  - match goal with
    | |- context [k text ?w1] => destruct (Hk text w1) as (n & Hs & Hp & Hfull)
    end.
    exists n. rewrite Hs, Hp. simpl. rewrite <- app_assoc. repeat split.
    intros b Hb. rewrite (Hfull b Hb). reflexivity.
  - exists 0%nat. simpl. repeat split. discriminate.
Qed.

(** The [try] block issues at least its first command. *)
Lemma export_clip_first (temp_track_idx track_idx : Z)
    (start_time end_time : pynum) (output_path : pystr) (w : world) :
  let commands := clip_commands env temp_track_idx track_idx start_time end_time
                                output_path in
  let run := ExportClips.export_clip env temp_track_idx track_idx start_time
                                     end_time output_path w in
  exists n,
    sent (snd run) = sent w ++ take (S n) commands /\
    printed (snd run) = printed w /\
    (forall a, fst run = Val a -> take (S n) commands = commands).
Proof.
  intros commands run. subst commands run.
  unfold ExportClips.export_clip, Commands.select_none at 1.
  apply issues_first. intros a.
  unfold ExportClips.clear_temp_track.
  unfold Commands.select_none, Commands.select_tracks, Commands.select_time,
    Commands.copy, Commands.delete, Commands.paste, Commands.export_audio.
  repeat (first
    [ apply issues_ret
    | apply (issues_bind [_] _ (Commands.do_command env _)); [apply issues_do_command|intros ?]
    | apply (issues_bind [_; _; _; _] _); [|intros ?]
    | apply issues_lift_bind; intros duration -> ]).
Qed.

End Issues.

Section Emits.

Lemma emits_weaken {A : Type} (P Q : list pystr -> list message -> Prop) (m : M A) :
  emits P m -> (forall new more, P new more -> Q new more) -> emits Q m.
Proof.
  intros Hm HPQ w. destruct (Hm w) as (new & more & Hs & Hp & HP). eauto 10.
Qed.

Lemma emits_pure {A : Type} (P : list pystr -> list message -> Prop) (m : M A) :
  (forall w, snd (m w) = w) -> P [] [] -> emits P m.
Proof.
  intros Hm HP w. exists [], []. rewrite Hm, !app_nil_r. auto.
Qed.

Lemma emits_print (P : list pystr -> list message -> Prop) (msg : message) :
  P [] [msg] -> emits P (print msg).
Proof. intros HP w. exists [], [msg]. simpl. rewrite app_nil_r. auto. Qed.

Lemma emits_announce_clip (P : list pystr -> list message -> Prop)
    (i total : nat) (clip_name : pystr) (track_number : Z)
    (start_time end_time : pynum) (output_path : pystr) :
  P [] [ExportingClip i total clip_name track_number start_time end_time
                      output_path] ->
  P [] [ExportingClipCutShort i total clip_name track_number] ->
  emits P (ExportClips.announce_clip i total clip_name track_number start_time
                                     end_time output_path).
Proof.
  intros Hall Hshort w. unfold ExportClips.announce_clip.
  destruct (formats_3f start_time && formats_3f end_time);
    eexists [], [_]; simpl; rewrite app_nil_r; auto.
Qed.

Lemma emits_lift {A : Type} (P : list pystr -> list message -> Prop)
    (r : result A) :
  P [] [] -> emits P (lift r).
Proof. intros HP. apply emits_pure; [reflexivity|exact HP]. Qed.

Lemma emits_do_command (env : environment)
    (P : list pystr -> list message -> Prop) (command : pystr) :
  P [command] [] -> emits P (Commands.do_command env command).
Proof.
  intros HP w. exists [command], []. unfold Commands.do_command.
  destruct (respond env (sent w) command); simpl; rewrite app_nil_r; auto.
Qed.

Lemma emits_issues {A : Type} (commands : list pystr) (m : M A) :
  issues commands m ->
  emits (fun new more => exists n, new = take n commands /\ more = []) m.
Proof.
  intros Hm w. destruct (Hm w) as (n & Hs & Hp & _).
  exists (take n commands), []. rewrite app_nil_r. eauto 10.
Qed.

Lemma emits_bind {A B : Type} (P Q R : list pystr -> list message -> Prop)
    (m : M A) (k : A -> M B) :
  emits P m -> (forall a, emits Q (k a)) ->
  (forall n1 m1, P n1 m1 -> R n1 m1) ->
  (forall n1 m1 n2 m2, P n1 m1 -> Q n2 m2 -> R (n1 ++ n2) (m1 ++ m2)) ->
  emits R (bind m k).
Proof.
  intros Hm Hk HPR HPQR w. destruct (Hm w) as (n1 & m1 & Hs1 & Hp1 & HP).
  unfold bind. destruct (m w) as [[a|e] w1]; simpl in *.
  - destruct (Hk a w1) as (n2 & m2 & Hs2 & Hp2 & HQ).
    exists (n1 ++ n2), (m1 ++ m2). rewrite Hs2, Hp2, Hs1, Hp1, <- !app_assoc. auto.
  - exists n1, m1. auto.
Qed.

(** As [emits_bind], when something is known of the value the first
    computation returns. *)
Lemma emits_bind_val {A B : Type} (P Q R : list pystr -> list message -> Prop)
    (V : A -> Prop) (m : M A) (k : A -> M B) :
  emits P m -> (forall w a w1, m w = (Val a, w1) -> V a) ->
  (forall a, V a -> emits Q (k a)) ->
  (forall n1 m1, P n1 m1 -> R n1 m1) ->
  (forall n1 m1 n2 m2, P n1 m1 -> Q n2 m2 -> R (n1 ++ n2) (m1 ++ m2)) ->
  emits R (bind m k).
Proof.
  intros Hm HV Hk HPR HPQR w. destruct (Hm w) as (n1 & m1 & Hs1 & Hp1 & HP).
  specialize (HV w). unfold bind. destruct (m w) as [[a|e] w1]; simpl in *.
  - destruct (Hk a (HV a w1 eq_refl) w1) as (n2 & m2 & Hs2 & Hp2 & HQ).
    exists (n1 ++ n2), (m1 ++ m2). rewrite Hs2, Hp2, Hs1, Hp1, <- !app_assoc. auto.
  - exists n1, m1. auto.
Qed.

Lemma emits_try_except {A : Type} (P Q R : list pystr -> list message -> Prop)
    (m : M A) (handler : exn -> M A) :
  emits P m -> (forall e, emits Q (handler e)) ->
  (forall n1 m1, P n1 m1 -> R n1 m1) ->
  (forall n1 m1 n2 m2, P n1 m1 -> Q n2 m2 -> R (n1 ++ n2) (m1 ++ m2)) ->
  emits R (try_except m handler).
Proof.
  intros Hm Hh HPR HPQR w. destruct (Hm w) as (n1 & m1 & Hs1 & Hp1 & HP).
  unfold try_except. destruct (m w) as [[a|e] w1]; simpl in *.
  - exists n1, m1. auto.
  - destruct (Hh e w1) as (n2 & m2 & Hs2 & Hp2 & HQ).
    exists (n1 ++ n2), (m1 ++ m2). rewrite Hs2, Hp2, Hs1, Hp1, <- !app_assoc. auto.
Qed.

Lemma emits_for_each {A : Type} (P : list pystr -> list message -> Prop)
    (xs : list A) (body : A -> M unit) :
  P [] [] ->
  (forall n1 m1 n2 m2, P n1 m1 -> P n2 m2 -> P (n1 ++ n2) (m1 ++ m2)) ->
  (forall x, emits P (body x)) -> emits P (for_each xs body).
Proof.
  intros Hnil Happ Hbody. induction xs as [|x xs IH]; simpl.
  - apply emits_pure; auto.
  - apply (emits_bind P P P); auto.
Qed.

End Emits.

Section Cleared.

Variable t : Z.

Lemma cleared_nil : cleared_before_paste t [].
Proof. split; intros k Hk; discriminate Hk. Qed.

Lemma cleared_app (c1 c2 : list pystr) :
  cleared_before_paste t c1 -> cleared_before_paste t c2 ->
  cleared_before_paste t (c1 ++ c2).
Proof.
  intros [Hd1 Hp1] [Hd2 Hp2]. split; intros k Hk.
  - destruct (decide (k < length c1)%nat) as [Hlt|Hge].
    + rewrite lookup_app_l in Hk by exact Hlt.
      destruct (Hd1 k Hk) as (k0 & -> & H0 & H1 & H2).
      exists k0. rewrite !lookup_app_l by lia. auto.
    + rewrite lookup_app_r in Hk by lia.
      destruct (Hd2 _ Hk) as (k0 & Hk0 & H0 & H1 & H2).
      exists (length c1 + k0)%nat. rewrite !lookup_app_r by lia.
      replace (length c1 + k0 - length c1)%nat with k0 by lia.
      replace (length c1 + k0 + 1 - length c1)%nat with (k0 + 1)%nat by lia.
      replace (length c1 + k0 + 2 - length c1)%nat with (k0 + 2)%nat by lia.
      repeat split; try assumption. lia.
  - destruct (decide (k < length c1)%nat) as [Hlt|Hge].
    + rewrite lookup_app_l in Hk by exact Hlt.
      destruct (Hp1 k Hk) as (k0 & -> & H0).
      exists k0. rewrite lookup_app_l by lia. auto.
    + rewrite lookup_app_r in Hk by lia.
      destruct (Hp2 _ Hk) as (k0 & Hk0 & H0).
      exists (length c1 + k0)%nat. rewrite lookup_app_r by lia.
      replace (length c1 + k0 - length c1)%nat with k0 by lia.
      split; [lia|assumption].
Qed.

Lemma cleared_harmless (commands : list pystr) :
  Forall harmless commands -> cleared_before_paste t commands.
Proof.
  intros H. split; intros k Hk;
    destruct (proj1 (Forall_lookup _ _) H k _ Hk) as [Hd Hp]; congruence.
Qed.

End Cleared.

(** Two command texts that start with different characters differ. *)
Ltac by_first_character :=
  let H := fresh in
  intros H; apply (f_equal (hd 0%N)) in H; lazy in H; discriminate H.

Ltac harmless_command := split; by_first_character.

Section ClearedClip.

Variable env : environment.

Lemma cleared_clip_commands (n : nat) (temp_track_idx track_idx : Z)
    (start_time end_time : pynum) (output_path : pystr) :
  cleared_before_paste temp_track_idx
    (take n (clip_commands env temp_track_idx track_idx start_time end_time
                           output_path)).
Proof.
  unfold clip_commands.
  destruct (ExportClips.num_sub env end_time start_time) as [duration|e];
    cbn [app];
    (split; intros k Hk; apply lookup_take_Some in Hk as [Hk Hn]).
  1, 3: destruct k as [|[|[|[|[|[|[|[|[|[|[|[|[|[|[|k]]]]]]]]]]]]]]];
      try (exfalso; injection Hk; by_first_character); try discriminate Hk;
      exists 4%nat; rewrite !lookup_take_lt by lia; repeat split.
  all: destruct k as [|[|[|[|[|[|[|[|[|[|[|[|[|[|[|k]]]]]]]]]]]]]]];
      try (exfalso; injection Hk; by_first_character); try discriminate Hk;
      exists 7%nat; rewrite !lookup_take_lt by lia; repeat split.
Qed.

End ClearedClip.

Section ClipTrace.
Import ExportClips.

Variable env : environment.
Variables output_dir prefix file_extension : pystr.

Local Abbreviation cleared t :=
  (fun (new : list pystr) (_ : list message) => cleared_before_paste t new).

Local Abbreviation quiet :=
  (fun (new : list pystr) (_ : list message) => Forall harmless new).

Lemma cleared_bind {A B : Type} (t : Z) (m : M A) (k : A -> M B) :
  emits (cleared t) m -> (forall a, emits (cleared t) (k a)) ->
  emits (cleared t) (bind m k).
Proof.
  intros Hm Hk. apply (emits_bind (cleared t) (cleared t)); auto.
  intros. apply cleared_app; assumption.
Qed.

Lemma quiet_bind {A B : Type} (m : M A) (k : A -> M B) :
  emits quiet m -> (forall a, emits quiet (k a)) -> emits quiet (bind m k).
Proof.
  intros Hm Hk. apply (emits_bind quiet quiet); auto.
  intros. apply Forall_app. split; assumption.
Qed.

Lemma quiet_print (msg : message) : emits quiet (print msg).
Proof. apply emits_print. constructor. Qed.

Lemma quiet_do_command (command : pystr) :
  harmless command -> emits quiet (Commands.do_command env command).
Proof. intros H. apply emits_do_command. repeat constructor; apply H. Qed.

Lemma quiet_cleared {A : Type} (t : Z) (m : M A) :
  emits quiet m -> emits (cleared t) m.
Proof. intros H. apply (emits_weaken quiet); [exact H|]. intros. apply cleared_harmless. assumption. Qed.

Lemma choose_output_path_state (safe_name : pystr) (w : world) :
  exists path,
    choose_output_path env output_dir prefix file_extension safe_name w
    = (Val path, w).
Proof.
  unfold choose_output_path. destruct (free_path _ _ _ _ _ _ _ _ _) as [[path ?]|]; eauto.
Qed.

Lemma emits_clip_loop (t : Z) (total i : nat) (clips : list jobject)
    (exported_count : nat) :
  emits (cleared t)
        (clip_loop env output_dir prefix file_extension t total i clips
                   exported_count).
Proof.
  revert i exported_count. induction clips as [|clip rest IH]; intros i count.
  - apply emits_pure; [reflexivity|apply cleared_nil].
  - cbn [clip_loop]. destruct (invalid_data clip).
    + apply cleared_bind; [|intros _; apply IH].
      apply quiet_cleared, quiet_print.
    + apply cleared_bind.
      { apply emits_pure; [|apply cleared_nil]. intros w.
        destruct (choose_output_path_state (sanitize_filename
                    (get (j_name clip) (lit "clip_" ++ of_int (Z.of_nat i)))) w)
          as [path ->]. reflexivity. }
      intros output_path. apply cleared_bind.
      { apply quiet_cleared, emits_announce_clip; constructor. }
      intros _. apply cleared_bind; [|intros ?; apply IH].
      apply (emits_try_except (cleared t) (cleared t)); auto.
      * apply cleared_bind.
        -- apply (emits_weaken _ _ _ (emits_issues _ _ (issues_export_clip env _ _ _ _ _))).
           intros new more (n & -> & _). apply cleared_clip_commands.
        -- intros _. apply cleared_bind; [apply quiet_cleared, quiet_print|].
           intros _. apply emits_pure; [reflexivity|apply cleared_nil].
      * intros e. apply cleared_bind; [apply quiet_cleared, quiet_print|].
        intros _. apply emits_pure; [reflexivity|apply cleared_nil].
      * intros. apply cleared_app; assumption.
Qed.

Lemma quiet_unmuted_clips (track_mute_status : gmap Z bool) (clips_data : list jobject) :
  emits quiet (unmuted_clips track_mute_status clips_data).
Proof.
  induction clips_data as [|clip rest IH]; cbn [unmuted_clips].
  - apply emits_pure; [reflexivity|constructor].
  - destruct (negb (is_muted track_mute_status clip)).
    + apply quiet_bind; [exact IH|]. intros ?. apply emits_pure; [reflexivity|constructor].
    + apply quiet_bind; [apply quiet_print|intros _; exact IH].
Qed.

Lemma quiet_loads (text : pystr) : emits quiet (loads env text).
Proof.
  unfold loads. destruct (json_loads env text);
    (apply emits_pure; [reflexivity|constructor]).
Qed.

Lemma quiet_mute_all_but (temp_track_idx : Z) (num_tracks : nat) :
  emits quiet (mute_all_but env temp_track_idx num_tracks).
Proof.
  unfold mute_all_but. apply emits_for_each.
  - constructor.
  - intros. apply Forall_app. split; assumption.
  - intros j. apply quiet_bind; [apply quiet_do_command; harmless_command|].
    intros _. apply quiet_bind; [apply quiet_do_command; harmless_command|].
    intros _. apply quiet_bind.
    + destruct (j =? temp_track_idx); apply quiet_do_command; harmless_command.
    + intros _. apply emits_pure; [reflexivity|constructor].
Qed.

(** What the body of the clip workflow issues: nothing that deletes or
    pastes, or it has announced its temp track and clears it before each
    paste. *)
Lemma emits_export_clips_body :
  emits (fun new more =>
           Forall harmless new \/
           exists t, In (CreatedTemporaryTrack t) more /\ cleared_before_paste t new)
        (export_clips_body env output_dir prefix file_extension).
Proof.
  set (R := fun (new : list pystr) (more : list message) =>
              Forall harmless new \/
              exists t, In (CreatedTemporaryTrack t) more /\ cleared_before_paste t new).
  assert (HqR : forall n1 m1, quiet n1 m1 -> R n1 m1) by (intros; left; assumption).
  assert (HqRR : forall n1 m1 n2 m2, quiet n1 m1 -> R n2 m2 -> R (n1 ++ n2) (m1 ++ m2)).
  { intros n1 m1 n2 m2 Hq [Hh|(t & Hin & Hc)].
    - left. apply Forall_app. split; assumption.
    - right. exists t. split; [apply in_or_app; right; exact Hin|].
      apply cleared_app; [apply cleared_harmless|]; assumption. }
  assert (step : forall (A B : Type) (m : M A) (k : A -> M B),
             emits quiet m -> (forall a, emits R (k a)) -> emits R (bind m k))
    by (intros; apply (emits_bind quiet R R); auto).
  unfold export_clips_body.
  apply step; [apply quiet_do_command; harmless_command|]. intros tracks_info.
  apply step; [apply quiet_loads|]. intros tracks_data.
  apply step; [apply quiet_print|]. intros _.
  apply step; [apply quiet_do_command; harmless_command|]. intros clips_info.
  destruct (json_loads env clips_info) as [[|clip clips_data]|];
    try (apply (emits_weaken quiet); [apply quiet_print|exact HqR]).
  apply step; [apply quiet_unmuted_clips|]. intros [|c clips_to_export];
    [apply (emits_weaken quiet); [apply quiet_print|exact HqR]|].
  apply step; [apply quiet_print|]. intros _.
  apply step; [apply quiet_do_command; harmless_command|]. intros _.
  apply step; [apply quiet_do_command; harmless_command|]. intros tracks_info_updated.
  apply step; [apply quiet_loads|]. intros tracks_data_updated.
  set (t := Z.of_nat (length tracks_data_updated) - 1).
  apply (emits_bind (fun new more => new = [] /\ more = [CreatedTemporaryTrack t])
                    (cleared t) R).
  - apply emits_print. auto.
  - intros _. apply cleared_bind; [apply quiet_cleared, quiet_mute_all_but|].
    intros _. apply cleared_bind; [apply emits_clip_loop|].
    intros ?. apply quiet_cleared, quiet_print.
  - intros n1 m1 [-> ->]. left. constructor.
  - intros n1 m1 n2 m2 [-> ->] Hc. right. exists t. split; [left; reflexivity|exact Hc].
Qed.

End ClipTrace.

Section ClearedRun.
Import ExportClips.

Variable env : environment.
Variables output_dir prefix file_extension : pystr.

(** The commands and lines of a run of the clip workflow are those of its
    body, and one more line when it exits with an error. *)
Lemma export_clips_run (status : exit_status) (w' : world) :
  export_clips_individually env output_dir prefix file_extension initial_world
  = (status, w') ->
  sent w' = [] \/
  exists w1 extra,
    connect_error env = None /\
    w1 = snd (export_clips_body env output_dir prefix file_extension
                (connected_world initial_world true)) /\
    sent w' = sent w1 /\ printed w' = printed w1 ++ extra.
Proof.
  unfold export_clips_individually. intros Hrun.
  destruct (connect_error env) as [e|] eqn:Hc.
  - left. rewrite (with_pipe_refused env _ _ e Hc) in Hrun.
    injection Hrun as <- <-. reflexivity.
  - right. rewrite (with_pipe_connected env _ _ Hc) in Hrun.
    destruct (fst _) as [[]|[msg| |msg]]; injection Hrun as <- <-; simpl;
      eexists; eexists; (split; [reflexivity|]); (split; [reflexivity|]);
      (split; [reflexivity|]); try reflexivity.
    symmetry. apply app_nil_r.
Qed.

(** C10.  In every run of the clip workflow, a [Delete:] is only ever issued
    right after [SelectNone:], the selection of the temp track alone and
    [SelectTime: Start=0 End=100 RelativeTo=ProjectStart], with [t] the index
    the run has announced for its temp track; and every [Paste:] comes three
    commands after such a [Delete:] (the two commands in between select the
    temp track again).  The range is the constant 0 to 100, whatever the
    clips are; nothing beyond second 100 is ever selected for deletion. *)
Theorem temp_track_cleared_0_to_100 (status : exit_status) (w' : world) :
  export_clips_individually env output_dir prefix file_extension initial_world
  = (status, w') ->
  (forall k, sent w' !! k = Some (lit "Delete:") ->
     exists t k0,
       In (CreatedTemporaryTrack t) (printed w') /\ k = (k0 + 3)%nat /\
       sent w' !! k0 = Some (lit "SelectNone:") /\
       sent w' !! (k0 + 1)%nat
       = Some (lit "SelectTracks: Track=" ++ of_int t ++ lit " TrackCount=1 Mode=Set") /\
       sent w' !! (k0 + 2)%nat
       = Some (lit "SelectTime: Start=0 End=100 RelativeTo=ProjectStart")) /\
  (forall k, sent w' !! k = Some (lit "Paste:") ->
     exists k0, k = (k0 + 3)%nat /\ sent w' !! k0 = Some (lit "Delete:")).
Proof.
  intros Hrun.
  destruct (export_clips_run status w' Hrun)
    as [Hnone|(w1 & extra & Hc & Hw1 & Hsent & Hprinted)].
  { rewrite Hnone. split; intros k Hk; discriminate Hk. }
  destruct (emits_export_clips_body env output_dir prefix file_extension
              (connected_world initial_world true))
    as (new & more & Hs & Hp & HR).
  rewrite <- Hw1 in Hs, Hp. simpl in Hs, Hp.
  rewrite Hsent, Hs, Hprinted, Hp.
  destruct HR as [Hh|(t & Hin & Hd & Hpaste)].
  - split; intros k Hk;
      destruct (proj1 (Forall_lookup _ _) Hh k _ Hk) as [Hd Hpaste]; congruence.
  - split.
    + intros k Hk. destruct (Hd k Hk) as (k0 & -> & H0 & H1 & H2).
      exists t, k0. repeat split; try assumption.
      apply in_or_app. left. exact Hin.
    + exact Hpaste.
Qed.

End ClearedRun.

Lemma temp_track_cleared_0_to_100_witness :
  let run := ExportClips.export_clips_individually
               scenario (lit "/out") (lit "take_") (lit "flac") initial_world in
  exists t k0,
    In (CreatedTemporaryTrack t) (printed (snd run)) /\ 20%nat = (k0 + 3)%nat /\
    sent (snd run) !! k0 = Some (lit "SelectNone:") /\
    sent (snd run) !! (k0 + 1)%nat
    = Some (lit "SelectTracks: Track=" ++ of_int t ++ lit " TrackCount=1 Mode=Set") /\
    sent (snd run) !! (k0 + 2)%nat
    = Some (lit "SelectTime: Start=0 End=100 RelativeTo=ProjectStart").
Proof.
  intros run.
  refine (proj1 (temp_track_cleared_0_to_100 scenario (lit "/out") (lit "take_")
                   (lit "flac") (fst run) (snd run) (surjective_pairing run)) 20%nat _).
  vm_compute. reflexivity.
Defined.

(** ** C4: which clips are exported *)

Section ClipFilter.
Import ExportClips.

Lemma lookup_mute_status (tracks_data : list jobject) (i t : Z)
    (status : gmap Z bool) :
  mute_status_from i tracks_data status !! t
  = if (i <=? t) && (t <? i + Z.of_nat (length tracks_data))
    then (fun track => Z.eqb (get (j_mute track) 0) 1)
           <$> tracks_data !! Z.to_nat (t - i)
    else status !! t.
Proof.
  revert i status. induction tracks_data as [|track rest IH]; intros i status.
  - simpl. change (Z.of_nat 0) with 0.
    destruct (Z.leb_spec i t), (Z.ltb_spec t (i + 0)); simpl; try reflexivity; lia.
  - cbn [mute_status_from length]. rewrite IH.
    destruct (Z.leb_spec (i + 1) t), (Z.leb_spec i t),
      (Z.ltb_spec t (i + 1 + Z.of_nat (length rest))),
      (Z.ltb_spec t (i + Z.of_nat (S (length rest)))); simpl; try lia.
    + replace (Z.to_nat (t - i)) with (S (Z.to_nat (t - (i + 1)))) by lia.
      reflexivity.
    + apply lookup_insert_ne. lia.
    + assert (t = i) as -> by lia. rewrite Z.sub_diag. simpl.
      apply lookup_insert_eq.
    + apply lookup_insert_ne. lia.
Qed.

Lemma is_muted_flag (tracks_data : list jobject) (clip : jobject) (t : Z) :
  j_track clip = Some t ->
  is_muted (mute_status_from 0 tracks_data ∅) clip
  = default false (mute_flag tracks_data t).
Proof.
  intros Ht. unfold is_muted, mute_flag. rewrite Ht. simpl.
  rewrite lookup_mute_status, Z.sub_0_r, Z.add_0_l.
  destruct (Z.leb_spec 0 t); simpl; [|reflexivity].
  destruct (Z.ltb_spec t (Z.of_nat (length tracks_data))); [reflexivity|].
  rewrite lookup_empty. symmetry.
  rewrite (proj2 (lookup_ge_None tracks_data (Z.to_nat t))) by lia. reflexivity.
Qed.

Lemma before_zero_or_after (q : Q) :
  negb (Qle_bool (inject_Z 0) q) || Qle_bool (-10) q = true.
Proof.
  destruct (Qle_bool (inject_Z 0) q) eqn:E; [|reflexivity]. simpl.
  apply Qle_bool_iff. apply Qle_bool_iff in E.
  apply Qle_trans with (y := 0%Q); [discriminate|exact E].
Qed.

(** The two tests of the code together are the four conditions. *)
Lemma included_by_code (tracks_data : list jobject) (clip : jobject) :
  negb (is_muted (mute_status_from 0 tracks_data ∅) clip) && negb (invalid_data clip)
  = included tracks_data clip.
Proof.
  unfold included, invalid_data.
  destruct (j_track clip) as [t|] eqn:Ht; [|apply andb_false_r].
  rewrite (is_muted_flag tracks_data clip t Ht). simpl.
  destruct (j_start clip) as [s|], (j_end clip) as [e|]; simpl.
  - unfold num_ltb, num_leb. simpl.
    destruct (t =? -1), (default false (mute_flag tracks_data t)),
      (Qle_bool (inject_Z 0) (num_value s)),
      (Qle_bool (num_value e) (num_value s)); reflexivity.
  - unfold num_ltb, num_leb. simpl.
    pose proof (before_zero_or_after (num_value s)) as H.
    destruct (negb (Qle_bool (inject_Z 0) (num_value s))),
      (Qle_bool (-10) (num_value s));
      try discriminate H; rewrite ?orb_true_r; apply andb_false_r.
  - rewrite orb_true_r. apply andb_false_r.
  - rewrite orb_true_r. apply andb_false_r.
Qed.

Lemma excluded_count (tracks_data : list jobject) (clips : list jobject) :
  let status := mute_status_from 0 tracks_data ∅ in
  length (List.filter (fun c => negb (included tracks_data c)) clips)
  = (length (List.filter (is_muted status) clips)
     + length (List.filter invalid_data
                 (List.filter (fun c => negb (is_muted status c)) clips)))%nat.
Proof.
  intros status. induction clips as [|c clips IH]; [reflexivity|].
  simpl. rewrite <- (included_by_code tracks_data c). fold status.
  destruct (is_muted status c); simpl; [lia|].
  destruct (invalid_data c); simpl; lia.
Qed.

Lemma included_filter (tracks_data : list jobject) (clips : list jobject) :
  let status := mute_status_from 0 tracks_data ∅ in
  List.filter (included tracks_data) clips
  = List.filter (fun c => negb (invalid_data c))
      (List.filter (fun c => negb (is_muted status c)) clips).
Proof.
  intros status. induction clips as [|c clips IH]; [reflexivity|].
  simpl. rewrite <- (included_by_code tracks_data c). fold status.
  destruct (is_muted status c); simpl; [exact IH|].
  destruct (invalid_data c); simpl; congruence.
Qed.

End ClipFilter.

Section Logs.

Lemma logs_refl (w w' : world) : printed w' = printed w -> logs w w' [] 0.
Proof. intros H. exists []. rewrite app_nil_r. auto. Qed.

Lemma logs_trans (w1 w2 w3 : world) (a1 a2 : list (Z * pynum * pynum))
    (s1 s2 : nat) :
  logs w1 w2 a1 s1 -> logs w2 w3 a2 s2 -> logs w1 w3 (a1 ++ a2) (s1 + s2).
Proof.
  intros (m1 & Hp1 & <- & <-) (m2 & Hp2 & <- & <-). exists (m1 ++ m2).
  rewrite Hp2, Hp1, <- app_assoc. unfold announced, skipped.
  rewrite flat_map_app, List.filter_app, length_app. auto.
Qed.

Lemma logs_print (msg : message) (w w' : world) :
  print msg w = (Val tt, w') ->
  logs w w' (announced [msg]) (length (skipped [msg])).
Proof. intros [= <-]. exists [msg]. auto. Qed.

Lemma silent_ret {A : Type} (a : A) : silent (ret a).
Proof. intros w. reflexivity. Qed.

Lemma silent_do_command (env : environment) (command : pystr) :
  silent (Commands.do_command env command).
Proof.
  intros w. unfold Commands.do_command.
  destruct (respond env (sent w) command); reflexivity.
Qed.

Lemma silent_bind {A B : Type} (m : M A) (k : A -> M B) :
  silent m -> (forall a, silent (k a)) -> silent (bind m k).
Proof.
  intros Hm Hk w. specialize (Hm w). unfold bind.
  destruct (m w) as [[a|e] w1]; simpl in *; [|exact Hm].
  rewrite Hk. exact Hm.
Qed.

Lemma silent_for_each {A : Type} (xs : list A) (body : A -> M unit) :
  (forall x, silent (body x)) -> silent (for_each xs body).
Proof.
  intros Hbody. induction xs as [|x xs IH]; simpl.
  - apply silent_ret.
  - apply silent_bind; [apply Hbody|intros _; exact IH].
Qed.

Lemma silent_issues {A : Type} (commands : list pystr) (m : M A) :
  issues commands m -> silent m.
Proof. intros H w. destruct (H w) as (n & _ & Hp & _). exact Hp. Qed.

End Logs.

Section ClipRun.
Import ExportClips.

Variable env : environment.
Variables output_dir prefix file_extension : pystr.

Lemma silent_mute_all_but (temp_track_idx : Z) (num_tracks : nat) :
  silent (mute_all_but env temp_track_idx num_tracks).
Proof.
  unfold mute_all_but. apply silent_for_each. intros j.
  repeat (apply silent_bind; [|intros ?]);
    try apply silent_ret; try apply silent_do_command.
  destruct (j =? temp_track_idx); apply silent_do_command.
Qed.

(** The filter on mute flags never raises; it keeps the clips of unmuted
    tracks and prints one line for each of the others. *)
Lemma unmuted_clips_run (status : gmap Z bool) (clips_data : list jobject)
    (w : world) :
  exists w',
    unmuted_clips status clips_data w
    = (Val (List.filter (fun c => negb (is_muted status c)) clips_data), w') /\
    logs w w' [] (length (List.filter (is_muted status) clips_data)).
Proof.
  revert w. induction clips_data as [|clip rest IH]; intros w.
  - exists w. split; [reflexivity|]. apply logs_refl. reflexivity.
  - cbn [unmuted_clips List.filter]. destruct (is_muted status clip);
      cbn [negb length].
    + unfold bind at 1. rewrite print_run.
      destruct (IH {| sent := sent w;
                      printed := printed w ++
                        [SkippingMuted (get (j_name clip) (lit "Unnamed"))
                                       (get (j_track clip) 0 + 1)];
                      connected := connected w |}) as (w' & -> & Hlogs).
      exists w'. split; [reflexivity|].
      exact (logs_trans _ _ _ _ _ _ _
               (logs_print _ _ _
                  (print_run (SkippingMuted (get (j_name clip) (lit "Unnamed"))
                                            (get (j_track clip) 0 + 1)) w))
               Hlogs).
    + destruct (IH w) as (w' & Hrun & Hlogs). exists w'.
      unfold bind. rewrite Hrun. split; [reflexivity|exact Hlogs].
Qed.

Lemma num_sub_printable (a b : pynum) :
  formats_3f a = true -> formats_3f b = true -> exists d, num_sub env a b = Val d.
Proof.
  destruct a, b; simpl; intros Ha Hb; rewrite ?Ha, ?Hb; eauto.
Qed.

(** When the subtraction of the times goes through, the [try] block can
    only fail with a command. *)
Lemma fail_fast_export_clip (t track_idx : Z) (start_time end_time duration : pynum)
    (output_path : pystr) :
  num_sub env end_time start_time = Val duration ->
  fail_fast env (export_clip env t track_idx start_time end_time output_path).
Proof.
  intros Hd. unfold export_clip, clear_temp_track. rewrite Hd.
  unfold Commands.select_none, Commands.select_tracks, Commands.select_time,
    Commands.copy, Commands.delete, Commands.paste, Commands.export_audio.
  repeat (apply fail_fast_bind; [|intros ?]);
    try apply fail_fast_do_command; try apply fail_fast_ret.
Qed.

(** One pass of the [try] block with its handler.  It never raises.  It
    issues a first part of the commands for the clip, at least one of them,
    and prints one line: [Export complete] when all commands were issued,
    [Failed to export clip] otherwise.  With times that can be printed, a
    failure is the failure of a command. *)
Lemma export_attempt (t track_idx : Z) (start_time end_time : pynum)
    (output_path : pystr) (exported_count : nat) (w : world) :
  let commands := clip_commands env t track_idx start_time end_time output_path in
  exists n line count' w',
    try_except
      (export_clip env t track_idx start_time end_time output_path ;;
       print ExportComplete ;;
       ret (S exported_count))%py
      (fun e => print (FailedToExportClip e) ;; ret exported_count)%py w
    = (Val count', w') /\
    sent w' = sent w ++ take (S n) commands /\
    printed w' = printed w ++ [line] /\
    ((line = ExportComplete /\ count' = S exported_count /\
      take (S n) commands = commands) \/
     (exists e, line = FailedToExportClip e /\ count' = exported_count /\
        (formats_3f start_time = true -> formats_3f end_time = true ->
         exists history c msg, respond env history c = Fails msg))).
Proof.
  intros commands.
  destruct (export_clip_first env t track_idx start_time end_time output_path w)
    as (n & Hs & Hp & Hfull).
  fold commands in Hs, Hfull.
  unfold try_except, bind.
  destruct (export_clip env t track_idx start_time end_time output_path w)
    as [[[]|e] w1] eqn:Hrun; simpl in Hs, Hp, Hfull.
  - exists n, ExportComplete, (S exported_count). eexists.
    split; [reflexivity|]. simpl. rewrite Hs, Hp.
    repeat split. left. repeat split. exact (Hfull tt eq_refl).
  - exists n, (FailedToExportClip e), exported_count. eexists.
    split; [reflexivity|]. simpl. rewrite Hs, Hp.
    repeat split. right. exists e. repeat split.
    intros Hfs Hfe. destruct (num_sub_printable _ _ Hfe Hfs) as [d Hd].
    pose proof (fail_fast_export_clip t track_idx start_time end_time d
                  output_path Hd w) as Hff.
    rewrite Hrun in Hff. simpl in Hff.
    destruct Hff as (new & _ & pre & c & msg & _ & _ & Hc & _). eauto.
Qed.

Section OneClip.

Variables (t : Z) (total i : nat) (clip : jobject) (rest : list jobject).
Variables (exported_count : nat) (w : world).

Local Abbreviation loop := (clip_loop env output_dir prefix file_extension t total).

(** The three ways in which the loop deals with a clip: it passes over a
    clip with invalid data; it ends the run at a clip whose times it cannot
    print; it announces any other clip and tries to export it. *)
Lemma clip_loop_invalid :
  invalid_data clip = true ->
  loop i (clip :: rest) exported_count w
  = loop (S i) rest exported_count
      {| sent := sent w;
         printed := printed w ++ [SkippingInvalid (name_of i clip)];
         connected := connected w |}.
Proof. intros H. cbn [clip_loop]. rewrite H. reflexivity. Qed.

Lemma clip_loop_unprintable :
  invalid_data clip = false -> printable clip = false ->
  loop i (clip :: rest) exported_count w
  = (Exc overflow_error,
     {| sent := sent w;
        printed := printed w
                   ++ [ExportingClipCutShort i total (name_of i clip)
                                             (get (j_track clip) (-1) + 1)];
        connected := connected w |}).
Proof.
  intros Hvalid Hprint. cbn [clip_loop]. rewrite Hvalid.
  destruct (choose_output_path_candidate env w output_dir prefix file_extension
              (sanitize_filename (name_of i clip))) as [k Hpath].
  unfold bind at 1. unfold name_of in Hpath. rewrite Hpath. cbv beta iota.
  unfold announce_clip. unfold printable in Hprint. rewrite Hprint.
  reflexivity.
Qed.

Lemma clip_loop_valid :
  invalid_data clip = false -> printable clip = true ->
  exists k n line count' w',
    let output_path :=
      candidate output_dir prefix (sanitize_filename (name_of i clip))
                file_extension k in
    loop i (clip :: rest) exported_count w = loop (S i) rest count' w' /\
    sent w' = sent w ++ take (S n) (commands_for env t clip output_path) /\
    printed w'
    = printed w
      ++ [ExportingClip i total (name_of i clip) (get (j_track clip) (-1) + 1)
                        (get (j_start clip) (PyFloat (-10)))
                        (get (j_end clip) (PyFloat (-10))) output_path; line] /\
    ((line = ExportComplete /\ count' = S exported_count /\
      take (S n) (commands_for env t clip output_path)
      = commands_for env t clip output_path) \/
     (exists e, line = FailedToExportClip e /\ count' = exported_count /\
        exists history c msg, respond env history c = Fails msg)).
Proof.
  intros Hvalid Hprint. cbn [clip_loop]. rewrite Hvalid.
  destruct (choose_output_path_candidate env w output_dir prefix file_extension
              (sanitize_filename (name_of i clip))) as [k Hpath].
  exists k.
  unfold bind at 1. unfold name_of in Hpath. rewrite Hpath. cbv beta iota.
  unfold announce_clip. pose proof Hprint as Hboth.
  unfold printable in Hprint. rewrite Hprint.
  apply andb_true_iff in Hprint as [Hfs Hfe].
  unfold bind at 1. rewrite print_run. cbv beta iota.
  match goal with
  | |- context [bind _ _ ?w1] => set (w2 := w1)
  end.
  destruct (export_attempt t (get (j_track clip) (-1))
              (get (j_start clip) (PyFloat (-10)))
              (get (j_end clip) (PyFloat (-10)))
              (candidate output_dir prefix
                 (sanitize_filename
                    (get (j_name clip) (lit "clip_" ++ of_int (Z.of_nat i))))
                 file_extension k) exported_count w2)
    as (n & line & count' & w3 & Htry & Hs & Hp & Hline).
  exists n, line, count', w3. unfold bind at 1. rewrite Htry. cbv beta iota.
  split; [reflexivity|]. split; [exact Hs|].
  split; [rewrite Hp; simpl; rewrite <- app_assoc; reflexivity|].
  destruct Hline as [Hdone|(e & He & Hc & Hfail)]; [left; exact Hdone|].
  right. exists e. auto.
Qed.

End OneClip.


End ClipRun.

(** What holds for the three listings of the scenario holds for everything
    its host's answers parse to. *)
Lemma scenario_listings (P : list jobject -> Prop) :
  P scenario_tracks -> P (scenario_tracks ++ [track_object "Audio Track" 0]) ->
  P scenario_clips ->
  forall text clips, json_loads scenario text = Some clips -> P clips.
Proof.
  intros Ht Hu Hc text clips. unfold scenario, environment_of. cbn [json_loads].
  destruct (PyStr.eqb text (lit "[tracks]")); [intros [= <-]; exact Ht|].
  destruct (PyStr.eqb text (lit "[tracks and temp track]"));
    [intros [= <-]; exact Hu|].
  destruct (PyStr.eqb text (lit "[clips]")); [intros [= <-]; exact Hc|].
  discriminate.
Qed.

(** C4 fails on the code.  Both clips of this project meet the four
    conditions of the claim: they are on a track that is not muted, start at
    0 or later and end after they start.  Neither is exported.  The end time
    of the first is an int too large for a float; line 232, which prints the
    times with [:.3f], raises [OverflowError] after the first two lines of
    the announcement, outside the [try] of the loop.  The run ends with exit
    status 1 and the report of an unexpected error; no command for a clip
    was issued, and no clip was reported as skipped. *)
Theorem valid_clip_with_huge_time_ends_run :
  let run := ExportClips.export_clips_individually
               endless (lit "/out") (lit "take_") (lit "flac") initial_world in
  Forall (fun clip => included scenario_tracks clip = true) endless_clips /\
  fst run = SysExit 1 /\
  printed (snd run)
  = [ FoundTracks 2; FoundClips 2; CreatedTemporaryTrack 2;
      ExportingClipCutShort 1 2 (lit "endless") 2;
      UnexpectedErrorReport overflow_error ] /\
  sent (snd run)
  = [ lit "GetInfo: Type=Tracks"; lit "GetInfo: Type=Clips";
      lit "NewStereoTrack:"; lit "GetInfo: Type=Tracks" ]
    ++ clip_mute_commands 3.
Proof.
  intros run. split; [repeat constructor|].
  split; [vm_compute; reflexivity|].
  split; vm_compute; reflexivity.
Qed.

(** * Further properties of the code *)

(** ** pipe.py: responses and the life cycle of the connection *)

Section Trimmed.

Variable p : codepoint -> bool.

Lemma drop_while_head (s : pystr) (c : codepoint) (t : pystr) :
  drop_while p s = c :: t -> p c = false.
Proof.
  induction s as [|x s IH]; simpl; [discriminate|].
  destruct (p x) eqn:Hx; [exact IH|]. intros [= <- _]. exact Hx.
Qed.

Lemma strip_by_head (s : pystr) (c : codepoint) (t : pystr) :
  strip_by p s = c :: t -> p c = false.
Proof. unfold strip_by. rewrite strip_by_comm. apply drop_while_head. Qed.

Lemma strip_by_last (s : pystr) (c : codepoint) (front : pystr) :
  strip_by p s = front ++ [c] -> p c = false.
Proof.
  unfold strip_by, rstrip_by. intros H.
  apply (f_equal (@rev N)) in H. rewrite rev_involutive, rev_app_distr in H.
  simpl in H. exact (drop_while_head _ _ _ H).
Qed.

End Trimmed.

Section PipeLifecycle.
Import Pipe Framing.

Lemma clean_up_trimmed (response : pystr) : strip (clean_up response) = clean_up response.
Proof. unfold clean_up, strip. apply strip_by_idem. Qed.

Lemma receive_response_returns (start_time : Z) (p p' : AudacityPipe) (text : pystr) :
  receive_response start_time p = (Returned text, p') ->
  exists response, text = clean_up response.
Proof.
  unfold receive_response.
  destruct (negb (_is_connected p)); [discriminate|].
  destruct (from_pipe p) as [reads|]; [|discriminate].
  destruct (receive_loop (timeout p) start_time [] reads) as [response rest|rest|response];
    [|discriminate|discriminate].
  intros [= <- _]. exists response. reflexivity.
Qed.

Lemma do_command_returns (opened : pystr + (out_pipe * list read))
    (start_time : Z) (command : pystr) (p p' : AudacityPipe) (text : pystr) :
  do_command opened start_time command p = (Returned text, p') ->
  exists p2, receive_response start_time p2 = (Returned text, p').
Proof.
  unfold do_command.
  destruct (if negb (_is_connected p) then connect opened p else (Returned tt, p))
    as [[[]|e|] p1]; [|discriminate|discriminate].
  destruct (send_command command p1) as [[[]|e|] p2]; [|discriminate|discriminate].
  intros H. exists p2. exact H.
Qed.

(** X1.  A response that [do_command] returns has no white space around it:
    [strip] leaves it as it is, its first character is not white space and
    neither is its last. *)
Theorem do_command_response_trimmed (opened : pystr + (out_pipe * list read))
    (start_time : Z) (command : pystr) (p p' : AudacityPipe) (text : pystr) :
  do_command opened start_time command p = (Returned text, p') ->
  strip text = text /\
  (forall c rest, text = c :: rest -> is_space c = false) /\
  (forall c front, text = front ++ [c] -> is_space c = false).
Proof.
  intros H. apply do_command_returns in H as (p2 & H).
  apply receive_response_returns in H as (response & ->).
  pose proof (clean_up_trimmed response) as Hfix.
  split; [exact Hfix|]. split.
  - intros c rest E. rewrite E in Hfix. exact (strip_by_head _ _ _ _ Hfix).
  - intros c front E. rewrite E in Hfix. exact (strip_by_last _ _ _ _ Hfix).
Qed.

Lemma do_command_response_trimmed_witness :
  let p := listening 10 [ {| line := lit "  [ tracks ] " ++ newline; at_time := 1 |};
                          {| line := newline; at_time := 2 |} ] in
  fst (do_command (inl []) 0 (lit "GetInfo: Type=Tracks") p) = Returned (lit "[ tracks ]") /\
  strip (lit "[ tracks ]") = lit "[ tracks ]".
Proof.
  intros p. split; [reflexivity|].
  apply (do_command_response_trimmed (inl []) 0 (lit "GetInfo: Type=Tracks") p
           (snd (do_command (inl []) 0 (lit "GetInfo: Type=Tracks") p))).
  reflexivity.
Defined.

(** The whole result of a call that finds a terminator in time: the text,
    and the pipe, whose inbound channel holds what follows the terminator. *)
Lemma receive_response_break (start_time : Z) (p : AudacityPipe)
    (pre : list read) (b : read) (rest : list read) :
  _is_connected p = true -> from_pipe p = Some (pre ++ b :: rest) ->
  blank b = true -> has_content pre = true ->
  no_terminator false pre = true ->
  on_time (timeout p) start_time pre = true ->
  receive_response start_time p
  = (Returned (clean_up (content_of pre)), set_from_pipe p rest).
Proof.
  intros Hc Hf Hb Hpre Hterm Htime. unfold receive_response. rewrite Hc, Hf.
  cbn [negb].
  rewrite (receive_loop_app (timeout p) start_time [] pre (b :: rest) Hterm Htime).
  rewrite receive_loop_cons, Hb.
  assert (no_data b = false) as ->.
  { unfold blank in Hb. apply andb_true_iff in Hb as [Hl _].
    unfold no_data. rewrite Hl. reflexivity. }
  rewrite truthy_content_of, Hpre. reflexivity.
Qed.

(** X2.  Responses are matched to commands by their position in the inbound
    channel: a call consumes the reads up to the blank line that ends its
    response and leaves the rest in the channel, so that of two responses
    waiting there the first call returns the first and the next call the
    second. *)
Theorem receive_response_takes_next (start_time start_time' : Z) (p : AudacityPipe)
    (first : list read) (b : read) (second : list read) (b' : read)
    (rest : list read) :
  _is_connected p = true ->
  from_pipe p = Some (first ++ b :: second ++ b' :: rest) ->
  blank b = true -> has_content first = true ->
  no_terminator false first = true ->
  on_time (timeout p) start_time first = true ->
  blank b' = true -> has_content second = true ->
  no_terminator false second = true ->
  on_time (timeout p) start_time' second = true ->
  let (r1, p1) := receive_response start_time p in
  let (r2, p2) := receive_response start_time' p1 in
  r1 = Returned (clean_up (content_of first)) /\
  r2 = Returned (clean_up (content_of second)) /\
  p2 = set_from_pipe p rest.
Proof.
  intros Hc Hf Hb H1 Ht1 Ho1 Hb' H2 Ht2 Ho2.
  rewrite (receive_response_break start_time p first b (second ++ b' :: rest))
    by assumption.
  rewrite (receive_response_break start_time' (set_from_pipe p (second ++ b' :: rest))
             second b' rest) by (try assumption; reflexivity).
  repeat split; reflexivity.
Qed.

Lemma receive_response_takes_next_witness :
  let p := listening 10 [ {| line := ln "[ tracks ]"; at_time := 1 |};
                          {| line := newline; at_time := 1 |};
                          {| line := ln "[ clips ]"; at_time := 3 |};
                          {| line := newline; at_time := 3 |};
                          {| line := ln "later"; at_time := 4 |} ] in
  let (r1, p1) := receive_response 0 p in
  let (r2, p2) := receive_response 2 p1 in
  r1 = Returned (clean_up (lit "[ tracks ]" ++ newline)) /\
  r2 = Returned (clean_up (lit "[ clips ]" ++ newline)) /\
  p2 = set_from_pipe p [ {| line := ln "later"; at_time := 4 |} ].
Proof.
  intros p.
  apply (receive_response_takes_next 0 2 p
           [ {| line := ln "[ tracks ]"; at_time := 1 |} ]
           {| line := newline; at_time := 1 |}
           [ {| line := ln "[ clips ]"; at_time := 3 |} ]
           {| line := newline; at_time := 3 |}
           [ {| line := ln "later"; at_time := 4 |} ]); reflexivity.
Defined.

(** Reads that carry nothing: blank lines, and empty reads by the deadline. *)
Lemma noise_is_consumed (timeout start_time : Z) (noise rest : list read) :
  Forall (fun r => blank r = true \/
                   (no_data r = true /\ at_time r - start_time <= timeout)) noise ->
  receive_loop timeout start_time [] (noise ++ rest)
  = receive_loop timeout start_time [] rest.
Proof.
  induction 1 as [|r noise Hr _ IH]; [reflexivity|].
  change ((r :: noise) ++ rest) with (r :: (noise ++ rest)).
  rewrite receive_loop_cons.
  destruct Hr as [Hb|[Hn Ht]].
  - assert (no_data r = false) as ->.
    { unfold blank in Hb. apply andb_true_iff in Hb as [Hl _].
      unfold no_data. rewrite Hl. reflexivity. }
    rewrite Hb. simpl. exact IH.
  - rewrite Hn. assert ((at_time r - start_time >? timeout) = false) as -> by lia.
    exact IH.
Qed.

(** X3.  Blank lines and empty reads (by the deadline) that come before the
    response are skipped: on a connected pipe the call ends as it does
    without them, with the same result and the same pipe afterwards. *)
Theorem leading_noise_is_skipped (start_time : Z) (p : AudacityPipe)
    (noise reads : list read) :
  _is_connected p = true ->
  Forall (fun r => blank r = true \/
                   (no_data r = true /\ at_time r - start_time <= timeout p)) noise ->
  receive_response start_time (set_from_pipe p (noise ++ reads))
  = receive_response start_time (set_from_pipe p reads).
Proof.
  intros Hc Hnoise. unfold receive_response. simpl. rewrite Hc. simpl.
  rewrite (noise_is_consumed (timeout p) start_time noise reads Hnoise).
  reflexivity.
Qed.

Lemma leading_noise_is_skipped_witness :
  receive_response 0
    (set_from_pipe (listening 10 [])
       ([ {| line := newline; at_time := 1 |};
          {| line := []; at_time := 2 |};
          {| line := lit "  " ++ newline; at_time := 30 |} ]
        ++ [ {| line := ln "[ ]"; at_time := 31 |};
             {| line := newline; at_time := 31 |} ]))
  = receive_response 0
      (set_from_pipe (listening 10 [])
         [ {| line := ln "[ ]"; at_time := 31 |};
           {| line := newline; at_time := 31 |} ]).
Proof.
  apply leading_noise_is_skipped; [reflexivity|].
  constructor; [left; reflexivity|].
  constructor; [right; split; [reflexivity|simpl; lia]|].
  constructor; [left; reflexivity|]. constructor.
Defined.

Lemma connect_timeout (opened : pystr + (out_pipe * list read)) (p : AudacityPipe) :
  timeout (snd (connect opened p)) = timeout p.
Proof.
  unfold connect. destruct (_is_connected p); [reflexivity|].
  destruct opened as [e|[w r]]; reflexivity.
Qed.

Lemma send_command_timeout (command : pystr) (p : AudacityPipe) :
  timeout (snd (send_command command p)) = timeout p.
Proof.
  unfold send_command. destruct (negb (_is_connected p)); [reflexivity|].
  destruct (to_pipe p) as [w|]; [|reflexivity].
  destruct (write_fails w); reflexivity.
Qed.

Lemma receive_response_timeout (start_time : Z) (p : AudacityPipe) :
  timeout (snd (receive_response start_time p)) = timeout p.
Proof.
  unfold receive_response. destruct (negb (_is_connected p)); [reflexivity|].
  destruct (from_pipe p) as [reads|]; [|reflexivity].
  destruct (receive_loop _ _ _ _); reflexivity.
Qed.

Lemma do_command_timeout (opened : pystr + (out_pipe * list read))
    (start_time : Z) (command : pystr) (p : AudacityPipe) :
  timeout (snd (do_command opened start_time command p)) = timeout p.
Proof.
  unfold do_command.
  assert (H1 : timeout (snd (if negb (_is_connected p) then connect opened p
                             else (Returned tt, p))) = timeout p).
  { destruct (negb (_is_connected p)); [apply connect_timeout|reflexivity]. }
  destruct (if negb (_is_connected p) then connect opened p else (Returned tt, p))
    as [[[]|e|] p1]; simpl in H1; try exact H1.
  pose proof (send_command_timeout command p1) as H2.
  destruct (send_command command p1) as [[[]|e|] p2]; simpl in H2;
    try (simpl; congruence).
  rewrite receive_response_timeout. congruence.
Qed.

(** X4.  [quick_command] always closes the connection: when the pipe is
    connected, or can be, the call leaves the object without pipes and not
    connected whether the command returns or raises, also when the object
    was connected before the call. *)
Theorem quick_command_disconnects (opened : pystr + (out_pipe * list read))
    (start_time : Z) (command : pystr) (p : AudacityPipe) :
  _is_connected p = true \/ (exists channels, opened = inr channels) ->
  fst (quick_command opened start_time command p) <> Blocked ->
  snd (quick_command opened start_time command p) = init (timeout p) /\
  is_connected (snd (quick_command opened start_time command p)) = false.
Proof.
  intros Hopen Hr.
  assert (snd (quick_command opened start_time command p) = init (timeout p)) as ->;
    [|split; reflexivity].
  revert Hr. unfold quick_command, __enter__, __exit__.
  assert (exists p1, connect opened p = (Returned tt, p1) /\ timeout p1 = timeout p)
    as (p1 & -> & Ht).
  { unfold connect. destruct Hopen as [->|[[w r] ->]].
    - exists p. split; reflexivity.
    - destruct (_is_connected p); eexists; split; reflexivity. }
  pose proof (do_command_timeout opened start_time command p1) as Ht'.
  destruct (do_command opened start_time command p1) as [[response|e|] p2];
    simpl in *; intros Hr.
  - unfold disconnect, init. rewrite Ht', Ht. reflexivity.
  - unfold disconnect, init. rewrite Ht', Ht. reflexivity.
  - contradiction.
Qed.

Lemma quick_command_disconnects_witness :
  let p := listening 10 [ {| line := ln "[ ]"; at_time := 1 |};
                          {| line := newline; at_time := 1 |} ] in
  snd (quick_command (inl []) 0 (lit "GetInfo: Type=Tracks") p) = init 10 /\
  is_connected (snd (quick_command (inl []) 0 (lit "GetInfo: Type=Tracks") p)) = false.
Proof.
  intros p.
  apply (quick_command_disconnects (inl []) 0 (lit "GetInfo: Type=Tracks") p).
  - left. reflexivity.
  - discriminate.
Defined.

(** X5.  On a connected pipe whose outbound channel accepts the write,
    [do_command] writes one line, the command followed by a line feed, and
    nothing else, whether the response arrives, the wait times out or the
    inbound channel is missing. *)
Theorem do_command_writes_one_line (opened : pystr + (out_pipe * list read))
    (start_time : Z) (command : pystr) (p : AudacityPipe) (channel : out_pipe) :
  _is_connected p = true -> to_pipe p = Some channel ->
  write_fails channel = None ->
  to_pipe (snd (do_command opened start_time command p))
  = Some {| written := written channel ++ [command ++ newline];
            write_fails := None |}.
Proof.
  intros Hc Hto Hw. unfold do_command, send_command, receive_response.
  rewrite Hc. simpl. rewrite ?Hc, Hto, Hw. simpl. rewrite ?Hc. simpl.
  destruct (from_pipe p) as [reads|]; [|reflexivity].
  destruct (receive_loop _ _ _ _); reflexivity.
Qed.

Lemma do_command_writes_one_line_witness :
  to_pipe (snd (do_command (inl []) 0 (lit "SelectAll:")
                  (listening 10 [ {| line := []; at_time := 11 |} ])))
  = Some {| written := [lit "SelectAll:" ++ newline]; write_fails := None |}.
Proof.
  apply (do_command_writes_one_line (inl []) 0 (lit "SelectAll:")
           (listening 10 [ {| line := []; at_time := 11 |} ])
           {| written := []; write_fails := None |}); reflexivity.
Defined.

End PipeLifecycle.
(** ** export_clips_individually.py: what [sanitize_filename] returns *)

Section SanitizePost.
Import ExportClips.

Lemma length_drop_while (p : codepoint -> bool) (s : pystr) :
  (length (drop_while p s) <= length s)%nat.
Proof.
  induction s as [|c s IH]; simpl; [lia|]. destruct (p c); simpl; lia.
Qed.

Lemma length_strip_by (p : codepoint -> bool) (s : pystr) :
  (length (strip_by p s) <= length s)%nat.
Proof.
  unfold strip_by, rstrip_by, lstrip_by. rewrite length_rev.
  etransitivity; [apply length_drop_while|]. rewrite length_rev.
  apply length_drop_while.
Qed.

(** A text whose first and last characters are kept is not changed. *)
Lemma strip_by_fixed (p : codepoint -> bool) (s : pystr) :
  (forall c rest, s = c :: rest -> p c = false) ->
  (forall c front, s = front ++ [c] -> p c = false) ->
  strip_by p s = s.
Proof.
  intros Hhead Hlast. unfold strip_by, lstrip_by, rstrip_by.
  assert (drop_while p s = s) as ->.
  { destruct s as [|c rest]; [reflexivity|]. simpl.
    rewrite (Hhead c rest eq_refl). reflexivity. }
  assert (drop_while p (rev s) = rev s) as ->.
  { destruct (rev s) as [|d x] eqn:Hrev; [reflexivity|]. simpl.
    rewrite (Hlast d (rev x)); [reflexivity|].
    rewrite <- (rev_involutive s), Hrev. reflexivity. }
  apply rev_involutive.
Qed.

Lemma replaced_valid (c : codepoint) : mem (replaced c) invalid_chars = false.
Proof.
  unfold replaced. destruct (mem c invalid_chars) eqn:E; [reflexivity|exact E].
Qed.

Lemma replaced_fixed (c : codepoint) : mem c invalid_chars = false -> replaced c = c.
Proof. unfold replaced. intros ->. reflexivity. Qed.

Section Result.

Variable name : pystr.

Local Abbreviation t := (strip_chars (lit ". ") (List.map replaced name)).
Local Abbreviation cut := (if (200 <? length t)%nat then take 200 t else t).

Lemma sanitize_filename_cut :
  sanitize_filename name = if negb (truthy cut) then lit "unnamed" else cut.
Proof. reflexivity. Qed.

Lemma sanitize_filename_nonempty : sanitize_filename name <> [].
Proof. rewrite sanitize_filename_cut. destruct cut; discriminate. Qed.

Lemma sanitize_filename_length : (length (sanitize_filename name) <= 200)%nat.
Proof.
  rewrite sanitize_filename_cut.
  assert (length cut <= 200)%nat.
  { destruct (Nat.ltb_spec 200 (length t)); [|lia]. rewrite length_take. lia. }
  destruct cut; cbn [truthy negb]; [vm_compute; lia|assumption].
Qed.

Lemma sanitize_filename_valid :
  Forall (fun c => mem c invalid_chars = false) (sanitize_filename name).
Proof.
  rewrite sanitize_filename_cut.
  assert (Hvalid : Forall (fun c => mem c invalid_chars = false) t).
  { apply Forall_strip_by, List.Forall_forall. intros x Hx.
    apply in_map_iff in Hx as (y & <- & _). apply replaced_valid. }
  assert (Forall (fun c => mem c invalid_chars = false) cut).
  { destruct (200 <? length t)%nat; [apply Forall_take|]; exact Hvalid. }
  destruct cut; cbn [truthy negb]; [repeat constructor|assumption].
Qed.

Lemma sanitize_filename_head (c : codepoint) (rest : pystr) :
  sanitize_filename name = c :: rest -> mem c (lit ". ") = false.
Proof.
  rewrite sanitize_filename_cut.
  assert (Hhead : forall c rest, t = c :: rest -> mem c (lit ". ") = false).
  { intros d x. apply (strip_by_head (fun c => mem c (lit ". "))). }
  assert (Hcut : forall c rest, cut = c :: rest -> mem c (lit ". ") = false).
  { destruct (200 <? length t)%nat; [|exact Hhead].
    intros d x. destruct t as [|d' t']; [discriminate|].
    intros [= <- _]. exact (Hhead d' t' eq_refl). }
  destruct cut as [|d x]; cbn [truthy negb].
  - intros [= <- _]. reflexivity.
  - apply Hcut.
Qed.

End Result.

(** X6.  What [sanitize_filename] returns is usable as a file name: it is
    not empty, has at most 200 characters, holds none of the characters of
    [invalid_chars] (no slash among them, so it cannot lead into another
    directory), and does not start with a dot or a space. *)
Theorem sanitize_filename_safe (name : pystr) :
  sanitize_filename name <> [] /\
  (length (sanitize_filename name) <= 200)%nat /\
  Forall (fun c => mem c invalid_chars = false) (sanitize_filename name) /\
  (forall c rest, sanitize_filename name = c :: rest -> mem c (lit ". ") = false).
Proof.
  split; [apply sanitize_filename_nonempty|].
  split; [apply sanitize_filename_length|].
  split; [apply sanitize_filename_valid|apply sanitize_filename_head].
Qed.

(** X7.  The names [sanitize_filename] returns unchanged are exactly the
    clean ones: not empty, at most 200 characters, none of them invalid,
    neither a dot nor a space at either end. *)
Theorem sanitize_filename_fixes_clean_names (name : pystr) :
  sanitize_filename name = name <-> clean_name name.
Proof.
  split.
  - intros Hfix.
    assert (Hlen : (length name <= 200)%nat)
      by (rewrite <- Hfix; apply sanitize_filename_length).
    split; [rewrite <- Hfix; apply sanitize_filename_nonempty|].
    split; [exact Hlen|].
    split; [rewrite <- Hfix; apply sanitize_filename_valid|].
    split; [intros c rest E; apply (sanitize_filename_head name c rest); congruence|].
    intros c front E.
    assert (Hshort : (length (strip_chars (lit ". ") (List.map replaced name))
                      <= 200)%nat).
    { etransitivity; [apply length_strip_by|]. rewrite length_map. exact Hlen. }
    rewrite (sanitize_filename_uncut name Hshort) in Hfix.
    destruct (truthy _).
    + rewrite E in Hfix.
      exact (strip_by_last (fun c => mem c (lit ". ")) _ _ _ Hfix).
    + rewrite E in Hfix. apply (f_equal (fun s => List.last s 0%N)) in Hfix.
      rewrite last_last in Hfix. subst c. reflexivity.
  - intros (Hne & Hlen & Hvalid & Hhead & Hlast).
    assert (Hmap : List.map replaced name = name).
    { apply map_fixed. eapply List.Forall_impl; [|exact Hvalid].
      intros c. apply replaced_fixed. }
    assert (Hstrip : strip_chars (lit ". ") (List.map replaced name) = name).
    { rewrite Hmap. apply strip_by_fixed; assumption. }
    rewrite sanitize_filename_uncut; rewrite Hstrip; [|exact Hlen].
    destruct name; [congruence|reflexivity].
Qed.

(** X8.  On names of at most 200 characters [sanitize_filename] is
    idempotent: the length limit does not cut, and what the first pass
    returns the second leaves alone. *)
Theorem sanitize_filename_idempotent_short (name : pystr) :
  (length name <= 200)%nat ->
  sanitize_filename (sanitize_filename name) = sanitize_filename name.
Proof.
  intros Hlen. apply sanitize_filename_idempotent_uncut.
  etransitivity; [apply length_strip_by|]. rewrite length_map. exact Hlen.
Qed.

Lemma sanitize_filename_idempotent_short_witness :
  sanitize_filename (sanitize_filename (lit " My:Clip*. "))
  = sanitize_filename (lit " My:Clip*. ").
Proof.
  apply sanitize_filename_idempotent_short. vm_compute. lia.
Defined.

End SanitizePost.
(** ** commands.py: optional parameters, flags and paths *)

Section FacadeParameters.

Variable env : environment.

Lemma join_spaced (p : pystr) (params : list pystr) :
  lit " " ++ join (lit " ") (p :: params) = spaced (p :: params).
Proof.
  revert p. induction params as [|q params IH]; intros p.
  - unfold spaced. simpl. rewrite app_nil_r. reflexivity.
  - change (join (lit " ") (p :: q :: params))
      with (p ++ lit " " ++ join (lit " ") (q :: params)).
    rewrite IH.
    change (spaced (p :: q :: params)) with ((lit " " ++ p) ++ spaced (q :: params)).
    rewrite <- app_assoc. reflexivity.
Qed.

Lemma with_params_spaced (verb : pystr) (params : list pystr) :
  Commands.with_params verb params = verb ++ spaced params.
Proof.
  unfold Commands.with_params. destruct params as [|p params]; [reflexivity|].
  rewrite join_spaced. reflexivity.
Qed.

Lemma spaced_app (xs ys : list pystr) : spaced (xs ++ ys) = spaced xs ++ spaced ys.
Proof. unfold spaced. rewrite map_app, concat_app. reflexivity. Qed.

Lemma spaced_param {A : Type} (key : string) (x : option A)
    (render value : A -> pystr) :
  (forall v, render v = lit key ++ lit "=" ++ value v) ->
  spaced (Commands.param x render) = field key (value <$> x).
Proof.
  intros H. destruct x as [v|]; [|reflexivity].
  unfold spaced. simpl. rewrite H, app_nil_r. reflexivity.
Qed.

Lemma spaced_param_text (key : string) (x : option pystr)
    (render : pystr -> pystr) :
  (forall v, render v = lit key ++ lit "=" ++ v) ->
  spaced (Commands.param x render) = field key x.
Proof.
  intros H. rewrite (spaced_param key x render (fun v => v) H).
  destruct x; reflexivity.
Qed.

Ltac one_field :=
  first [ reflexivity
        | apply spaced_param; first [intros []; reflexivity | intros ?; reflexivity]
        | apply spaced_param_text; intros ?; reflexivity ].

Ltac layout :=
  rewrite issued_do_command; f_equal;
  rewrite with_params_spaced, ?spaced_app;
  repeat match goal with
         | |- _ ++ _ = _ ++ _ => apply (f_equal2 (@app N)); [one_field|]
         end;
  one_field.

(** X9.  The nine methods with optional parameters send their verb and then
    the parameters supplied, each as [Key=value] after one space, in the
    order the method fixes; a parameter left out leaves no trace.  Texts
    that name something ([Name], [Text], [Scheme]) stand between single
    quotes, flags are [1] or [0], and [set_label] always sends its label
    number first. *)
Theorem optional_parameters_layout (w : world) :
  (forall high low,
      issued (Commands.select_frequencies env high low) w
      = [lit "SelectFrequencies:"
         ++ field "High" (Commands.of_num env <$> high)
         ++ field "Low" (Commands.of_num env <$> low)]) /\
  (forall name selected focused,
      issued (Commands.set_track_status env name selected focused) w
      = [lit "SetTrackStatus:"
         ++ field "Name" (quoted <$> name)
         ++ field "Selected" (digit <$> selected)
         ++ field "Focused" (digit <$> focused)]) /\
  (forall mute solo gain pan,
      issued (Commands.set_track_audio env mute solo gain pan) w
      = [lit "SetTrackAudio:"
         ++ field "Mute" (digit <$> mute)
         ++ field "Solo" (digit <$> solo)
         ++ field "Gain" (Commands.of_num env <$> gain)
         ++ field "Pan" (Commands.of_num env <$> pan)]) /\
  (forall height display scale color vzoom vzoom_high vzoom_low spec_prefs
          spectral_sel scheme,
      issued (Commands.set_track_visuals env height display scale color vzoom
                vzoom_high vzoom_low spec_prefs spectral_sel scheme) w
      = [lit "SetTrackVisuals:"
         ++ field "Height" (of_int <$> height)
         ++ field "Display" display
         ++ field "Scale" scale
         ++ field "Color" color
         ++ field "VZoom" vzoom
         ++ field "VZoomHigh" (Commands.of_num env <$> vzoom_high)
         ++ field "VZoomLow" (Commands.of_num env <$> vzoom_low)
         ++ field "SpecPrefs" (digit <$> spec_prefs)
         ++ field "SpectralSel" (digit <$> spectral_sel)
         ++ field "Scheme" (quoted <$> scheme)]) /\
  (forall name selected focused mute solo gain pan height display scale color,
      issued (Commands.set_track env name selected focused mute solo gain pan
                height display scale color) w
      = [lit "SetTrack:"
         ++ field "Name" (quoted <$> name)
         ++ field "Selected" (digit <$> selected)
         ++ field "Focused" (digit <$> focused)
         ++ field "Mute" (digit <$> mute)
         ++ field "Solo" (digit <$> solo)
         ++ field "Gain" (Commands.of_num env <$> gain)
         ++ field "Pan" (Commands.of_num env <$> pan)
         ++ field "Height" (of_int <$> height)
         ++ field "Display" display
         ++ field "Scale" scale
         ++ field "Color" color]) /\
  (forall at_ color start,
      issued (Commands.set_clip env at_ color start) w
      = [lit "SetClip:"
         ++ field "At" (Commands.of_num env <$> at_)
         ++ field "Color" color
         ++ field "Start" (Commands.of_num env <$> start)]) /\
  (forall time value delete,
      issued (Commands.set_envelope env time value delete) w
      = [lit "SetEnvelope:"
         ++ field "Time" (Commands.of_num env <$> time)
         ++ field "Value" (Commands.of_num env <$> value)
         ++ field "Delete" (digit <$> delete)]) /\
  (forall label text start end_ selected,
      issued (Commands.set_label env label text start end_ selected) w
      = [lit "SetLabel:"
         ++ field "Label" (Some (of_int label))
         ++ field "Text" (quoted <$> text)
         ++ field "Start" (Commands.of_num env <$> start)
         ++ field "End" (Commands.of_num env <$> end_)
         ++ field "Selected" (digit <$> selected)]) /\
  (forall name rate x y width height,
      issued (Commands.set_project env name rate x y width height) w
      = [lit "SetProject:"
         ++ field "Name" (quoted <$> name)
         ++ field "Rate" (Commands.of_num env <$> rate)
         ++ field "X" (of_int <$> x)
         ++ field "Y" (of_int <$> y)
         ++ field "Width" (of_int <$> width)
         ++ field "Height" (of_int <$> height)]).
Proof.
  repeat split; intros.
  - unfold Commands.select_frequencies. layout.
  - unfold Commands.set_track_status. layout.
  - unfold Commands.set_track_audio. layout.
  - unfold Commands.set_track_visuals. layout.
  - unfold Commands.set_track. layout.
  - unfold Commands.set_clip. layout.
  - unfold Commands.set_envelope. layout.
  - unfold Commands.set_label.
    change (lit "SetLabel: " ++ join (lit " ") ?ps)
      with (Commands.with_params (lit "SetLabel:") ps).
    rewrite issued_do_command. f_equal.
    rewrite with_params_spaced, ?spaced_app.
    apply (f_equal2 (@app N)); [reflexivity|].
    apply (f_equal2 (@app N)).
    { unfold spaced. simpl. rewrite app_nil_r. reflexivity. }
    repeat match goal with
           | |- _ ++ _ = _ ++ _ => apply (f_equal2 (@app N)); [one_field|]
           end.
    one_field.
  - unfold Commands.set_project. layout.
Qed.

Lemma carries_param (verb : pystr) (params : list pystr) (field : pystr) :
  In field params -> carries (Commands.with_params verb params) field.
Proof.
  intros Hin. apply in_split in Hin as (xs & ys & ->).
  rewrite with_params_spaced, spaced_app.
  exists (verb ++ spaced xs), (spaced ys). split.
  - change (spaced (field :: ys)) with ((lit " " ++ field) ++ spaced ys).
    rewrite <- !app_assoc. reflexivity.
  - destruct ys as [|y ys]; [left; reflexivity|right].
    exists (y ++ spaced ys). reflexivity.
Qed.

Ltac flag_field :=
  eexists; split; [apply issued_do_command|];
  apply carries_param; cbn [Commands.param];
  rewrite ?in_app_iff; cbn [In]; auto 20.

(** X10.  Seven methods convert their flags: every flag supplied to
    [set_track_status], [set_track_audio], [set_track_visuals], [set_track],
    [set_envelope], [set_label] or [set_preference] is a field [Key=1] or
    [Key=0] of the command sent, whatever the other parameters are. *)
Theorem converted_flags_are_digits (w : world) (b : bool) :
  (forall name focused,
      exists c, issued (Commands.set_track_status env name (Some b) focused) w = [c] /\
                carries c (lit "Selected=" ++ digit b)) /\
  (forall name selected,
      exists c, issued (Commands.set_track_status env name selected (Some b)) w = [c] /\
                carries c (lit "Focused=" ++ digit b)) /\
  (forall solo gain pan,
      exists c, issued (Commands.set_track_audio env (Some b) solo gain pan) w = [c] /\
                carries c (lit "Mute=" ++ digit b)) /\
  (forall mute gain pan,
      exists c, issued (Commands.set_track_audio env mute (Some b) gain pan) w = [c] /\
                carries c (lit "Solo=" ++ digit b)) /\
  (forall height display scale color vzoom vzoom_high vzoom_low spectral_sel scheme,
      exists c, issued (Commands.set_track_visuals env height display scale color
                          vzoom vzoom_high vzoom_low (Some b) spectral_sel scheme) w
                = [c] /\
                carries c (lit "SpecPrefs=" ++ digit b)) /\
  (forall height display scale color vzoom vzoom_high vzoom_low spec_prefs scheme,
      exists c, issued (Commands.set_track_visuals env height display scale color
                          vzoom vzoom_high vzoom_low spec_prefs (Some b) scheme) w
                = [c] /\
                carries c (lit "SpectralSel=" ++ digit b)) /\
  (forall name focused mute solo gain pan height display scale color,
      exists c, issued (Commands.set_track env name (Some b) focused mute solo gain
                          pan height display scale color) w = [c] /\
                carries c (lit "Selected=" ++ digit b)) /\
  (forall name selected mute solo gain pan height display scale color,
      exists c, issued (Commands.set_track env name selected (Some b) mute solo gain
                          pan height display scale color) w = [c] /\
                carries c (lit "Focused=" ++ digit b)) /\
  (forall name selected focused solo gain pan height display scale color,
      exists c, issued (Commands.set_track env name selected focused (Some b) solo
                          gain pan height display scale color) w = [c] /\
                carries c (lit "Mute=" ++ digit b)) /\
  (forall name selected focused mute gain pan height display scale color,
      exists c, issued (Commands.set_track env name selected focused mute (Some b)
                          gain pan height display scale color) w = [c] /\
                carries c (lit "Solo=" ++ digit b)) /\
  (forall time value,
      exists c, issued (Commands.set_envelope env time value (Some b)) w = [c] /\
                carries c (lit "Delete=" ++ digit b)) /\
  (forall label text start end_,
      exists c, issued (Commands.set_label env label text start end_ (Some b)) w = [c] /\
                carries c (lit "Selected=" ++ digit b)) /\
  (forall name value,
      exists c, issued (Commands.set_preference env name value b) w = [c] /\
                carries c (lit "Reload=" ++ digit b)).
Proof.
  destruct b; repeat split; intros; try flag_field;
    (eexists; split; [apply issued_do_command|]).
  - change (lit "SetLabel: " ++ join (lit " ") ?ps)
      with (Commands.with_params (lit "SetLabel:") ps).
    apply carries_param; cbn [Commands.param]; rewrite ?in_app_iff; cbn [In]; auto 20.
  - exists (lit "SetPreference: Name='" ++ name ++ lit "' Value='" ++ value ++ lit "'"), [].
    split; [|left; reflexivity]. rewrite <- !app_assoc. reflexivity.
  - change (lit "SetLabel: " ++ join (lit " ") ?ps)
      with (Commands.with_params (lit "SetLabel:") ps).
    apply carries_param; cbn [Commands.param]; rewrite ?in_app_iff; cbn [In]; auto 20.
  - exists (lit "SetPreference: Name='" ++ name ++ lit "' Value='" ++ value ++ lit "'"), [].
    split; [|left; reflexivity]. rewrite <- !app_assoc. reflexivity.
Qed.

Lemma replace_backslashes (filename : pystr) :
  replace (lit "\") (lit "/") filename = slashed filename.
Proof.
  unfold replace, slashed. induction filename as [|c s IH]; [reflexivity|].
  cbn [replace_from List.map]. rewrite <- IH.
  change (starts_with (lit "\") (c :: s)) with ((92 =? c)%N && true).
  rewrite andb_true_r, (N.eqb_sym 92 c).
  destruct (c =? 92)%N; reflexivity.
Qed.

(** X11.  [export_audio] sends the path with a slash for every backslash
    and every other character as it is: the path sent has the length of
    the one given and no backslash, and a path without backslashes is sent
    unchanged. *)
Theorem export_audio_converts_backslashes (filename : pystr) (num_channels : Z)
    (w : world) :
  issued (Commands.export_audio env filename num_channels) w
  = [lit "Export2: Filename=" ++ Commands.dquote ++ slashed filename
     ++ Commands.dquote ++ lit " NumChannels=" ++ of_int num_channels] /\
  length (slashed filename) = length filename /\
  mem 92%N (slashed filename) = false /\
  (forall i c, filename !! i = Some c -> c <> 92%N -> slashed filename !! i = Some c) /\
  (forall i, filename !! i = Some 92%N -> slashed filename !! i = Some 47%N) /\
  (mem 92%N filename = false -> slashed filename = filename).
Proof.
  split.
  { unfold Commands.export_audio. rewrite issued_do_command, replace_backslashes.
    reflexivity. }
  split; [apply length_map|].
  split.
  { unfold slashed, mem. induction filename as [|c s IH]; [reflexivity|].
    cbn [List.map existsb]. rewrite IH, orb_false_r.
    destruct (N.eqb_spec c 92) as [->|Hne]; [reflexivity|].
    apply N.eqb_neq. congruence. }
  split.
  { intros i c Hi Hc. unfold slashed.
    change (List.map ?f filename) with (f <$> filename).
    rewrite list_lookup_fmap, Hi. simpl.
    apply N.eqb_neq in Hc. rewrite Hc. reflexivity. }
  split.
  { intros i Hi. unfold slashed.
    change (List.map ?f filename) with (f <$> filename).
    rewrite list_lookup_fmap, Hi. reflexivity. }
  unfold slashed, mem. induction filename as [|c s IH]; [reflexivity|].
  cbn [List.map existsb]. intros H. apply orb_false_iff in H as [Hc Hs].
  rewrite N.eqb_sym in Hc. rewrite Hc, IH by exact Hs. reflexivity.
Qed.

End FacadeParameters.
(** ** export_clips_individually.py: the output path of a clip *)

Section FirstFreePath.
Import ExportClips.

Variable env : environment.
Variable w : world.
Variables output_dir prefix file_extension safe_name : pystr.

Local Abbreviation path := (candidate output_dir prefix safe_name file_extension).



End FirstFreePath.
(** ** Both scripts: exit status and reports *)

Section Unreported.

Variable env : environment.

Local Abbreviation plain :=
  (fun (_ : list pystr) (more : list message) => unreported more).

Lemma plain_bind {A B : Type} (m : M A) (k : A -> M B) :
  emits plain m -> (forall a, emits plain (k a)) -> emits plain (bind m k).
Proof.
  intros Hm Hk. apply (emits_bind plain plain); auto.
  intros. apply Forall_app. split; assumption.
Qed.

Lemma plain_print (msg : message) :
  handler_report msg = false -> emits plain (print msg).
Proof. intros H. apply emits_print. repeat constructor. exact H. Qed.

Lemma plain_do_command (command : pystr) :
  emits plain (Commands.do_command env command).
Proof. apply emits_do_command. constructor. Qed.

Lemma plain_ret {A : Type} (a : A) : emits plain (ret a).
Proof. apply emits_pure; [reflexivity|constructor]. Qed.

Lemma plain_for_each {A : Type} (xs : list A) (body : A -> M unit) :
  (forall x, emits plain (body x)) -> emits plain (for_each xs body).
Proof.
  intros H. apply emits_for_each; [constructor| |exact H].
  intros. apply Forall_app. split; assumption.
Qed.

Lemma plain_loads (text : pystr) : emits plain (ExportClips.loads env text).
Proof.
  unfold ExportClips.loads. destruct (json_loads env text);
    (apply emits_pure; [reflexivity|constructor]).
Qed.

Lemma plain_lift {A : Type} (r : result A) : emits plain (lift r).
Proof. apply emits_lift. constructor. Qed.

Lemma plain_announce_clip (i total : nat) (clip_name : pystr) (track_number : Z)
    (start_time end_time : pynum) (output_path : pystr) :
  emits plain (ExportClips.announce_clip i total clip_name track_number
                                         start_time end_time output_path).
Proof. apply emits_announce_clip; repeat constructor. Qed.

Ltac plain :=
  repeat first
    [ apply plain_ret
    | apply plain_do_command
    | apply plain_loads
    | apply plain_lift
    | apply plain_announce_clip
    | apply plain_print; reflexivity
    | apply plain_for_each; intros ?
    | apply plain_bind; [|intros ?] ].

Section Clips.
Import ExportClips.

Variables output_dir prefix file_extension : pystr.

Lemma plain_unmuted_clips (status : gmap Z bool) (clips_data : list jobject) :
  emits plain (unmuted_clips status clips_data).
Proof.
  induction clips_data as [|clip rest IH]; cbn [unmuted_clips]; [plain|].
  destruct (negb (is_muted status clip)); plain; exact IH.
Qed.

Lemma plain_clip_loop (t : Z) (total i : nat) (clips : list jobject) (count : nat) :
  emits plain (clip_loop env output_dir prefix file_extension t total i clips count).
Proof.
  revert i count. induction clips as [|clip rest IH]; intros i count;
    cbn [clip_loop]; [plain|].
  destruct (invalid_data clip); [plain; apply IH|].
  apply plain_bind.
  { apply emits_pure; [|constructor]. intros w.
    destruct (choose_output_path_state env output_dir prefix file_extension
                (sanitize_filename
                   (get (j_name clip) (lit "clip_" ++ of_int (Z.of_nat i)))) w)
      as [path ->]. reflexivity. }
  intros output_path. apply plain_bind; [plain|]. intros _.
  apply plain_bind; [|intros ?; apply IH].
  apply (emits_try_except plain plain); auto.
  - unfold export_clip, clear_temp_track. plain;
      unfold Commands.select_none, Commands.select_tracks, Commands.select_time,
        Commands.copy, Commands.delete, Commands.paste, Commands.export_audio;
      plain.
  - intros e. plain.
  - intros. apply Forall_app. split; assumption.
Qed.

Lemma plain_export_clips_body :
  emits plain (export_clips_body env output_dir prefix file_extension).
Proof.
  unfold export_clips_body, Commands.get_info, Commands.new_stereo_track.
  apply plain_bind; [plain|]. intros tracks_info.
  apply plain_bind; [plain|]. intros tracks_data.
  apply plain_bind; [plain|]. intros _.
  apply plain_bind; [plain|]. intros clips_info.
  destruct (json_loads env clips_info) as [[|c cs]|]; [plain| |plain].
  apply plain_bind; [apply plain_unmuted_clips|]. intros [|k ks]; [plain|].
  apply plain_bind; [plain|]. intros _.
  apply plain_bind; [plain|]. intros _.
  apply plain_bind; [plain|]. intros ?.
  apply plain_bind; [plain|]. intros ?.
  apply plain_bind; [plain|]. intros _.
  apply plain_bind.
  { unfold mute_all_but. apply plain_for_each. intros t.
    unfold Commands.select_none, Commands.select_tracks, Commands.set_track_audio.
    plain. destruct (t =? _); plain. }
  intros _. apply plain_bind; [apply plain_clip_loop|]. intros ?. plain.
Qed.

End Clips.

Section Tracks.
Import ExportTracks.

Variables output_dir base_filename file_extension : pystr.

Lemma plain_track_loop (n i : nat) (tracks : list jobject) :
  emits plain (track_loop env output_dir base_filename file_extension n i tracks).
Proof.
  revert i. induction tracks as [|track rest IH]; intros i; cbn [track_loop];
    [plain|].
  unfold mute_all, Commands.select_tracks, Commands.set_track_audio,
    Commands.select_all, Commands.export_audio.
  plain. apply IH.
Qed.

Lemma plain_export_tracks_body :
  emits plain (export_tracks_body env output_dir base_filename file_extension).
Proof.
  unfold export_tracks_body, Commands.get_info.
  apply plain_bind; [plain|]. intros tracks_info.
  destruct (json_loads env tracks_info) as [tracks_data|]; [|plain].
  destruct (length tracks_data =? 0)%nat; [plain|].
  apply plain_bind; [plain|]. intros _.
  apply plain_bind; [apply plain_track_loop|]. intros _.
  unfold unmute_all, Commands.select_tracks, Commands.set_track_audio. plain.
Qed.

End Tracks.

(** A run of [with_pipe] from the initial world leaves the pipe
    disconnected, and has printed what its body has. *)
Lemma with_pipe_run (body : M unit) :
  emits plain body ->
  connected (snd (with_pipe env body initial_world)) = false /\
  unreported (printed (snd (with_pipe env body initial_world))).
Proof.
  intros Hbody. destruct (connect_error env) as [e|] eqn:Hc.
  - rewrite (with_pipe_refused env _ _ e Hc). split; [reflexivity|constructor].
  - rewrite (with_pipe_connected env _ _ Hc). split; [reflexivity|].
    destruct (Hbody (connected_world initial_world true)) as (new & more & _ & Hp & H).
    simpl in *. rewrite Hp. exact H.
Qed.

Lemma ends_with_report (status : exit_status) (lines : list message)
    (report : message) :
  unreported lines -> handler_report report = true ->
  ends_consistently (SysExit 1) (lines ++ [report]).
Proof. intros Hl Hr. split; [reflexivity|]. exists lines, report. auto. Qed.

(** X13.  Both export scripts end in one of two ways, and their output
    tells which: the run completes and none of the handlers' reports has
    been printed, or it exits with status 1 and its last line, and no other,
    is the report of the handler that caught the exception.  In both cases
    the pipe has been disconnected. *)
Theorem exit_status_matches_report (output_dir name file_extension : pystr) :
  (let run := ExportClips.export_clips_individually env output_dir name
                file_extension initial_world in
   connected (snd run) = false /\
   ends_consistently (fst run) (printed (snd run))) /\
  (let run := ExportTracks.export_tracks_individually env output_dir name
                file_extension initial_world in
   connected (snd run) = false /\
   ends_consistently (fst run) (printed (snd run))).
Proof.
  split; intros run; subst run.
  - unfold ExportClips.export_clips_individually.
    destruct (with_pipe_run _ (plain_export_clips_body output_dir name file_extension))
      as [Hc Hp].
    destruct (with_pipe env _ initial_world) as [[[]|[msg| |msg]] w1];
      simpl in *; (split; [exact Hc|]);
      try exact Hp; apply (ends_with_report (SysExit 1)); auto.
  - unfold ExportTracks.export_tracks_individually.
    destruct (with_pipe_run _ (plain_export_tracks_body output_dir name file_extension))
      as [Hc Hp].
    destruct (with_pipe env _ initial_world) as [[[]|[msg| |msg]] w1];
      simpl in *; (split; [exact Hc|]);
      try exact Hp; apply (ends_with_report (SysExit 1)); auto.
Qed.

End Unreported.
(** ** Both scripts: runs that end before anything is exported *)

Section EarlyReturns.

Variable env : environment.
Variables output_dir name file_extension : pystr.

Lemma do_command_responds (command text : pystr) (w : world) :
  respond env (sent w) command = Responds text ->
  Commands.do_command env command w
  = (Val text, {| sent := sent w ++ [command]; printed := printed w;
                  connected := connected w |}).
Proof. intros H. unfold Commands.do_command. rewrite H. reflexivity. Qed.

Lemma do_command_fails (command msg : pystr) (w : world) :
  respond env (sent w) command = Fails msg ->
  Commands.do_command env command w
  = (Exc (AudacityError msg),
     {| sent := sent w ++ [command]; printed := printed w;
        connected := connected w |}).
Proof. intros H. unfold Commands.do_command. rewrite H. reflexivity. Qed.

Local Abbreviation tracks_query := (lit "GetInfo: Type=Tracks").
Local Abbreviation clips_query := (lit "GetInfo: Type=Clips").

(** X14.  A listing that does not parse ends the clip workflow at once, in
    two different ways: for the track listing the [JSONDecodeError] reaches
    the outer handler and the script exits with status 1; for the clip
    listing the error is caught on the spot, the response is printed and the
    script returns normally.  Nothing but the queries has been sent. *)
Theorem unparsable_listing_ends_clip_run (tracks_info : pystr) :
  connect_error env = None ->
  respond env [] tracks_query = Responds tracks_info ->
  (json_loads env tracks_info = None ->
   ExportClips.export_clips_individually env output_dir name file_extension
     initial_world
   = (SysExit 1,
      {| sent := [tracks_query]; printed := [JSONErrorReport];
         connected := false |})) /\
  (forall tracks_data clips_info,
   json_loads env tracks_info = Some tracks_data ->
   respond env [tracks_query] clips_query = Responds clips_info ->
   json_loads env clips_info = None ->
   ExportClips.export_clips_individually env output_dir name file_extension
     initial_world
   = (Completed,
      {| sent := [tracks_query; clips_query];
         printed := [FoundTracks (length tracks_data); ParseErrorReport clips_info];
         connected := false |})).
Proof.
  intros Hc Ht. unfold ExportClips.export_clips_individually.
  rewrite (with_pipe_connected env _ _ Hc). split.
  - intros Hl.
    assert (ExportClips.export_clips_body env output_dir name file_extension
              (connected_world initial_world true)
            = (Exc JSONDecodeError,
               {| sent := [tracks_query]; printed := []; connected := true |}))
      as ->; [|reflexivity].
    unfold ExportClips.export_clips_body, Commands.get_info.
    change (lit "GetInfo: Type=" ++ lit "Tracks") with tracks_query.
    unfold bind at 1.
    rewrite (do_command_responds tracks_query tracks_info) by exact Ht.
    unfold ExportClips.loads. rewrite Hl. reflexivity.
  - intros tracks_data clips_info Hl Hcl Hlc.
    assert (ExportClips.export_clips_body env output_dir name file_extension
              (connected_world initial_world true)
            = (Val tt,
               {| sent := [tracks_query; clips_query];
                  printed := [FoundTracks (length tracks_data);
                              ParseErrorReport clips_info];
                  connected := true |}))
      as ->; [|reflexivity].
    unfold ExportClips.export_clips_body, Commands.get_info.
    change (lit "GetInfo: Type=" ++ lit "Tracks") with tracks_query.
    change (lit "GetInfo: Type=" ++ lit "Clips") with clips_query.
    unfold bind at 1.
    rewrite (do_command_responds tracks_query tracks_info) by exact Ht.
    unfold ExportClips.loads. rewrite Hl.
    unfold bind at 1. unfold ret at 1. cbv beta iota.
    unfold bind at 1. rewrite print_run. cbv beta iota.
    unfold bind at 1.
    rewrite (do_command_responds clips_query clips_info) by exact Hcl.
    rewrite Hlc. reflexivity.
Qed.




(** X16.  The track workflow ends normally, having sent its one query and
    nothing else, when the listing does not parse or lists no track; the
    exit status is not 1 in either case. *)
Theorem no_tracks_to_export (tracks_info : pystr) :
  connect_error env = None ->
  respond env [] tracks_query = Responds tracks_info ->
  json_loads env tracks_info = None \/ json_loads env tracks_info = Some [] ->
  ExportTracks.export_tracks_individually env output_dir name file_extension
    initial_world
  = (Completed,
     {| sent := [tracks_query];
        printed := [match json_loads env tracks_info with
                    | None => ParseErrorReport tracks_info
                    | Some _ => NoTracksFound
                    end];
        connected := false |}).
Proof.
  intros Hc Ht Hl. unfold ExportTracks.export_tracks_individually.
  rewrite (with_pipe_connected env _ _ Hc).
  assert (ExportTracks.export_tracks_body env output_dir name file_extension
            (connected_world initial_world true)
          = (Val tt,
             {| sent := [tracks_query];
                printed := [match json_loads env tracks_info with
                            | None => ParseErrorReport tracks_info
                            | Some _ => NoTracksFound
                            end];
                connected := true |}))
    as ->; [|reflexivity].
  unfold ExportTracks.export_tracks_body, Commands.get_info.
  change (lit "GetInfo: Type=" ++ lit "Tracks") with tracks_query.
  unfold bind at 1.
  rewrite (do_command_responds tracks_query tracks_info) by exact Ht.
  destruct Hl as [->| ->]; reflexivity.
Qed.

End EarlyReturns.

Lemma unparsable_listing_ends_clip_run_witness :
  ExportClips.export_clips_individually silent_host (lit "/out") [] (lit "wav")
    initial_world
  = (SysExit 1,
     {| sent := [lit "GetInfo: Type=Tracks"]; printed := [JSONErrorReport];
        connected := false |}) /\
  ExportClips.export_clips_individually garbled_clips (lit "/out") [] (lit "wav")
    initial_world
  = (Completed,
     {| sent := [lit "GetInfo: Type=Tracks"; lit "GetInfo: Type=Clips"];
        printed := [FoundTracks 2; ParseErrorReport (lit "garbled")];
        connected := false |}).
Proof.
  split.
  - apply (proj1 (unparsable_listing_ends_clip_run silent_host (lit "/out") []
                    (lit "wav") [] eq_refl eq_refl)).
    reflexivity.
  - apply (proj2 (unparsable_listing_ends_clip_run garbled_clips (lit "/out") []
                    (lit "wav") (lit "[tracks]") eq_refl eq_refl)
             scenario_tracks (lit "garbled")); reflexivity.
Defined.


Lemma no_tracks_to_export_witness :
  ExportTracks.export_tracks_individually silent_host (lit "/out") (lit "track")
    (lit "wav") initial_world
  = (Completed,
     {| sent := [lit "GetInfo: Type=Tracks"];
        printed := [ParseErrorReport []]; connected := false |}).
Proof.
  apply (no_tracks_to_export silent_host (lit "/out") (lit "track") (lit "wav") []);
    try reflexivity.
  left. reflexivity.
Defined.
(** ** export_clips_individually.py: the summary line *)

Section Tallies.

Lemma tallies_refl (w w' : world) : printed w' = printed w -> tallies w w' 0 0 0.
Proof. intros H. exists []. rewrite app_nil_r. auto. Qed.

Lemma tallies_trans (w1 w2 w3 : world) (c1 f1 i1 c2 f2 i2 : nat) :
  tallies w1 w2 c1 f1 i1 -> tallies w2 w3 c2 f2 i2 ->
  tallies w1 w3 (c1 + c2) (f1 + f2) (i1 + i2).
Proof.
  intros (m1 & Hp1 & <- & <- & <-) (m2 & Hp2 & <- & <- & <-). exists (m1 ++ m2).
  rewrite Hp2, Hp1, <- app_assoc.
  unfold completed_exports, failed_exports, invalid_clips.
  rewrite !List.filter_app, !length_app. auto.
Qed.

Lemma tallies_print (msg : message) (w w' : world) :
  print msg w = (Val tt, w') ->
  tallies w w' (completed_exports [msg]) (failed_exports [msg]) (invalid_clips [msg]).
Proof. intros [= <-]. exists [msg]. auto. Qed.

Lemma tallies_eq (w w' : world) (c f i c' f' i' : nat) :
  tallies w w' c f i -> c = c' -> f = f' -> i = i' -> tallies w w' c' f' i'.
Proof. intros H <- <- <-. exact H. Qed.

Lemma tallies_silent {A : Type} (m : M A) (w w' : world) (r : result A) :
  silent m -> m w = (r, w') -> tallies w w' 0 0 0.
Proof. intros Hm H. apply tallies_refl. rewrite <- (Hm w), H. reflexivity. Qed.

End Tallies.

Section ClipCount.
Import ExportClips.

Variable env : environment.
Variables output_dir prefix file_extension : pystr.

Lemma unmuted_clips_tallies (status : gmap Z bool) (clips_data : list jobject)
    (w w' : world) (kept : list jobject) :
  unmuted_clips status clips_data w = (Val kept, w') -> tallies w w' 0 0 0.
Proof.
  revert w w' kept. induction clips_data as [|clip rest IH]; intros w w' kept;
    cbn [unmuted_clips].
  - intros [= <- <-]. apply tallies_refl. reflexivity.
  - destruct (negb (is_muted status clip)).
    + intros H. apply bind_val in H as (k & w1 & H1 & H2).
      injection H2 as _ <-. exact (IH _ _ _ H1).
    + intros H. apply bind_val in H as ([] & w1 & H1 & H2).
      exact (tallies_trans _ _ _ _ _ _ _ _ _ (tallies_print _ _ _ H1) (IH _ _ _ H2)).
Qed.

(** The loop over the clips, when it returns: every clip has ended in
    exactly one of three ways, and the count returned is the number of
    completed exports. *)
Lemma clip_loop_tallies (t : Z) (total : nat) (clips : list jobject) :
  forall (i count : nat) (w : world) (n : nat) (w' : world),
  clip_loop env output_dir prefix file_extension t total i clips count w
  = (Val n, w') ->
  exists c f s,
    n = (count + c)%nat /\ tallies w w' c f s /\ (c + f + s)%nat = length clips.
Proof.
  induction clips as [|clip rest IH]; intros i count w n w' Hrun.
  - injection Hrun as <- <-. exists 0%nat, 0%nat, 0%nat. rewrite Nat.add_0_r.
    split; [reflexivity|]. split; [apply tallies_refl|]; reflexivity.
  - destruct (invalid_data clip) eqn:Hinv; [|destruct (printable clip) eqn:Hpr].
    + rewrite clip_loop_invalid in Hrun by exact Hinv.
      destruct (IH _ _ _ _ _ Hrun)
        as (c & f & s & -> & (more & Hp & Hc & Hf & Hs) & Hsum).
      exists c, f, (S s). split; [reflexivity|]. split; [|simpl; lia].
      exists (SkippingInvalid (name_of i clip) :: more).
      simpl in Hp. rewrite Hp, <- app_assoc.
      split; [reflexivity|]. cbn. rewrite <- Hc, <- Hf, <- Hs. auto.
    + destruct (clip_loop_valid env output_dir prefix file_extension t total i
                  clip rest count w Hinv Hpr)
        as (k & n1 & line & count' & w3 & Heq & _ & Hp3 & Hline).
      rewrite Heq in Hrun.
      destruct (IH _ _ _ _ _ Hrun)
        as (c & f & s & -> & (more & Hp & Hc & Hf & Hs) & Hsum).
      destruct Hline as [(-> & -> & _)|(e & -> & -> & _)].
      * exists (S c), f, s. split; [lia|]. split; [|simpl; lia].
        eexists (_ :: ExportComplete :: more).
        rewrite Hp, Hp3, <- app_assoc.
        split; [reflexivity|]. cbn. rewrite <- Hc, <- Hf, <- Hs. auto.
      * exists c, (S f), s. split; [lia|]. split; [|simpl; lia].
        eexists (_ :: FailedToExportClip e :: more).
        rewrite Hp, Hp3, <- app_assoc.
        split; [reflexivity|]. cbn. rewrite <- Hc, <- Hf, <- Hs. auto.
    + rewrite clip_loop_unprintable in Hrun by assumption. discriminate Hrun.
Qed.

Lemma loads_run (text : pystr) (w w' : world) (data : list jobject) :
  loads env text w = (Val data, w') -> w' = w.
Proof.
  unfold loads. destruct (json_loads env text); [|discriminate].
  intros [= _ <-]. reflexivity.
Qed.

Lemma tallies_do_command (command text : pystr) (w w' : world) :
  Commands.do_command env command w = (Val text, w') -> tallies w w' 0 0 0.
Proof. apply tallies_silent, silent_do_command. Qed.

(** What a body that returns has printed: its last line, and the tallies of
    the lines before it. *)
Lemma export_clips_body_tallies (w w' : world) :
  export_clips_body env output_dir prefix file_extension w = (Val tt, w') ->
  exists w1 last,
    printed w' = printed w1 ++ [last] /\
    match last with
    | ExportedClips n total dir =>
        dir = output_dir /\
        exists f s, tallies w w1 n f s /\ total = (n + f + s)%nat
    | _ => True
    end.
Proof.
  intros Hbody. unfold export_clips_body in Hbody.
  apply bind_val in Hbody as (info & w2 & Hget & Hbody).
  apply bind_val in Hbody as (td & w3 & Hloads & Hbody).
  apply loads_run in Hloads as ->.
  apply bind_val in Hbody as ([] & w4 & Hp4 & Hbody).
  apply bind_val in Hbody as (cinfo & w5 & Hget5 & Hbody).
  pose proof (tallies_trans _ _ _ _ _ _ _ _ _ (tallies_do_command _ _ _ _ Hget)
             (tallies_trans _ _ _ _ _ _ _ _ _ (tallies_print _ _ _ Hp4)
                (tallies_do_command _ _ _ _ Hget5))) as L.
  simpl in L.
  destruct (json_loads env cinfo) as [[|c cs]|];
    try (injection Hbody as <-; eexists; eexists; split; [reflexivity|exact I]).
  apply bind_val in Hbody as (kept & w6 & Hun & Hbody).
  pose proof (tallies_trans _ _ _ _ _ _ _ _ _ L
                (unmuted_clips_tallies _ _ _ _ _ Hun)) as L6.
  simpl in L6. clear L.
  destruct kept as [|k ks];
    [injection Hbody as <-; eexists; eexists; split; [reflexivity|exact I]|].
  apply bind_val in Hbody as ([] & w7 & Hp7 & Hbody).
  apply bind_val in Hbody as (? & w8 & Hc8 & Hbody).
  apply bind_val in Hbody as (? & w9 & Hc9 & Hbody).
  apply bind_val in Hbody as (tdu & w10 & Hl10 & Hbody).
  apply loads_run in Hl10 as ->.
  apply bind_val in Hbody as ([] & w11 & Hp11 & Hbody).
  apply bind_val in Hbody as ([] & w12 & Hm12 & Hbody).
  apply bind_val in Hbody as (n & w13 & Hloop & Hbody).
  destruct (clip_loop_tallies _ _ _ _ _ _ _ _ Hloop) as (c' & f & s & -> & L13 & Hsum).
  injection Hbody as <-. exists w13. eexists. split; [reflexivity|].
  split; [reflexivity|]. exists f, s. split; [|simpl in *; lia].
  pose proof (tallies_trans _ _ _ _ _ _ _ _ _ L6
    (tallies_trans _ _ _ _ _ _ _ _ _ (tallies_print _ _ _ Hp7)
    (tallies_trans _ _ _ _ _ _ _ _ _ (tallies_do_command _ _ _ _ Hc8)
    (tallies_trans _ _ _ _ _ _ _ _ _ (tallies_do_command _ _ _ _ Hc9)
    (tallies_trans _ _ _ _ _ _ _ _ _ (tallies_print _ _ _ Hp11)
    (tallies_trans _ _ _ _ _ _ _ _ _
       (tallies_silent _ _ _ _ (silent_mute_all_but env _ _) Hm12) L13))))))
    as Lall.
  apply (tallies_eq _ _ _ _ _ _ _ _ Lall); reflexivity.
Qed.

(** X17.  When the clip workflow ends with its summary line, the numbers
    in it are those of the lines above it: the count of exported clips is
    the number of [Export complete] lines, and the total is that count plus
    the number of clips that failed plus the number of clips passed over for
    their data.  The run has completed, and the directory named is the one
    given. *)
Theorem summary_counts_the_lines (status : exit_status) (w' : world)
    (before : list message) (exported_count total : nat) (dir : pystr) :
  export_clips_individually env output_dir prefix file_extension initial_world
  = (status, w') ->
  printed w' = before ++ [ExportedClips exported_count total dir] ->
  status = Completed /\ dir = output_dir /\
  exported_count = completed_exports before /\
  total = (completed_exports before + failed_exports before
           + invalid_clips before)%nat.
Proof.
  unfold export_clips_individually. intros Hrun Hlast.
  destruct (connect_error env) as [e|] eqn:Hc.
  { rewrite (with_pipe_refused env _ _ e Hc) in Hrun. injection Hrun as <- <-.
    apply (app_inj_tail []) in Hlast as [_ Hlast]. discriminate Hlast. }
  rewrite (with_pipe_connected env _ _ Hc) in Hrun.
  destruct (export_clips_body env output_dir prefix file_extension
              (connected_world initial_world true)) as [[[]|e] w1] eqn:Hbody;
    simpl in Hrun.
  2:{ destruct e; injection Hrun as <- <-; simpl in Hlast;
        apply app_inj_tail in Hlast as [_ Hlast]; discriminate Hlast. }
  injection Hrun as <- <-. simpl in Hlast.
  destruct (export_clips_body_tallies _ _ Hbody) as (w2 & last & Hp & Hshape).
  rewrite Hp in Hlast. apply app_inj_tail in Hlast as [<- ->].
  destruct Hshape as (-> & f & s & (more & Hmore & <- & <- & <-) & ->).
  simpl in Hmore. rewrite Hmore. auto.
Qed.

End ClipCount.

Lemma summary_counts_the_lines_witness :
  let run := ExportClips.export_clips_individually
               scenario (lit "/out") (lit "take_") (lit "flac") initial_world in
  exists before,
    printed (snd run) = before ++ [ExportedClips 2 2 (lit "/out")] /\
    completed_exports before = 2%nat /\
    failed_exports before = 0%nat /\ invalid_clips before = 0%nat.
Proof.
  intros run.
  exists (removelast (printed (snd run))).
  assert (Hlast : printed (snd run)
                  = removelast (printed (snd run))
                    ++ [ExportedClips 2 2 (lit "/out")])
    by (vm_compute; reflexivity).
  destruct (summary_counts_the_lines scenario (lit "/out") (lit "take_") (lit "flac")
              (fst run) (snd run) (removelast (printed (snd run))) 2 2 (lit "/out")
              (surjective_pairing run) Hlast) as (_ & _ & Hn & Ht).
  split; [exact Hlast|]. split; [symmetry; exact Hn|].
  assert (Hf : failed_exports (removelast (printed (snd run))) = 0%nat)
    by (vm_compute; reflexivity).
  split; [exact Hf|]. rewrite <- Hn, Hf in Ht. lia.
Defined.
(** ** export_tracks_individually.py: the commands of a run *)

Section Sends.

Variable env : environment.

Lemma sends_ret {A : Type} (a : A) : sends [] (ret a).
Proof. intros w. exists 0%nat. simpl. rewrite app_nil_r. auto. Qed.

Lemma sends_print (msg : message) : sends [] (print msg).
Proof. intros w. exists 0%nat. simpl. rewrite app_nil_r. auto. Qed.

Lemma sends_do_command (command : pystr) :
  sends [command] (Commands.do_command env command).
Proof.
  intros w. exists 1%nat. unfold Commands.do_command.
  destruct (respond env (sent w) command); simpl; auto.
Qed.

Lemma sends_bind {A B : Type} (c1 c2 : list pystr) (m : M A) (k : A -> M B) :
  sends c1 m -> (forall a, sends c2 (k a)) -> sends (c1 ++ c2) (bind m k).
Proof.
  intros Hm Hk w. destruct (Hm w) as (n1 & Hs1 & Hfull). unfold bind.
  destruct (m w) as [[a|e] w1]; simpl in *.
  - destruct (Hk a w1) as (n2 & Hs2 & Hfull2).
    exists (length c1 + n2)%nat. rewrite (Hfull a eq_refl) in Hs1.
    rewrite take_app_ge, Hs2, Hs1 by lia.
    replace (length c1 + n2 - length c1)%nat with n2 by lia.
    rewrite <- app_assoc. split; [reflexivity|].
    intros b Hb. rewrite (Hfull2 b Hb). reflexivity.
  - exists (min n1 (length c1)). rewrite take_app_le by lia.
    rewrite Hs1. split; [|discriminate].
    f_equal. destruct (Nat.le_ge_cases n1 (length c1)).
    + rewrite Nat.min_l by assumption. reflexivity.
    + rewrite Nat.min_r, firstn_all, take_ge by assumption. reflexivity.
Qed.

Lemma sends_eq {A : Type} (c c' : list pystr) (m : M A) :
  sends c m -> c = c' -> sends c' m.
Proof. intros H <-. exact H. Qed.

Lemma sends_print_then {B : Type} (msg : message) (c : list pystr)
    (k : unit -> M B) :
  (forall a, sends c (k a)) -> sends c (bind (print msg) k).
Proof. intros Hk. exact (sends_bind [] c _ _ (sends_print msg) Hk). Qed.

Lemma sends_command_then {B : Type} (command : pystr) (c : list pystr)
    (k : pystr -> M B) :
  (forall a, sends c (k a)) ->
  sends (command :: c) (bind (Commands.do_command env command) k).
Proof. intros Hk. exact (sends_bind [command] c _ _ (sends_do_command command) Hk). Qed.

Lemma sends_for_each {A : Type} (f : A -> list pystr) (xs : list A)
    (body : A -> M unit) :
  (forall x, sends (f x) (body x)) -> sends (flat_map f xs) (for_each xs body).
Proof.
  intros Hbody. induction xs as [|x xs IH]; simpl.
  - apply sends_ret.
  - apply sends_bind; [apply Hbody|intros _; exact IH].
Qed.

(** A step that selects a track and sets its mute flag. *)
Lemma sends_set_mute (j : Z) (mute : bool) :
  sends [Host.select_one j; lit "SetTrackAudio: Mute=" ++ digit mute]
    (Commands.select_tracks env j 1 (lit "Set") ;;
     Commands.set_track_audio env (Some mute) None None None ;;
     ret tt)%py.
Proof.
  unfold Commands.select_tracks, Commands.set_track_audio.
  apply sends_command_then. intros _.
  destruct mute; (apply sends_command_then; intros _; apply sends_ret).
Qed.

Section Tracks.
Import ExportTracks.

Variables output_dir base_filename file_extension : pystr.

Lemma sends_mute_all (n : nat) : sends (mute_commands n) (mute_all env n).
Proof.
  unfold mute_all, mute_commands. apply sends_for_each. intros j.
  apply (sends_set_mute j true).
Qed.

Lemma sends_unmute_all (n : nat) : sends (restore_commands n) (unmute_all env n).
Proof.
  unfold unmute_all, restore_commands. apply sends_for_each. intros j.
  apply (sends_set_mute j false).
Qed.

Lemma sends_track_loop (n i : nat) (tracks : list jobject) :
  sends (flat_map (track_commands output_dir base_filename file_extension n)
                  (seq i (length tracks)))
        (track_loop env output_dir base_filename file_extension n i tracks).
Proof.
  revert i. induction tracks as [|track rest IH]; intros i;
    cbn [track_loop length seq]; [apply sends_ret|].
  change (flat_map ?f (i :: ?l)) with (f i ++ flat_map f l).
  apply sends_print_then. intros _.
  unfold track_commands at 1, solo_commands. rewrite <- !app_assoc.
  apply sends_bind; [apply sends_mute_all|]. intros _.
  unfold Commands.select_tracks, Commands.set_track_audio, Commands.select_all,
    Commands.export_audio.
  cbn [app].
  do 4 (apply sends_command_then; intros _).
  apply sends_print_then. intros _. apply IH.
Qed.

(** What the body sends, once the listing is known. *)
Lemma sends_export_tracks_body (tracks_info : pystr) (tracks_data : list jobject)
    (w : world) :
  respond env (sent w) (lit "GetInfo: Type=Tracks") = Responds tracks_info ->
  json_loads env tracks_info = Some tracks_data ->
  let run := export_tracks_body env output_dir base_filename file_extension w in
  exists n,
    sent (snd run)
    = sent w ++ take n (track_run_commands output_dir base_filename file_extension
                                           (length tracks_data)) /\
    (fst run = Val tt ->
     sent (snd run)
     = sent w ++ track_run_commands output_dir base_filename file_extension
                                    (length tracks_data)).
Proof.
  intros Ht Hl run.
  set (w1 := {| sent := sent w ++ [lit "GetInfo: Type=Tracks"];
                printed := printed w; connected := connected w |}).
  set (tracks := tracks_data).
  assert (Hrun : run
            = (if (length tracks =? 0)%nat then print NoTracksFound
               else
                 print (FoundTracks (length tracks)) ;;
                 track_loop env output_dir base_filename file_extension
                            (length tracks) 1 tracks ;;
                 print RestoringTrackStates ;;
                 unmute_all env (length tracks) ;;
                 print AllTracksUnmuted ;;
                 print (AllTracksExported output_dir))%py w1).
  { subst run. unfold export_tracks_body, Commands.get_info.
    change (lit "GetInfo: Type=" ++ lit "Tracks") with (lit "GetInfo: Type=Tracks").
    unfold bind at 1. rewrite (do_command_responds env _ tracks_info) by exact Ht.
    rewrite Hl. reflexivity. }
  rewrite Hrun. clear Hrun. unfold track_run_commands.
  destruct (length tracks =? 0)%nat eqn:Hlen.
  { apply Nat.eqb_eq in Hlen. rewrite Hlen. exists 1%nat. simpl. auto. }
  assert (Hsends : sends
            (flat_map (track_commands output_dir base_filename file_extension
                         (length tracks)) (seq 1 (length tracks))
             ++ restore_commands (length tracks))
            (print (FoundTracks (length tracks)) ;;
             track_loop env output_dir base_filename file_extension (length tracks)
                        1 tracks ;;
             print RestoringTrackStates ;;
             unmute_all env (length tracks) ;;
             print AllTracksUnmuted ;;
             print (AllTracksExported output_dir))%py).
  { apply sends_print_then. intros _.
    apply sends_bind; [apply sends_track_loop|]. intros _.
    apply sends_print_then. intros _.
    apply (sends_eq (restore_commands (length tracks) ++ []));
      [|apply app_nil_r].
    apply sends_bind; [apply sends_unmute_all|]. intros _.
    apply sends_print_then. intros _. apply sends_print. }
  destruct (Hsends w1) as (n & Hs & Hfull).
  exists (S n). cbn [app take]. simpl sent in Hs. rewrite Hs, <- app_assoc.
  split; [reflexivity|].
  intros Hval. rewrite (Hfull tt Hval). reflexivity.
Qed.

(** X18.  Once the listing is known, the commands of a run of the track
    workflow are fixed: the query, then for each track in turn the commands
    that mute every track, unmute this one, select everything and export it
    under its number, then the restore step.  A run that completes has
    sent all of them, a run that fails a first part of them, in this
    order. *)
Theorem track_run_follows_the_plan (status : exit_status) (w' : world)
    (tracks_info : pystr) (tracks_data : list jobject) :
  export_tracks_individually env output_dir base_filename file_extension
                             initial_world = (status, w') ->
  connect_error env = None ->
  respond env [] (lit "GetInfo: Type=Tracks") = Responds tracks_info ->
  json_loads env tracks_info = Some tracks_data ->
  (exists k, sent w'
             = take k (track_run_commands output_dir base_filename file_extension
                                          (length tracks_data))) /\
  (status = Completed ->
   sent w' = track_run_commands output_dir base_filename file_extension
                                (length tracks_data)).
Proof.
  unfold export_tracks_individually. intros Hrun Hc Ht Hl.
  rewrite (with_pipe_connected env _ _ Hc) in Hrun.
  destruct (sends_export_tracks_body tracks_info tracks_data
              (connected_world initial_world true) Ht Hl) as (k & Hs & Hfull).
  simpl in Hs, Hfull.
  destruct (fst (export_tracks_body env output_dir base_filename file_extension
                   (connected_world initial_world true))) as [[]|e].
  - injection Hrun as <- <-. simpl. split; [eauto|]. intros _. apply Hfull.
    reflexivity.
  - split; [|destruct e; injection Hrun as <- _; discriminate].
    exists k. destruct e; injection Hrun as _ <-; exact Hs.
Qed.

End Tracks.

End Sends.

Lemma track_run_follows_the_plan_witness :
  let run := ExportTracks.export_tracks_individually
               answering_host (lit "/out") (lit "track") (lit "wav") initial_world in
  sent (snd run) = track_run_commands (lit "/out") (lit "track") (lit "wav") 2.
Proof.
  intros run.
  apply (proj2 (track_run_follows_the_plan answering_host (lit "/out") (lit "track")
                  (lit "wav") (fst run) (snd run) (lit "[tracks]") two_tracks
                  (surjective_pairing run) eq_refl eq_refl eq_refl)).
  vm_compute. reflexivity.
Defined.
(** ** export_tracks_individually.py: each track is exported alone *)

Section HostSolo.
Import Host.

Lemma mute_selected (n j : nat) (flags : list bool) :
  length flags = n ->
  zip_with (fun s m => s || m) (List.map (Nat.eqb j) (seq 0 n)) flags
  = <[ j := true ]> flags.
Proof.
  intros Hn. apply list_eq. intros i.
  rewrite lookup_zip_with.
  change (List.map (Nat.eqb j) (seq 0 n)) with (Nat.eqb j <$> seq 0 n).
  rewrite list_lookup_fmap.
  destruct (decide (i < n)%nat) as [Hi|Hi].
  - rewrite lookup_seq_lt by exact Hi. simpl.
    destruct (flags !! i) as [m|] eqn:Hm;
      [|apply lookup_ge_None in Hm; lia].
    simpl. destruct (Nat.eqb_spec j i) as [->|Hne].
    + rewrite list_lookup_insert_eq by lia. reflexivity.
    + rewrite list_lookup_insert_ne by exact Hne. rewrite Hm. reflexivity.
  - rewrite lookup_seq_ge by lia. simpl.
    symmetry. apply lookup_ge_None. rewrite length_insert. lia.
Qed.

(** Selecting track [j] and muting the selection sets the flag of [j]. *)
Lemma mute_one (n j : nat) (st : state) :
  well_formed n st -> (j < n)%nat ->
  let st' := run st [select_one (Z.of_nat j); lit "SetTrackAudio: Mute=1"] in
  well_formed n st' /\ muted st' = <[ j := true ]> (muted st).
Proof.
  intros [Hs Hm] Hj. simpl. rewrite (step_select_one n j st Hm Hj).
  unfold step at 1. cbn [PyStr.eqb lit]. simpl.
  rewrite (mute_selected n j (muted st) Hm).
  split; [|reflexivity]. split; simpl.
  - rewrite length_map. apply length_seq.
  - rewrite length_insert. exact Hm.
Qed.

Lemma mute_upto (n j : nat) (st : state) :
  well_formed n st -> (j <= n)%nat ->
  let st' := run st (flat_map (fun i => [select_one i; lit "SetTrackAudio: Mute=1"])
                              (range j)) in
  well_formed n st' /\
  forall i, (i < j)%nat -> muted st' !! i = Some true.
Proof.
  intros Hwf. induction j as [|j IH]; intros Hj.
  - simpl. split; [exact Hwf|]. intros i Hi. lia.
  - destruct (IH ltac:(lia)) as [Hwf' Hset]. clear IH.
    unfold range in *. rewrite seq_S, map_app, flat_map_app. simpl.
    unfold run in *. rewrite fold_left_app.
    set (st1 := fold_left step _ st) in *.
    destruct (mute_one n j st1 Hwf' ltac:(lia)) as [Hwf2 Hm].
    unfold run in Hwf2, Hm. simpl in Hwf2, Hm. simpl.
    split; [exact Hwf2|].
    intros i Hi. rewrite Hm. destruct (decide (i = j)) as [->|Hne].
    + apply list_lookup_insert_eq. destruct Hwf' as [_ Hlen]. lia.
    + rewrite list_lookup_insert_ne by congruence. apply Hset. lia.
Qed.

Lemma lookup_only_unmuted (n j i : nat) :
  (i < n)%nat -> only_unmuted n j !! i = Some (negb (i =? j)%nat).
Proof.
  intros Hi. unfold only_unmuted.
  change (List.map ?f (seq 0 n)) with (f <$> seq 0 n).
  rewrite list_lookup_fmap, lookup_seq_lt by exact Hi. reflexivity.
Qed.

Lemma length_only_unmuted (n j : nat) : length (only_unmuted n j) = n.
Proof. unfold only_unmuted. rewrite length_map. apply length_seq. Qed.

(** After the commands that lead up to the export of track [i], that track
    alone is audible, whatever the flags were. *)
Lemma solo_commands_run (n i : nat) (st : state) :
  well_formed n st -> (1 <= i <= n)%nat ->
  muted (run st (solo_commands n i)) = only_unmuted n (i - 1).
Proof.
  intros Hwf Hi. unfold solo_commands, run. rewrite fold_left_app.
  destruct (mute_upto n n st Hwf ltac:(lia)) as [Hwf1 Hset].
  unfold mute_commands. unfold run in Hwf1, Hset.
  set (st1 := fold_left step _ st) in *.
  replace (Z.of_nat i - 1) with (Z.of_nat (i - 1)) by lia.
  destruct (restore_one n (i - 1) st1 Hwf1 ltac:(lia)) as [Hwf2 Hm].
  unfold run in Hwf2, Hm.
  change (fold_left step [select_one (Z.of_nat (i - 1)); lit "SetTrackAudio: Mute=0";
                          lit "SelectAll:"] st1)
    with (step (fold_left step [select_one (Z.of_nat (i - 1));
                                lit "SetTrackAudio: Mute=0"] st1)
               (lit "SelectAll:")).
  set (st2 := fold_left step [_; _] st1) in *.
  change (muted (step st2 (lit "SelectAll:"))) with (muted st2).
  rewrite Hm. apply list_eq. intros k.
  destruct Hwf1 as [_ Hlen].
  destruct (decide (k < n)%nat) as [Hk|Hk].
  - rewrite lookup_only_unmuted by exact Hk.
    destruct (Nat.eqb_spec k (i - 1)) as [->|Hne].
    + apply list_lookup_insert_eq. lia.
    + rewrite list_lookup_insert_ne by congruence. apply Hset, Hk.
  - rewrite (proj2 (lookup_ge_None _ _)) by (rewrite length_insert; lia).
    symmetry. apply lookup_ge_None. rewrite length_only_unmuted. lia.
Qed.

End HostSolo.

Section ExportedAlone.
Import ExportTracks.

Variable env : environment.
Variables output_dir base_filename file_extension : pystr.

Local Abbreviation quiet_list :=
  (Forall (fun c : pystr => is_export c = false)).

(** Where an export command sits in a list that has one after commands of
    other kinds. *)
Lemma first_export (S R pre post : list pystr) (e c : pystr) :
  quiet_list S -> is_export c = true ->
  S ++ e :: R = pre ++ c :: post ->
  (pre = S /\ c = e /\ post = R) \/
  (exists pre', pre = S ++ e :: pre' /\ R = pre' ++ c :: post).
Proof.
  intros HS Hc. revert pre. induction HS as [|s S Hs _ IH]; intros pre H.
  - destruct pre as [|x pre']; injection H as -> ->; [left|right]; eauto.
  - destruct pre as [|x pre']; injection H as -> H.
    + congruence.
    + destruct (IH pre' H) as [(-> & -> & ->)|(p & -> & ->)]; [left|right]; eauto.
Qed.

Lemma quiet_mute_commands (n : nat) : quiet_list (mute_commands n).
Proof.
  unfold mute_commands. induction (range n) as [|j js IH]; [constructor|].
  simpl. repeat constructor. exact IH.
Qed.

Lemma quiet_restore_commands (n : nat) : quiet_list (restore_commands n).
Proof.
  unfold restore_commands. induction (range n) as [|j js IH]; [constructor|].
  simpl. repeat constructor. exact IH.
Qed.

Lemma quiet_solo_commands (n i : nat) : quiet_list (solo_commands n i).
Proof.
  unfold solo_commands. apply Forall_app. split; [apply quiet_mute_commands|].
  repeat constructor.
Qed.

Local Abbreviation block := (track_commands output_dir base_filename file_extension).
Local Abbreviation export := (export_track_command output_dir base_filename file_extension).

(** In the commands for a list of tracks, every export command is the one
    of a track of the list, and it is issued when that track alone is
    audible. *)
Lemma export_in_blocks (n : nat) (tracks : list nat) :
  forall (st : Host.state) (rest pre post : list pystr) (c : pystr),
  Host.well_formed n st ->
  (forall i, In i tracks -> (1 <= i <= n)%nat) ->
  quiet_list rest ->
  flat_map (block n) tracks ++ rest = pre ++ c :: post ->
  is_export c = true ->
  exists i, In i tracks /\ c = export i /\
    Host.muted (Host.run st pre) = only_unmuted n (i - 1).
Proof.
  induction tracks as [|i tracks IH]; intros st rest pre post c Hwf Hin Htail H Hc.
  - simpl in H. exfalso. subst rest.
    pose proof (proj1 (List.Forall_forall _ _) Htail c (in_elt c pre post)) as Hq.
    simpl in Hq. congruence.
  - change (flat_map (block n) (i :: tracks))
      with (block n i ++ flat_map (block n) tracks) in H.
    unfold track_commands at 1 in H. rewrite <- !app_assoc in H. cbn [app] in H.
    destruct (first_export _ _ _ _ _ _ (quiet_solo_commands n i) Hc H)
      as [(-> & -> & _)|(pre' & -> & H')].
    + exists i. split; [left; reflexivity|]. split; [reflexivity|].
      apply solo_commands_run; [exact Hwf|]. apply Hin. left. reflexivity.
    + assert (Hwf' : Host.well_formed n
                       (Host.run st (solo_commands n i ++ [export i])))
        by apply run_well_formed, Hwf.
      assert (Hin' : forall k, In k tracks -> (1 <= k <= n)%nat)
        by (intros k Hk; apply Hin; right; exact Hk).
      destruct (IH _ rest pre' post c Hwf' Hin' Htail H' Hc) as (k & Hk & Hck & Hm).
      exists k. split; [right; exact Hk|]. split; [exact Hck|].
      rewrite <- Hm. unfold Host.run. rewrite <- fold_left_app.
      rewrite <- app_assoc. reflexivity.
Qed.

(** X19.  Each track is exported alone.  Whenever a run of the track
    workflow issues an [Export2] command, it is the export of one of the
    tracks, under the file name with that track's number, and on the host
    this track is then the only one that is not muted. *)
Theorem each_track_is_exported_alone (status : exit_status) (w' : world)
    (tracks_info : pystr) (tracks_data : list jobject)
    (pre post : list pystr) (c : pystr) :
  export_tracks_individually env output_dir base_filename file_extension
                             initial_world = (status, w') ->
  connect_error env = None ->
  respond env [] (lit "GetInfo: Type=Tracks") = Responds tracks_info ->
  json_loads env tracks_info = Some tracks_data ->
  sent w' = pre ++ c :: post ->
  is_export c = true ->
  exists i,
    (1 <= i <= length tracks_data)%nat /\
    c = export_track_command output_dir base_filename file_extension i /\
    Host.muted (Host.run (Host.initial tracks_data) pre)
    = only_unmuted (length tracks_data) (i - 1).
Proof.
  unfold export_tracks_individually. intros Hrun Hc Ht Hl Hsent Hexp.
  rewrite (with_pipe_connected env _ _ Hc) in Hrun.
  destruct (sends_export_tracks_body env output_dir base_filename file_extension
              tracks_info tracks_data (connected_world initial_world true) Ht Hl)
    as (k & Hs & _).
  simpl in Hs.
  assert (Hw : sent w'
               = sent (snd (export_tracks_body env output_dir base_filename
                              file_extension (connected_world initial_world true)))).
  { destruct (fst _) as [[]|[]]; injection Hrun as _ <-; reflexivity. }
  rewrite <- Hw, Hsent in Hs. clear Hw Hrun.
  set (n := length tracks_data) in *.
  assert (Hall : track_run_commands output_dir base_filename file_extension n
                 = pre ++ c :: (post ++ drop k (track_run_commands output_dir
                                                  base_filename file_extension n))).
  { rewrite <- (take_drop k (track_run_commands _ _ _ n)) at 1.
    rewrite <- Hs, <- app_assoc. reflexivity. }
  unfold track_run_commands in Hall at 1. cbn [app] in Hall.
  destruct pre as [|q pre]; injection Hall as Hq Hall.
  { subst c. discriminate Hexp. }
  subst q.
  assert (Hwf : Host.well_formed n (Host.initial tracks_data)).
  { split; simpl; [apply repeat_length|apply length_map]. }
  assert (Hwf' : Host.well_formed n
                   (Host.step (Host.initial tracks_data) (lit "GetInfo: Type=Tracks")))
    by apply step_well_formed, Hwf.
  assert (Hin : forall i, In i (seq 1 n) -> (1 <= i <= n)%nat)
    by (intros i Hi; apply in_seq in Hi; lia).
  destruct (export_in_blocks n (seq 1 n) _ _ _ _ c Hwf' Hin
              (quiet_restore_commands n) Hall Hexp) as (i & Hi & Hci & Hm).
  exists i. split; [apply Hin, Hi|]. split; [exact Hci|exact Hm].
Qed.

Lemma digits_no_backslash (d : Decimal.uint) :
  mem 92%N (lit (NilEmpty.string_of_uint d)) = false.
Proof. induction d; simpl; auto. Qed.

Lemma of_int_no_backslash (z : Z) : mem 92%N (of_int z) = false.
Proof.
  unfold of_int. destruct (Z.to_int z) as [d|d]; simpl;
    apply digits_no_backslash.
Qed.

Lemma slashed_fixed (s : pystr) : mem 92%N s = false -> slashed s = s.
Proof.
  unfold slashed, mem. induction s as [|c s IH]; [reflexivity|].
  cbn [List.map existsb]. intros H. apply orb_false_iff in H as [Hc Hs].
  rewrite N.eqb_sym in Hc. rewrite Hc, IH by exact Hs. reflexivity.
Qed.

Lemma slashed_app (s t : pystr) : slashed (s ++ t) = slashed s ++ slashed t.
Proof. apply map_app. Qed.

Lemma numbered_absolute (x y : pystr) :
  starts_with (lit "/") (base_filename ++ lit "_" ++ x)
  = starts_with (lit "/") (base_filename ++ lit "_" ++ y).
Proof. destruct base_filename; reflexivity. Qed.

(** X20.  The tracks of a run go to different files: two different tracks
    never get the same export command, whatever the directory, the base name
    and the extension are, because the file name carries the number of the
    track.  (Unlike the clip workflow, the track workflow does not look
    whether a file exists.) *)
Theorem tracks_go_to_distinct_files (i j : nat) :
  i <> j ->
  export_track_command output_dir base_filename file_extension i
  <> export_track_command output_dir base_filename file_extension j.
Proof.
  unfold export_track_command. intros Hne H. apply Hne.
  apply app_inv_head, app_inv_head, app_inv_tail in H.
  rewrite !replace_backslashes in H.
  assert (Hnum : slashed (of_int (Z.of_nat i) ++ lit "." ++ file_extension)
                 = slashed (of_int (Z.of_nat j) ++ lit "." ++ file_extension)).
  { unfold path_join in H.
    rewrite (numbered_absolute (of_int (Z.of_nat i) ++ lit "." ++ file_extension)
               (of_int (Z.of_nat j) ++ lit "." ++ file_extension)) in H.
    destruct (starts_with (lit "/") _);
      [|destruct (negb (truthy output_dir) || ends_with (lit "/") output_dir)];
      rewrite !slashed_app in H; repeat apply app_inv_head in H;
      rewrite <- !slashed_app in H; exact H. }
  rewrite !slashed_app in Hnum. apply app_inv_tail in Hnum.
  rewrite !slashed_fixed in Hnum by apply of_int_no_backslash.
  apply of_int_inj in Hnum. lia.
Qed.

End ExportedAlone.

Lemma each_track_is_exported_alone_witness :
  let run := ExportTracks.export_tracks_individually
               answering_host (lit "/out") (lit "track") (lit "wav") initial_world in
  exists i,
    (1 <= i <= 2)%nat /\
    sent (snd run) !! 16%nat
    = Some (export_track_command (lit "/out") (lit "track") (lit "wav") i) /\
    Host.muted (Host.run (Host.initial two_tracks) (take 16 (sent (snd run))))
    = only_unmuted 2 (i - 1).
Proof.
  intros run.
  assert (Hsplit : sent (snd run)
                   = take 16 (sent (snd run))
                     ++ export_track_command (lit "/out") (lit "track") (lit "wav") 2
                     :: drop 17 (sent (snd run)))
    by (vm_compute; reflexivity).
  destruct (each_track_is_exported_alone answering_host (lit "/out") (lit "track")
              (lit "wav") (fst run) (snd run) (lit "[tracks]") two_tracks
              _ _ _ (surjective_pairing run) eq_refl eq_refl eq_refl Hsplit eq_refl)
    as (i & Hi & Hc & Hm).
  exists i. split; [exact Hi|]. split; [|exact Hm].
  rewrite <- Hc. vm_compute. reflexivity.
Defined.

Lemma tracks_go_to_distinct_files_witness :
  export_track_command (lit "/out") (lit "track") (lit "wav") 1
  <> export_track_command (lit "/out") (lit "track") (lit "wav") 2.
Proof.
  apply (tracks_go_to_distinct_files (lit "/out") (lit "track") (lit "wav") 1 2).
  lia.
Defined.
(** ** export_clips_individually.py: the mute flags *)

Section ClipMute.
Import ExportClips.

Variable env : environment.
Variables output_dir prefix file_extension : pystr.

Local Abbreviation quiet_list :=
  (Forall (fun c : pystr => is_export c = false)).

Local Abbreviation untouched :=
  (fun (new : list pystr) (_ : list message) => Forall mute_free new).

(** Two command texts that differ in their third character differ. *)
Ltac by_third_character :=
  let H := fresh in
  intros H; apply (f_equal (fun s => nth 2 s 0%N)) in H; lazy in H; discriminate H.

Ltac mute_free_command := split; by_third_character.

Lemma untouched_bind {A B : Type} (m : M A) (k : A -> M B) :
  emits untouched m -> (forall a, emits untouched (k a)) -> emits untouched (bind m k).
Proof.
  intros Hm Hk. apply (emits_bind untouched untouched); auto.
  intros. apply Forall_app. split; assumption.
Qed.

Lemma untouched_print (msg : message) : emits untouched (print msg).
Proof. apply emits_print. constructor. Qed.

Lemma untouched_ret {A : Type} (a : A) : emits untouched (ret a).
Proof. apply emits_pure; [reflexivity|constructor]. Qed.

Lemma untouched_clip_commands (n : nat) (t track_idx : Z)
    (start_time end_time : pynum) (output_path : pystr) :
  Forall mute_free
    (take n (clip_commands env t track_idx start_time end_time output_path)).
Proof.
  apply Forall_take. unfold clip_commands, clear_range.
  destruct (num_sub env end_time start_time) as [duration|e]; cbn [app];
    repeat (constructor; [mute_free_command|]); constructor.
Qed.

Lemma untouched_clip_loop (t : Z) (total i : nat) (clips : list jobject)
    (count : nat) :
  emits untouched
        (clip_loop env output_dir prefix file_extension t total i clips count).
Proof.
  revert i count. induction clips as [|clip rest IH]; intros i count;
    cbn [clip_loop]; [apply untouched_ret|].
  destruct (invalid_data clip).
  { apply untouched_bind; [apply untouched_print|intros _; apply IH]. }
  apply untouched_bind.
  { apply emits_pure; [|constructor]. intros w.
    destruct (choose_output_path_state env output_dir prefix file_extension
                (sanitize_filename
                   (get (j_name clip) (lit "clip_" ++ of_int (Z.of_nat i)))) w)
      as [path ->]. reflexivity. }
  intros output_path. apply untouched_bind.
  { apply emits_announce_clip; constructor. }
  intros _. apply untouched_bind; [|intros ?; apply IH].
  apply (emits_try_except untouched untouched); auto.
  - apply untouched_bind.
    + apply (emits_weaken _ _ _ (emits_issues _ _ (issues_export_clip env _ _ _ _ _))).
      intros new more (n & -> & _). apply untouched_clip_commands.
    + intros _. apply untouched_bind; [apply untouched_print|].
      intros _. apply untouched_ret.
  - intros e. apply untouched_bind; [apply untouched_print|].
    intros _. apply untouched_ret.
  - intros. apply Forall_app. split; assumption.
Qed.

Lemma issues_for_each {A : Type} (f : A -> list pystr) (xs : list A)
    (body : A -> M unit) :
  (forall x, issues (f x) (body x)) -> issues (flat_map f xs) (for_each xs body).
Proof.
  intros Hbody. induction xs as [|x xs IH]; simpl.
  - apply issues_ret.
  - apply issues_bind; [apply Hbody|intros _; exact IH].
Qed.

Lemma issues_mute_all_but (n : nat) :
  issues (clip_mute_commands n) (mute_all_but env (Z.of_nat n - 1) n).
Proof.
  unfold mute_all_but, clip_mute_commands. apply issues_for_each. intros j.
  unfold Commands.select_none, Commands.select_tracks, Commands.set_track_audio.
  apply (issues_bind [_] [_; _]); [apply issues_do_command|]. intros _.
  apply (issues_bind [_] [_]); [apply issues_do_command|]. intros _.
  apply (issues_bind [_] []); [|intros _; apply issues_ret].
  destruct (j =? Z.of_nat n - 1); apply issues_do_command.
Qed.

(** A computation that issues fixed commands and prints nothing, followed
    by another: either it stops among the fixed commands, or all of them are
    issued and the other computation follows. *)
Lemma emits_after_issues {A B : Type} (commands : list pystr)
    (Q R : list pystr -> list message -> Prop) (m : M A) (k : A -> M B) :
  issues commands m -> (forall a, emits Q (k a)) ->
  (forall j, R (take j commands) []) ->
  (forall n2 m2, Q n2 m2 -> R (commands ++ n2) m2) ->
  emits R (bind m k).
Proof.
  intros Hm Hk Hstop Hgo w. destruct (Hm w) as (j & Hs & Hp & Hfull).
  unfold bind. destruct (m w) as [[a|e] w1]; simpl in *.
  - destruct (Hk a w1) as (n2 & m2 & Hs2 & Hp2 & HQ).
    exists (commands ++ n2), m2.
    rewrite Hs2, Hp2, Hs, Hp, (Hfull a eq_refl), <- app_assoc. auto.
  - exists (take j commands), []. rewrite app_nil_r. auto.
Qed.

Lemma quiet_clip_mute_commands (n : nat) : quiet_list (clip_mute_commands n).
Proof.
  unfold clip_mute_commands. induction (range n) as [|j js IH]; [constructor|].
  simpl. repeat constructor. exact IH.
Qed.

Local Abbreviation no_summary :=
  (fun more : list message =>
     forall n total dir, ~ In (ExportedClips n total dir) more).

Local Abbreviation early :=
  (fun (new : list pystr) (more : list message) => quiet_list new /\ no_summary more).

Lemma early_bind {A B : Type} (m : M A) (k : A -> M B) :
  emits early m -> (forall a, emits early (k a)) -> emits early (bind m k).
Proof.
  intros Hm Hk. apply (emits_bind early early); auto.
  intros n1 m1 n2 m2 [Hq1 Hs1] [Hq2 Hs2]. split.
  - apply Forall_app. split; assumption.
  - intros n total dir Hin. apply in_app_or in Hin as [Hin|Hin];
      [exact (Hs1 _ _ _ Hin)|exact (Hs2 _ _ _ Hin)].
Qed.

Lemma early_print (msg : message) :
  (forall n total dir, msg <> ExportedClips n total dir) -> emits early (print msg).
Proof.
  intros Hmsg. apply emits_print. split; [constructor|].
  intros n total dir [Hin|[]]. exact (Hmsg _ _ _ Hin).
Qed.

Lemma early_do_command (command : pystr) :
  is_export command = false -> emits early (Commands.do_command env command).
Proof.
  intros Hc. apply emits_do_command. split; [repeat constructor; exact Hc|].
  intros n total dir [].
Qed.

Lemma early_ret {A : Type} (a : A) : emits early (ret a).
Proof. apply emits_pure; [reflexivity|]. split; [constructor|]. intros n total dir []. Qed.

Lemma early_loads (text : pystr) : emits early (loads env text).
Proof.
  unfold loads. destruct (json_loads env text);
    (apply emits_pure; [reflexivity|]; split; [constructor|]; intros n total dir []).
Qed.

Lemma early_unmuted_clips (status : gmap Z bool) (clips_data : list jobject) :
  emits early (unmuted_clips status clips_data).
Proof.
  induction clips_data as [|clip rest IH]; cbn [unmuted_clips]; [apply early_ret|].
  destruct (negb (is_muted status clip)).
  - apply early_bind; [exact IH|intros ?; apply early_ret].
  - apply early_bind; [apply early_print; discriminate|intros _; exact IH].
Qed.

(** The shape of what the body of the clip workflow issues. *)
Lemma export_clips_body_mutes :
  emits (fun new more => early new more \/ muted_for_export new more)
        (export_clips_body env output_dir prefix file_extension).
Proof.
  set (R := fun (new : list pystr) (more : list message) =>
              early new more \/ muted_for_export new more).
  assert (HeR : forall n1 m1, early n1 m1 -> R n1 m1) by (intros; left; assumption).
  assert (HeRR : forall n1 m1 n2 m2, early n1 m1 -> R n2 m2 -> R (n1 ++ n2) (m1 ++ m2)).
  { intros n1 m1 n2 m2 [Hq Hs] [[Hq2 Hs2]|(n & setup & following & Hin & -> & Hsetup & Hf)].
    - left. split; [apply Forall_app; split; assumption|].
      intros k total dir Hin. apply in_app_or in Hin as [Hin|Hin];
        [exact (Hs _ _ _ Hin)|exact (Hs2 _ _ _ Hin)].
    - right. exists n, (n1 ++ setup), following.
      split; [apply in_or_app; right; exact Hin|].
      split; [rewrite <- app_assoc; reflexivity|].
      split; [apply Forall_app; split; assumption|exact Hf]. }
  assert (step : forall (A B : Type) (m : M A) (k : A -> M B),
             emits early m -> (forall a, emits R (k a)) -> emits R (bind m k))
    by (intros; apply (emits_bind early R R); auto).
  unfold export_clips_body, Commands.get_info, Commands.new_stereo_track.
  apply step; [apply early_do_command; reflexivity|]. intros tracks_info.
  apply step; [apply early_loads|]. intros tracks_data.
  apply step; [apply early_print; discriminate|]. intros _.
  apply step; [apply early_do_command; reflexivity|]. intros clips_info.
  destruct (json_loads env clips_info) as [[|clip clips_data]|];
    try (apply (emits_weaken early); [apply early_print; discriminate|exact HeR]).
  apply step; [apply early_unmuted_clips|]. intros [|c clips_to_export];
    [apply (emits_weaken early); [apply early_print; discriminate|exact HeR]|].
  apply step; [apply early_print; discriminate|]. intros _.
  apply step; [apply early_do_command; reflexivity|]. intros _.
  apply step; [apply early_do_command; reflexivity|]. intros tracks_info_updated.
  apply step; [apply early_loads|]. intros tracks_data_updated.
  set (n := length tracks_data_updated).
  apply (emits_bind
           (fun new more => new = [] /\ more = [CreatedTemporaryTrack (Z.of_nat n - 1)])
           (fun new more =>
              (exists j, new = take j (clip_mute_commands n) /\ more = []) \/
              (exists following, new = clip_mute_commands n ++ following /\
                                 Forall mute_free following))
           R).
  - apply emits_print. auto.
  - intros _.
    apply (emits_after_issues (clip_mute_commands n) untouched);
      [apply issues_mute_all_but| |eauto|eauto].
    intros _. apply untouched_bind; [apply untouched_clip_loop|].
    intros ?. apply untouched_print.
  - intros n1 m1 [-> ->]. left. split; [constructor|].
    intros k total dir [Hin|[]]. discriminate Hin.
  - intros n1 m1 n2 m2 [-> ->] [(j & -> & ->)|(following & -> & Hf)].
    + left. split; [apply Forall_take, quiet_clip_mute_commands|].
      intros k total dir [Hin|[]]. discriminate Hin.
    + right. exists n, [], following. split; [left; reflexivity|].
      split; [reflexivity|]. split; [constructor|exact Hf].
Qed.

End ClipMute.

Section ClipHost.
Import Host.

Lemma step_mute_free (st : state) (command : pystr) :
  mute_free command -> muted (step st command) = muted st.
Proof.
  intros [H1 H0]. apply eqb_false in H1, H0. unfold step. rewrite H1, H0.
  destruct (PyStr.eqb command (lit "SelectAll:")); [reflexivity|].
  destruct (PyStr.eqb command (lit "SelectNone:")); [reflexivity|].
  destruct (List.find _ _); reflexivity.
Qed.

Lemma run_mute_free (commands : list pystr) (st : state) :
  Forall mute_free commands -> muted (run st commands) = muted st.
Proof.
  intros H. revert st. induction H as [|c cs Hc _ IH]; intros st; [reflexivity|].
  simpl. rewrite IH. apply step_mute_free, Hc.
Qed.

Lemma run_app (st : state) (c1 c2 : list pystr) :
  run st (c1 ++ c2) = run (run st c1) c2.
Proof. apply fold_left_app. Qed.

(** One step of the muting: track [j] is selected alone and its flag set,
    cleared for the last track. *)
Lemma clip_mute_one (n j : nat) (st : state) :
  well_formed n st -> (j < n)%nat ->
  let st' := run st [lit "SelectNone:"; select_one (Z.of_nat j);
                     lit "SetTrackAudio: Mute="
                     ++ digit (negb (Z.of_nat j =? Z.of_nat n - 1))] in
  well_formed n st' /\
  muted st' = <[ j := negb (j =? n - 1)%nat ]> (muted st).
Proof.
  intros Hwf Hj st'. subst st'.
  change (run st [lit "SelectNone:"; select_one (Z.of_nat j);
                  lit "SetTrackAudio: Mute="
                  ++ digit (negb (Z.of_nat j =? Z.of_nat n - 1))])
    with (run (step st (lit "SelectNone:"))
              [select_one (Z.of_nat j);
               lit "SetTrackAudio: Mute="
               ++ digit (negb (Z.of_nat j =? Z.of_nat n - 1))]).
  assert (Hwf1 : well_formed n (step st (lit "SelectNone:")))
    by apply step_well_formed, Hwf.
  assert (Hm1 : muted (step st (lit "SelectNone:")) = muted st) by reflexivity.
  rewrite <- Hm1.
  destruct (Z.eqb_spec (Z.of_nat j) (Z.of_nat n - 1)) as [E|E].
  - assert ((j =? n - 1)%nat = true) as -> by (apply Nat.eqb_eq; lia).
    exact (restore_one n j _ Hwf1 Hj).
  - assert ((j =? n - 1)%nat = false) as -> by (apply Nat.eqb_neq; lia).
    exact (mute_one n j _ Hwf1 Hj).
Qed.

Lemma clip_mute_upto (n j : nat) (st : state) :
  well_formed n st -> (j <= n)%nat ->
  let st' := run st (flat_map (fun i => [lit "SelectNone:"; select_one i;
                                         lit "SetTrackAudio: Mute="
                                         ++ digit (negb (i =? Z.of_nat n - 1))])
                              (range j)) in
  well_formed n st' /\
  forall i, (i < j)%nat -> muted st' !! i = Some (negb (i =? n - 1)%nat).
Proof.
  intros Hwf. induction j as [|j IH]; intros Hj.
  - simpl. split; [exact Hwf|]. intros i Hi. lia.
  - destruct (IH ltac:(lia)) as [Hwf' Hset]. clear IH. cbv zeta.
    unfold range in *. rewrite seq_S, map_app, flat_map_app, run_app.
    set (st1 := run st _) in *.
    change (flat_map ?f (List.map Z.of_nat [(0 + j)%nat]))
      with (f (Z.of_nat j) ++ []).
    rewrite app_nil_r.
    destruct (clip_mute_one n j st1 Hwf' ltac:(lia)) as [Hwf2 Hm].
    split; [exact Hwf2|].
    intros i Hi. rewrite Hm. destruct (decide (i = j)) as [->|Hne].
    + apply list_lookup_insert_eq. destruct Hwf' as [_ Hlen]. lia.
    + rewrite list_lookup_insert_ne by congruence. apply Hset. lia.
Qed.

(** After the muting, the last track alone is audible. *)
Lemma clip_mute_commands_run (n : nat) (st : state) :
  well_formed n st ->
  muted (run st (clip_mute_commands n)) = only_unmuted n (n - 1).
Proof.
  intros Hwf.
  destruct (clip_mute_upto n n st Hwf ltac:(lia)) as [[_ Hlen] Hset].
  unfold clip_mute_commands.
  set (st1 := run st _) in *.
  apply list_eq. intros k. destruct (decide (k < n)%nat) as [Hk|Hk].
  - rewrite lookup_only_unmuted by exact Hk. apply Hset, Hk.
  - rewrite (proj2 (lookup_ge_None _ _)) by lia.
    symmetry. apply lookup_ge_None. rewrite length_only_unmuted. lia.
Qed.

(** The flags once a run has muted for export, after any first part of the
    commands that follow. *)
Lemma muted_for_export_run (n : nat) (setup following : list pystr) (st : state) :
  well_formed n st -> Forall mute_free following ->
  muted (run st (setup ++ clip_mute_commands n ++ following))
  = only_unmuted n (n - 1).
Proof.
  intros Hwf Hf. rewrite !run_app, (run_mute_free _ _ Hf).
  apply clip_mute_commands_run, run_well_formed, Hwf.
Qed.

End ClipHost.

Section ClipsFromTempTrack.
Import ExportClips.

Variable env : environment.
Variables output_dir prefix file_extension : pystr.

Local Abbreviation quiet_list :=
  (Forall (fun c : pystr => is_export c = false)).

(** An export command in a list that starts with commands of other kinds
    sits after them. *)
Lemma export_after (head rest pre post : list pystr) (c : pystr) :
  quiet_list head -> is_export c = true ->
  head ++ rest = pre ++ c :: post ->
  exists pre', pre = head ++ pre' /\ rest = pre' ++ c :: post.
Proof.
  intros Hh Hc. revert pre. induction Hh as [|x head Hx _ IH]; intros pre H.
  - exists pre. auto.
  - destruct pre as [|y pre]; injection H as -> H; [congruence|].
    destruct (IH pre H) as (pre' & -> & ->). eauto.
Qed.

(** What a run has issued and printed is what its body has, and one more
    line when it exits with an error. *)
Lemma clip_run_shape (status : exit_status) (w' : world) :
  export_clips_individually env output_dir prefix file_extension initial_world
  = (status, w') ->
  exists more extra,
    printed w' = more ++ extra /\ (extra = [] \/ exists r, extra = [r] /\ handler_report r = true) /\
    ((quiet_list (sent w') /\
      forall n total dir, ~ In (ExportedClips n total dir) more) \/
     muted_for_export (sent w') more).
Proof.
  unfold export_clips_individually. intros Hrun.
  destruct (connect_error env) as [e|] eqn:Hc.
  { rewrite (with_pipe_refused env _ _ e Hc) in Hrun. injection Hrun as <- <-.
    exists [], [AudacityErrorReport (lit "Failed to connect to Audacity: " ++ e)].
    split; [reflexivity|]. split; [right; eauto|].
    left. split; [constructor|]. intros n total dir []. }
  rewrite (with_pipe_connected env _ _ Hc) in Hrun.
  destruct (export_clips_body_mutes env output_dir prefix file_extension
              (connected_world initial_world true))
    as (new & more & Hs & Hp & HR).
  simpl in Hs, Hp.
  destruct (fst _) as [[]|[msg| |msg]]; injection Hrun as <- <-; simpl;
    rewrite Hp, Hs.
  - exists more, []. rewrite app_nil_r. auto.
  - exists more, [AudacityErrorReport msg]. split; [reflexivity|].
    split; [right; eauto|exact HR].
  - exists more, [JSONErrorReport]. split; [reflexivity|].
    split; [right; eauto|exact HR].
  - exists more, [UnexpectedErrorReport (OtherException msg)].
    split; [reflexivity|]. split; [right; eauto|exact HR].
Qed.

(** X21.  Each clip is exported from the temp track alone.  Whenever a
    run of the clip workflow issues an [Export2] command, it has announced
    its temp track, the last of the [n] tracks listed, and on the host every
    other track is muted and the temp track is not, whatever the mute flags
    were when the run began. *)
Theorem each_clip_is_exported_from_the_temp_track (status : exit_status)
    (w' : world) (pre post : list pystr) (c : pystr) :
  export_clips_individually env output_dir prefix file_extension initial_world
  = (status, w') ->
  sent w' = pre ++ c :: post ->
  is_export c = true ->
  exists n,
    In (CreatedTemporaryTrack (Z.of_nat n - 1)) (printed w') /\
    forall st, Host.well_formed n st ->
      Host.muted (Host.run st pre) = only_unmuted n (n - 1).
Proof.
  intros Hrun Hsent Hexp.
  destruct (clip_run_shape status w' Hrun)
    as (more & extra & Hp & _ & [[Hq _]|(n & setup & following & Hin & Hs & Hsetup & Hf)]).
  { exfalso. rewrite Hsent in Hq.
    pose proof (proj1 (List.Forall_forall _ _) Hq c (in_elt c pre post)) as Hc.
    simpl in Hc. congruence. }
  exists n. split; [rewrite Hp; apply in_or_app; left; exact Hin|].
  intros st Hwf. rewrite Hsent, app_assoc in Hs.
  assert (Hhead : quiet_list (setup ++ clip_mute_commands n))
    by (apply Forall_app; split; [exact Hsetup|apply quiet_clip_mute_commands]).
  destruct (export_after _ _ _ _ _ Hhead Hexp (eq_sym Hs)) as (pre' & -> & Hfollowing).
  rewrite Hfollowing in Hf. apply Forall_app in Hf as [Hpre' _].
  rewrite <- app_assoc. apply muted_for_export_run; assumption.
Qed.

(** X22.  The clip workflow does not restore the mute flags.  When a run
    has printed its summary line, every track but the temp track is muted
    on the host after the last command, also the tracks that were not muted
    when the run began. *)
Theorem clip_run_leaves_tracks_muted (status : exit_status) (w' : world)
    (exported_count total : nat) (dir : pystr) :
  export_clips_individually env output_dir prefix file_extension initial_world
  = (status, w') ->
  In (ExportedClips exported_count total dir) (printed w') ->
  exists n,
    In (CreatedTemporaryTrack (Z.of_nat n - 1)) (printed w') /\
    forall st, Host.well_formed n st ->
      Host.muted (Host.run st (sent w')) = only_unmuted n (n - 1).
Proof.
  intros Hrun Hsummary.
  destruct (clip_run_shape status w' Hrun) as (more & extra & Hp & Hextra & Hshape).
  assert (Hin : In (ExportedClips exported_count total dir) more).
  { rewrite Hp in Hsummary. apply in_app_or in Hsummary as [H|H]; [exact H|].
    destruct Hextra as [->|(r & -> & Hr)]; [destruct H|].
    destruct H as [->|[]]. discriminate Hr. }
  destruct Hshape as [[_ Hno]|(n & setup & following & Hcreated & -> & _ & Hf)].
  { destruct (Hno _ _ _ Hin). }
  exists n. split; [rewrite Hp; apply in_or_app; left; exact Hcreated|].
  intros st Hwf. apply muted_for_export_run; assumption.
Qed.

End ClipsFromTempTrack.

Lemma each_clip_is_exported_from_the_temp_track_witness :
  let run := ExportClips.export_clips_individually
               scenario (lit "/out") (lit "take_") (lit "flac") initial_world in
  exists n,
    In (CreatedTemporaryTrack (Z.of_nat n - 1)) (printed (snd run)) /\
    forall st, Host.well_formed n st ->
      Host.muted (Host.run st (take 27 (sent (snd run)))) = only_unmuted n (n - 1).
Proof.
  intros run.
  assert (Hsplit : sent (snd run)
                   = take 27 (sent (snd run))
                     ++ (lit "Export2: Filename=" ++ Commands.dquote
                         ++ lit "/out/take_intro.flac" ++ Commands.dquote
                         ++ lit " NumChannels=2")
                     :: drop 28 (sent (snd run)))
    by (vm_compute; reflexivity).
  exact (each_clip_is_exported_from_the_temp_track scenario (lit "/out")
           (lit "take_") (lit "flac") (fst run) (snd run) _ _ _
           (surjective_pairing run) Hsplit eq_refl).
Defined.

Lemma clip_run_leaves_tracks_muted_witness :
  let run := ExportClips.export_clips_individually
               scenario (lit "/out") (lit "take_") (lit "flac") initial_world in
  exists n,
    In (CreatedTemporaryTrack (Z.of_nat n - 1)) (printed (snd run)) /\
    forall st, Host.well_formed n st ->
      Host.muted (Host.run st (sent (snd run))) = only_unmuted n (n - 1).
Proof.
  intros run.
  assert (Hin : In (ExportedClips 2 2 (lit "/out")) (printed (snd run))).
  { assert (E : printed (snd run)
                = removelast (printed (snd run)) ++ [ExportedClips 2 2 (lit "/out")])
      by (vm_compute; reflexivity).
    rewrite E. apply in_or_app. right. left. reflexivity. }
  exact (clip_run_leaves_tracks_muted scenario (lit "/out") (lit "take_")
           (lit "flac") (fst run) (snd run) 2 2 (lit "/out")
           (surjective_pairing run) Hin).
Defined.

(** ** Both scripts: the commands they use *)

Section Vocabulary.

Variable env : environment.
Variable good : pystr -> Prop.

Local Abbreviation known :=
  (fun (new : list pystr) (_ : list message) => Forall good new).

Lemma known_bind {A B : Type} (m : M A) (k : A -> M B) :
  emits known m -> (forall a, emits known (k a)) -> emits known (bind m k).
Proof.
  intros Hm Hk. apply (emits_bind known known); auto.
  intros. apply Forall_app. split; assumption.
Qed.

Lemma known_bind_val {A B : Type} (V : A -> Prop) (m : M A) (k : A -> M B) :
  emits known m -> (forall w a w1, m w = (Val a, w1) -> V a) ->
  (forall a, V a -> emits known (k a)) -> emits known (bind m k).
Proof.
  intros Hm HV Hk. apply (emits_bind_val known known known V); auto.
  intros. apply Forall_app. split; assumption.
Qed.

Lemma known_print (msg : message) : emits known (print msg).
Proof. apply emits_print. constructor. Qed.

Lemma known_ret {A : Type} (a : A) : emits known (ret a).
Proof. apply emits_pure; [reflexivity|constructor]. Qed.

Lemma known_lift {A : Type} (r : result A) : emits known (lift r).
Proof. apply emits_lift. constructor. Qed.

Lemma known_announce_clip (i total : nat) (clip_name : pystr) (track_number : Z)
    (start_time end_time : pynum) (output_path : pystr) :
  emits known (ExportClips.announce_clip i total clip_name track_number
                                         start_time end_time output_path).
Proof. apply emits_announce_clip; constructor. Qed.

Lemma known_do_command (command : pystr) :
  good command -> emits known (Commands.do_command env command).
Proof. intros H. apply emits_do_command. repeat constructor. exact H. Qed.

Lemma known_for_each {A : Type} (xs : list A) (body : A -> M unit) :
  (forall x, emits known (body x)) -> emits known (for_each xs body).
Proof.
  intros H. apply emits_for_each; [constructor| |exact H].
  intros. apply Forall_app. split; assumption.
Qed.

Lemma known_loads (text : pystr) : emits known (ExportClips.loads env text).
Proof.
  unfold ExportClips.loads. destruct (json_loads env text);
    (apply emits_pure; [reflexivity|constructor]).
Qed.

Lemma known_try_except {A : Type} (m : M A) (handler : exn -> M A) :
  emits known m -> (forall e, emits known (handler e)) ->
  emits known (try_except m handler).
Proof.
  intros Hm Hh. apply (emits_try_except known known); auto.
  intros. apply Forall_app. split; assumption.
Qed.

Lemma known_run (body : M unit) (w : world) :
  emits known body -> sent w = [] ->
  Forall good (sent (snd (with_pipe env body w))).
Proof.
  intros Hbody Hw. destruct (connect_error env) as [e|] eqn:Hc.
  - rewrite (with_pipe_refused env _ _ e Hc). simpl. rewrite Hw. constructor.
  - rewrite (with_pipe_connected env _ _ Hc). simpl.
    destruct (Hbody (connected_world w true)) as (new & more & Hs & _ & H).
    rewrite Hs. simpl. rewrite Hw. exact H.
Qed.

End Vocabulary.

(** Texts without a line feed. *)
Section OneLine.

Lemma one_line_app (s t : pystr) : one_line (s ++ t) = one_line s && one_line t.
Proof.
  unfold one_line, mem. rewrite existsb_app. apply negb_orb.
Qed.

Lemma one_line_digits (d : Decimal.uint) :
  one_line (lit (NilEmpty.string_of_uint d)) = true.
Proof. unfold one_line. induction d; simpl; auto. Qed.

Lemma one_line_of_int (z : Z) : one_line (of_int z) = true.
Proof.
  unfold of_int. destruct (Z.to_int z) as [d|d]; [apply one_line_digits|].
  change (lit (NilEmpty.string_of_int (Decimal.Neg d)))
    with (lit "-" ++ lit (NilEmpty.string_of_uint d)).
  rewrite one_line_app, one_line_digits. reflexivity.
Qed.

Lemma one_line_Forall (s : pystr) :
  one_line s = true <-> Forall (fun c => c <> 10%N) s.
Proof.
  unfold one_line, mem. induction s as [|c s IH]; cbn [existsb].
  - split; [constructor|reflexivity].
  - rewrite negb_orb, andb_true_iff, IH, Forall_cons.
    destruct (N.eqb_spec 10 c) as [<-|Hne]; cbn [negb].
    + split; [intros [H _]; discriminate H|intros [H _]; congruence].
    + split; intros [_ H]; (split; [congruence || reflexivity|exact H]).
Qed.

Lemma one_line_slashed (s : pystr) : one_line s = true -> one_line (slashed s) = true.
Proof.
  rewrite !one_line_Forall. unfold slashed. intros H.
  apply List.Forall_map. apply (List.Forall_impl _ (P := fun c => c <> 10%N));
    [|exact H].
  intros c Hc. destruct (c =? 92)%N; [discriminate|exact Hc].
Qed.

Lemma one_line_path_join (a b : pystr) :
  one_line a = true -> one_line b = true -> one_line (path_join a b) = true.
Proof.
  intros Ha Hb. unfold path_join. destruct (starts_with (lit "/") b); [exact Hb|].
  destruct (negb (truthy a) || ends_with (lit "/") a);
    rewrite ?one_line_app, Ha, Hb; reflexivity.
Qed.

Lemma one_line_sanitize_filename (name : pystr) :
  one_line name = true -> one_line (ExportClips.sanitize_filename name) = true.
Proof.
  rewrite !one_line_Forall. intros H. unfold ExportClips.sanitize_filename.
  set (mapped := List.map _ name).
  assert (Hm : Forall (fun c => c <> 10%N) mapped).
  { apply List.Forall_map. apply (List.Forall_impl _ (P := fun c => c <> 10%N));
      [|exact H].
    intros c Hc. destruct (mem c ExportClips.invalid_chars); [discriminate|exact Hc]. }
  assert (Hs : Forall (fun c => c <> 10%N) (strip_chars (lit ". ") mapped))
    by (apply Forall_strip_by, Hm).
  destruct (200 <? length (strip_chars (lit ". ") mapped))%nat.
  - destruct (negb (truthy (take 200 (strip_chars (lit ". ") mapped))));
      [apply one_line_Forall; reflexivity|apply Forall_take, Hs].
  - destruct (negb (truthy (strip_chars (lit ". ") mapped)));
      [apply one_line_Forall; reflexivity|exact Hs].
Qed.

Lemma one_line_candidate (output_dir prefix safe_name file_extension : pystr)
    (k : nat) :
  one_line output_dir = true -> one_line prefix = true ->
  one_line safe_name = true -> one_line file_extension = true ->
  one_line (candidate output_dir prefix safe_name file_extension k) = true.
Proof.
  intros Hd Hp Hn He. unfold candidate. apply one_line_path_join; [exact Hd|].
  rewrite output_filename_eq, !one_line_app, Hp, Hn, He.
  destruct k; rewrite ?one_line_app, ?one_line_of_int; reflexivity.
Qed.

(** The commands of a run are the lines of what it writes to the pipe when
    none of them holds a line feed. *)
Lemma lines_from_line (c current rest : pystr) :
  one_line c = true ->
  lines_from current (c ++ 10%N :: rest) = (rev current ++ c) :: lines_from [] rest.
Proof.
  rewrite one_line_Forall. intros H. revert current.
  induction H as [|x c Hx Hc IH]; intros current.
  - simpl. rewrite app_nil_r. reflexivity.
  - cbn [app lines_from]. apply N.eqb_neq in Hx. rewrite Hx, IH.
    simpl. rewrite <- app_assoc. reflexivity.
Qed.

Lemma lines_pipe_text (commands : list pystr) :
  Forall (fun c => one_line c = true) commands ->
  lines (pipe_text commands) = commands.
Proof.
  unfold lines, pipe_text. induction 1 as [|c commands Hc Hcs IH]; [reflexivity|].
  cbn [List.map concat]. unfold newline at 1. rewrite <- app_assoc.
  cbn [app]. rewrite lines_from_line by exact Hc. rewrite IH. reflexivity.
Qed.

Lemma one_line_fraction_repr (q : Q) : one_line (fraction_repr q) = true.
Proof.
  unfold fraction_repr. rewrite !one_line_app, !one_line_of_int. reflexivity.
Qed.

End OneLine.

(** A command text is put together from texts without a line feed. *)
Ltac one_line_text :=
  rewrite ?replace_backslashes;
  repeat (rewrite one_line_app; apply andb_true_iff; split);
  first [ reflexivity | apply one_line_of_int | apply one_line_slashed; assumption
        | assumption | idtac ].

Ltac facade :=
  unfold Commands.select_none, Commands.select_tracks, Commands.select_time,
    Commands.select_all, Commands.copy, Commands.delete, Commands.paste,
    Commands.export_audio, Commands.set_track_audio, Commands.get_info,
    Commands.new_stereo_track.

Section ClipVocabulary.
Import ExportClips.

Variable env : environment.
Variables output_dir prefix file_extension : pystr.

Hypothesis dir_one_line : one_line output_dir = true.
Hypothesis prefix_one_line : one_line prefix = true.
Hypothesis extension_one_line : one_line file_extension = true.
Hypothesis names_one_line : forall text clips,
  json_loads env text = Some clips -> forallb named_on_one_line clips = true.
Hypothesis repr_one_line : forall q, one_line (float_repr env q) = true.

(** A command of the clip workflow that is one line. *)
Local Abbreviation good :=
  (fun c : pystr => has_verb clip_verbs c = true /\ one_line c = true).

Lemma one_line_of_num (x : pynum) : one_line (Commands.of_num env x) = true.
Proof. destruct x; [apply one_line_of_int|apply repr_one_line]. Qed.

Ltac known :=
  repeat first
    [ apply known_ret
    | apply known_print
    | apply known_loads
    | apply known_lift
    | apply known_announce_clip
    | apply known_do_command; split; [reflexivity|one_line_text]
    | apply known_for_each; intros ?
    | apply known_bind; [|intros ?] ].

Lemma one_line_name_of (i : nat) (clip : jobject) :
  named_on_one_line clip = true -> one_line (name_of i clip) = true.
Proof.
  unfold named_on_one_line, name_of. destruct (j_name clip); [auto|].
  intros _. cbn [get]. rewrite one_line_app, one_line_of_int. reflexivity.
Qed.

Lemma known_clip_loop (t : Z) (total i : nat) (clips : list jobject) (count : nat) :
  forallb named_on_one_line clips = true ->
  emits (fun new _ => Forall good new)
        (clip_loop env output_dir prefix file_extension t total i clips count).
Proof.
  revert i count. induction clips as [|clip rest IH]; intros i count Hnames;
    cbn [clip_loop]; [known|].
  cbn [forallb] in Hnames. apply andb_true_iff in Hnames as [Hname Hnames].
  destruct (invalid_data clip); [known; apply IH, Hnames|].
  apply (known_bind_val good
           (fun path : pystr => one_line path = true)).
  { apply emits_pure; [|constructor]. intros w.
    destruct (choose_output_path_state env output_dir prefix file_extension
                (sanitize_filename
                   (get (j_name clip) (lit "clip_" ++ of_int (Z.of_nat i)))) w)
      as [path ->]. reflexivity. }
  { intros w path w1 Hpath.
    destruct (choose_output_path_candidate env w output_dir prefix file_extension
                (sanitize_filename (name_of i clip))) as [k Hk].
    unfold name_of in Hk. rewrite Hk in Hpath. injection Hpath as <- _.
    apply one_line_candidate; try assumption.
    apply one_line_sanitize_filename, one_line_name_of, Hname. }
  intros output_path Hpath. apply known_bind; [known|]. intros _.
  apply known_bind; [|intros ?; apply IH, Hnames].
  apply known_try_except.
  - unfold export_clip, clear_temp_track. facade. known;
      apply one_line_of_num.
  - intros e. known.
Qed.

Lemma known_export_clips_body :
  emits (fun new _ => Forall good new)
        (export_clips_body env output_dir prefix file_extension).
Proof.
  unfold export_clips_body. facade.
  apply known_bind; [known|]. intros tracks_info.
  apply known_bind; [known|]. intros tracks_data.
  apply known_bind; [known|]. intros _.
  apply known_bind; [known|]. intros clips_info.
  destruct (json_loads env clips_info) as [[|c cs]|] eqn:Hclips; [known| |known].
  apply names_one_line in Hclips.
  set (status := mute_status_from 0 tracks_data ∅).
  apply (known_bind_val good
           (fun kept => kept = List.filter (fun c => negb (is_muted status c))
                                           (c :: cs))).
  { generalize (c :: cs). intros clips.
    induction clips as [|clip rest IH]; cbn [unmuted_clips]; [known|].
    destruct (negb (is_muted status clip)); known; exact IH. }
  { intros w kept w1 Hrun.
    destruct (unmuted_clips_run status (c :: cs) w) as (w' & Hrun' & _).
    rewrite Hrun in Hrun'. injection Hrun' as -> _. reflexivity. }
  intros kept ->.
  assert (Hkept : forallb named_on_one_line
                    (List.filter (fun c => negb (is_muted status c)) (c :: cs))
                  = true).
  { apply forallb_forall. intros x Hx. apply filter_In in Hx as [Hx _].
    exact (proj1 (forallb_forall _ _) Hclips x Hx). }
  destruct (List.filter _ (c :: cs)) as [|k ks]; [known|].
  apply known_bind; [known|]. intros _.
  apply known_bind; [known|]. intros _.
  apply known_bind; [known|]. intros ?.
  apply known_bind; [known|]. intros ?.
  apply known_bind; [known|]. intros _.
  apply known_bind.
  { unfold mute_all_but. facade. apply known_for_each. intros t.
    known. destruct (t =? _); known. }
  intros _. apply known_bind; [apply known_clip_loop, Hkept|]. intros ?. known.
Qed.

(** X23.  The clip workflow sends nothing but the commands of its trade.
    When the directory, the prefix, the extension and the names of the clips
    hold no line feed (and [repr] of a float holds none), every line that a
    run writes to the pipe is one of its commands, and each of them is one of
    [GetInfo], [NewStereoTrack], [SelectNone], [SelectTracks],
    [SetTrackAudio], [SelectTime], [Copy], [Delete], [Paste] and [Export2].
    No run removes a track, saves, closes or opens a project, or records. *)
Theorem clip_script_keeps_to_its_commands :
  let commands :=
    sent (snd (export_clips_individually env output_dir prefix file_extension
                 initial_world)) in
  lines (pipe_text commands) = commands /\
  Forall (fun c => has_verb clip_verbs c = true) commands.
Proof.
  intros commands.
  assert (H : Forall good commands).
  { subst commands.
    pose proof (known_run env good _ initial_world known_export_clips_body
                  eq_refl) as H.
    unfold export_clips_individually.
    destruct (with_pipe env _ initial_world) as [[[]|[msg| |msg]] w1]; exact H. }
  split.
  - apply lines_pipe_text. apply (List.Forall_impl _ (P := good)); [|exact H].
    intros c Hc. apply Hc.
  - apply (List.Forall_impl _ (P := good)); [|exact H]. intros c Hc. apply Hc.
Qed.

End ClipVocabulary.

Lemma clip_script_keeps_to_its_commands_witness :
  let commands :=
    sent (snd (ExportClips.export_clips_individually
                 scenario (lit "/out") (lit "take_") (lit "flac") initial_world)) in
  lines (pipe_text commands) = commands /\
  Forall (fun c => has_verb clip_verbs c = true) commands.
Proof.
  exact (clip_script_keeps_to_its_commands scenario (lit "/out") (lit "take_")
           (lit "flac") eq_refl eq_refl eq_refl
           (scenario_listings (fun clips => forallb named_on_one_line clips = true)
              eq_refl eq_refl eq_refl)
           one_line_fraction_repr).
Defined.

(** Without the condition on the names the property fails:
    [sanitize_filename] leaves a line feed in a clip name alone, the name
    goes into the path of [Export2], and the pipe gets a line that is none
    of the workflow's commands. *)
Example line_feed_in_clip_name_reaches_pipe :
  let commands :=
    sent (snd (ExportClips.export_clips_individually
                 two_line_name (lit "/out") (lit "take_") (lit "flac")
                 initial_world)) in
  forallb (has_verb clip_verbs) commands = true /\
  forallb (has_verb clip_verbs) (lines (pipe_text commands)) = false /\
  existsb (PyStr.eqb (lit "RemoveTracks.flac" ++ Commands.dquote
                      ++ lit " NumChannels=2"))
          (lines (pipe_text commands)) = true.
Proof. intros commands. repeat split; vm_compute; reflexivity. Qed.

Section TrackVocabulary.
Import ExportTracks.

Variable env : environment.
Variables output_dir base_filename file_extension : pystr.

Hypothesis dir_one_line : one_line output_dir = true.
Hypothesis name_one_line : one_line base_filename = true.
Hypothesis extension_one_line : one_line file_extension = true.

Local Abbreviation good :=
  (fun c : pystr => has_verb track_verbs c = true /\ one_line c = true).

Ltac known :=
  repeat first
    [ apply known_ret
    | apply known_print
    | apply known_do_command; split; [reflexivity|one_line_text]
    | apply known_for_each; intros ?
    | apply known_bind; [|intros ?] ].

Lemma known_export_tracks_body :
  emits (fun new _ => Forall good new)
        (export_tracks_body env output_dir base_filename file_extension).
Proof.
  unfold export_tracks_body. facade.
  apply known_bind; [known|]. intros tracks_info.
  destruct (json_loads env tracks_info) as [tracks_data|]; [|known].
  destruct (length tracks_data =? 0)%nat; [known|].
  apply known_bind; [known|]. intros _.
  apply known_bind.
  { generalize 1%nat. generalize (length tracks_data).
    induction tracks_data as [|track rest IH]; intros n i;
      cbn [track_loop]; [known|].
    unfold mute_all. facade. known; [|apply IH].
    apply one_line_slashed, one_line_path_join; [assumption|]. one_line_text. }
  intros _. unfold unmute_all. facade. known.
Qed.

(** X29.  The track workflow sends nothing but the commands of its trade.
    When the directory, the base name and the extension hold no line feed,
    every line that a run writes to the pipe is one of its commands, and
    each of them is one of [GetInfo], [SelectTracks], [SetTrackAudio],
    [SelectAll] and [Export2].  No run removes a track, saves, closes or
    opens a project, or records. *)
Theorem track_script_keeps_to_its_commands :
  let commands :=
    sent (snd (export_tracks_individually env output_dir base_filename
                 file_extension initial_world)) in
  lines (pipe_text commands) = commands /\
  Forall (fun c => has_verb track_verbs c = true) commands.
Proof.
  intros commands.
  assert (H : Forall good commands).
  { subst commands.
    pose proof (known_run env good _ initial_world known_export_tracks_body
                  eq_refl) as H.
    unfold export_tracks_individually.
    destruct (with_pipe env _ initial_world) as [[[]|[msg| |msg]] w1]; exact H. }
  split.
  - apply lines_pipe_text. apply (List.Forall_impl _ (P := good)); [|exact H].
    intros c Hc. apply Hc.
  - apply (List.Forall_impl _ (P := good)); [|exact H]. intros c Hc. apply Hc.
Qed.

End TrackVocabulary.

Lemma track_script_keeps_to_its_commands_witness :
  let commands :=
    sent (snd (ExportTracks.export_tracks_individually
                 answering_host (lit "/out") (lit "track") (lit "wav")
                 initial_world)) in
  lines (pipe_text commands) = commands /\
  Forall (fun c => has_verb track_verbs c = true) commands.
Proof.
  exact (track_script_keeps_to_its_commands answering_host (lit "/out")
           (lit "track") (lit "wav") eq_refl eq_refl eq_refl).
Defined.
(** ** Both scripts: asking for the settings *)

Section AskingForSettings.

Variable c : console.

Lemma ask_output_dir_result (n : nat) :
  forall (inputs made made' rest : list pystr) (dir : pystr),
  (length inputs <= n)%nat ->
  ask_output_dir c made inputs = Some (dir, made', rest) ->
  (exists line, In line inputs /\ strip line <> [] /\
                dir = abspath c (expanduser c (strip line))) /\
  directory_ready c made' dir /\
  (exists asked, inputs = asked ++ rest /\ asked <> []).
Proof.
  induction n as [|n IH]; intros inputs made made' rest dir Hlen H.
  { destruct inputs; [discriminate H|simpl in Hlen; lia]. }
  destruct inputs as [|line inputs]; [discriminate H|].
  cbn [ask_output_dir] in H. simpl in Hlen.
  assert (Hlater : forall made0 later,
             (length later <= n)%nat ->
             (exists skipped, inputs = skipped ++ later) ->
             ask_output_dir c made0 later = Some (dir, made', rest) ->
             (exists line0, In line0 (line :: inputs) /\ strip line0 <> [] /\
                            dir = abspath c (expanduser c (strip line0))) /\
             directory_ready c made' dir /\
             (exists asked, line :: inputs = asked ++ rest /\ asked <> [])).
  { intros made0 later Hl (skipped & ->) Hask.
    destruct (IH later made0 made' rest dir Hl Hask)
      as ((line0 & Hin & Hne & Hdir) & Hready & (asked & -> & _)).
    split; [exists line0; split; [right; apply in_or_app; right; exact Hin|auto]|].
    split; [exact Hready|].
    exists (line :: skipped ++ asked). split; [|discriminate].
    simpl. rewrite <- app_assoc. reflexivity. }
  destruct (truthy (strip line)) eqn:Hline; cbn [negb] in H.
  2:{ apply (Hlater made inputs); [lia|exists []; reflexivity|exact H]. }
  apply truthy_true in Hline.
  destruct (dir_exists c made (abspath c (expanduser c (strip line)))) eqn:Hex;
    cbn [negb] in H.
  { injection H as <- <- <-.
    split; [exists line; split; [left; reflexivity|auto]|].
    split; [left; exact Hex|]. exists [line]. split; [reflexivity|discriminate]. }
  destruct inputs as [|answer inputs]; [discriminate H|]. simpl in Hlen.
  destruct (PyStr.eqb (lower c (strip answer)) (lit "y")).
  2:{ apply (Hlater made inputs); [lia|exists [answer]; reflexivity|exact H]. }
  destruct (makedirs c made (abspath c (expanduser c (strip line)))) eqn:Hmk.
  2:{ apply (Hlater (made ++ [abspath c (expanduser c (strip line))]) inputs);
      [lia|exists [answer]; reflexivity|exact H]. }
  injection H as <- <- <-.
  split; [exists line; split; [left; reflexivity|auto]|].
  split; [right; eauto|]. exists [line; answer]. split; [reflexivity|discriminate].
Qed.

(** X24.  The loop that asks for the output directory returns a directory
    named by one of the lines entered, not a blank one, that exists when the
    loop looks or that the loop has just created: a blank line, a directory
    the user declines to create or one that cannot be created is never the
    answer.  The lines the loop has used, at least one, are taken off the
    input. *)
Theorem ask_output_dir_returns_a_directory (inputs made made' rest : list pystr)
    (dir : pystr) :
  ask_output_dir c made inputs = Some (dir, made', rest) ->
  (exists line, In line inputs /\ strip line <> [] /\
                dir = abspath c (expanduser c (strip line))) /\
  directory_ready c made' dir /\
  (exists asked, inputs = asked ++ rest /\ asked <> []).
Proof. apply (ask_output_dir_result (length inputs)). lia. Qed.

(** The extension both scripts take from the line entered. *)
Lemma extension_no_dot (line : pystr) (ch : codepoint) (rest : pystr) :
  lstrip_chars (lit ".")
    (if negb (truthy (strip line)) then lit "wav" else strip line) = ch :: rest ->
  ch <> 46%N.
Proof.
  intros H. apply drop_while_head in H. intros ->. discriminate H.
Qed.

Lemma extension_blank (line : pystr) :
  strip line = [] ->
  lstrip_chars (lit ".")
    (if negb (truthy (strip line)) then lit "wav" else strip line) = lit "wav".
Proof. intros ->. reflexivity. Qed.

Lemma drop_while_nil (p : codepoint -> bool) (s : pystr) :
  drop_while p s = [] <-> Forall (fun ch => p ch = true) s.
Proof.
  induction s as [|x s IH]; simpl.
  - split; [constructor|reflexivity].
  - destruct (p x) eqn:Hx; rewrite ?IH; split.
    + intros H. constructor; assumption.
    + intros H. inversion H. assumption.
    + discriminate.
    + intros H. inversion H. congruence.
Qed.

Lemma extension_empty (line : pystr) :
  lstrip_chars (lit ".")
    (if negb (truthy (strip line)) then lit "wav" else strip line) = [] <->
  strip line <> [] /\ Forall (fun ch => ch = 46%N) (strip line).
Proof.
  destruct (strip line) as [|x s] eqn:E; cbn [truthy negb].
  - split; [discriminate|intros [H _]; congruence].
  - unfold lstrip_chars, lstrip_by. rewrite drop_while_nil. split.
    + intros H. split; [discriminate|].
      eapply List.Forall_impl; [|exact H]. intros ch Hch. simpl in Hch.
      rewrite orb_false_r in Hch. apply N.eqb_eq, Hch.
    + intros [_ H]. eapply List.Forall_impl; [|exact H].
      intros ch ->. reflexivity.
Qed.

(** X25.  The settings [get_user_input] returns in the clip script: the
    directory is the one the loop has found or created; the prefix is the
    line entered without the white space around it; the extension never
    starts with a dot, is [wav] for a blank line, and is empty exactly when
    the line holds nothing but dots. *)
Theorem clip_settings_are_normalised (inputs : list pystr)
    (s : ExportClips.settings) (made rest : list pystr) :
  ExportClips.get_user_input c inputs = Some (s, made, rest) ->
  exists line1 line2,
    ask_output_dir c [] inputs
    = Some (ExportClips.output_dir s, made, line1 :: line2 :: rest) /\
    directory_ready c made (ExportClips.output_dir s) /\
    ExportClips.prefix s = strip line1 /\
    strip (ExportClips.prefix s) = ExportClips.prefix s /\
    (forall ch tail, ExportClips.file_extension s = ch :: tail -> ch <> 46%N) /\
    (strip line2 = [] -> ExportClips.file_extension s = lit "wav") /\
    (ExportClips.file_extension s = [] <->
     strip line2 <> [] /\ Forall (fun ch => ch = 46%N) (strip line2)).
Proof.
  intros H. unfold ExportClips.get_user_input in H.
  destruct (ask_output_dir c [] inputs) as [[[dir made0] rest0]|] eqn:Hask;
    [|discriminate H].
  destruct rest0 as [|line1 [|line2 rest0]]; try discriminate H.
  injection H as <- <- <-. exists line1, line2.
  cbn [ExportClips.output_dir ExportClips.prefix ExportClips.file_extension].
  split; [reflexivity|].
  split; [apply (ask_output_dir_result _ _ _ _ _ _ (le_n _) Hask)|].
  split; [reflexivity|]. split; [apply strip_by_idem|].
  split; [apply extension_no_dot|].
  split; [apply extension_blank|apply extension_empty].
Qed.

(** X26.  The settings [get_user_input] returns in the track script: the
    directory is the one the loop has found or created; the base name is
    never empty ([track] stands in for a blank line) and has no white space
    around it; the extension never starts with a dot, is [wav] for a blank
    line, and is empty exactly when the line holds nothing but dots. *)
Theorem track_settings_are_normalised (inputs : list pystr)
    (s : ExportTracks.settings) (made rest : list pystr) :
  ExportTracks.get_user_input c inputs = Some (s, made, rest) ->
  exists line1 line2,
    ask_output_dir c [] inputs
    = Some (ExportTracks.output_dir s, made, line1 :: line2 :: rest) /\
    directory_ready c made (ExportTracks.output_dir s) /\
    ExportTracks.base_filename s <> [] /\
    (strip line1 = [] -> ExportTracks.base_filename s = lit "track") /\
    (strip line1 <> [] -> ExportTracks.base_filename s = strip line1) /\
    strip (ExportTracks.base_filename s) = ExportTracks.base_filename s /\
    (forall ch tail, ExportTracks.file_extension s = ch :: tail -> ch <> 46%N) /\
    (strip line2 = [] -> ExportTracks.file_extension s = lit "wav") /\
    (ExportTracks.file_extension s = [] <->
     strip line2 <> [] /\ Forall (fun ch => ch = 46%N) (strip line2)).
Proof.
  intros H. unfold ExportTracks.get_user_input in H.
  destruct (ask_output_dir c [] inputs) as [[[dir made0] rest0]|] eqn:Hask;
    [|discriminate H].
  destruct rest0 as [|line1 [|line2 rest0]]; try discriminate H.
  injection H as <- <- <-. exists line1, line2.
  cbn [ExportTracks.output_dir ExportTracks.base_filename
       ExportTracks.file_extension].
  split; [reflexivity|].
  split; [apply (ask_output_dir_result _ _ _ _ _ _ (le_n _) Hask)|].
  split; [destruct (strip line1); discriminate|].
  split; [intros ->; reflexivity|].
  split; [destruct (strip line1); [congruence|reflexivity]|].
  split; [destruct (strip line1) eqn:E; cbn [truthy negb];
          [reflexivity|rewrite <- E; apply strip_by_idem]|].
  split; [apply extension_no_dot|].
  split; [apply extension_blank|apply extension_empty].
Qed.

End AskingForSettings.

Lemma ask_output_dir_returns_a_directory_witness :
  ask_output_dir plain_console [] [lit "  "; lit "/tmp/new"; lit "y"; lit " /out "; lit "x"]
  = Some (lit "/out", [lit "/tmp/new"], [lit "x"]) /\
  directory_ready plain_console [lit "/tmp/new"] (lit "/out").
Proof.
  split; [reflexivity|].
  apply (ask_output_dir_returns_a_directory plain_console
           [lit "  "; lit "/tmp/new"; lit "y"; lit " /out "; lit "x"] []
           [lit "/tmp/new"] [lit "x"] (lit "/out")).
  reflexivity.
Defined.

Lemma clip_settings_are_normalised_witness :
  exists line1 line2,
    ask_output_dir plain_console [] [lit " /out "; lit " take_ "; lit " .flac"]
    = Some (lit "/out", [], [line1; line2]) /\
    strip line1 = lit "take_" /\
    (forall ch tail, lit "flac" = ch :: tail -> ch <> 46%N).
Proof.
  destruct (clip_settings_are_normalised plain_console
              [lit " /out "; lit " take_ "; lit " .flac"]
              {| ExportClips.output_dir := lit "/out";
                 ExportClips.prefix := lit "take_";
                 ExportClips.file_extension := lit "flac" |} [] [] eq_refl)
    as (line1 & line2 & Hask & _ & Hprefix & _ & Hdot & _).
  exists line1, line2. split; [exact Hask|]. split; [symmetry; exact Hprefix|exact Hdot].
Defined.

Lemma track_settings_are_normalised_witness :
  exists line1 line2,
    ask_output_dir plain_console [] [lit " /out "; lit "  "; lit "..."]
    = Some (lit "/out", [], [line1; line2]) /\
    (strip line1 = [] -> lit "track" = lit "track") /\
    strip line2 <> [] /\ Forall (fun ch => ch = 46%N) (strip line2).
Proof.
  destruct (track_settings_are_normalised plain_console
              [lit " /out "; lit "  "; lit "..."]
              {| ExportTracks.output_dir := lit "/out";
                 ExportTracks.base_filename := lit "track";
                 ExportTracks.file_extension := [] |} [] [] eq_refl)
    as (line1 & line2 & Hask & _ & _ & Hdefault & _ & _ & _ & _ & Hempty).
  exists line1, line2. split; [exact Hask|]. split; [exact Hdefault|].
  apply Hempty. reflexivity.
Defined.
(** ** export_clips_individually.py: failures while a clip is exported *)

Section GoesThrough.
Import ExportClips.

Variable env : environment.
Variables output_dir prefix file_extension : pystr.

(** The times of the clips the host lists can be printed. *)
Hypothesis times_printable : forall text clips,
  json_loads env text = Some clips -> forallb printable clips = true.

(** A computation that announces no clip. *)
Local Abbreviation unannounced m :=
  (forall w : world, exists more,
      printed (snd (m w)) = printed w ++ more /\ announced more = []).











End GoesThrough.


(** ** export_clips_individually.py: the clips a run tries to export *)

Section AttemptedClips.
Import ExportClips.

Variable env : environment.
Variables output_dir prefix file_extension : pystr.

Local Abbreviation attempted := (attempt env output_dir prefix file_extension).

Lemma unmuted_clips_sent (status : gmap Z bool) (clips_data : list jobject)
    (w w' : world) (kept : list jobject) :
  unmuted_clips status clips_data w = (Val kept, w') -> sent w' = sent w.
Proof.
  revert w w' kept. induction clips_data as [|clip rest IH]; intros w w' kept;
    cbn [unmuted_clips].
  - intros [= _ <-]. reflexivity.
  - destruct (negb (is_muted status clip)).
    + intros H. apply bind_val in H as (k & w1 & H1 & H2).
      injection H2 as _ <-. exact (IH _ _ _ H1).
    + intros H. apply bind_val in H as ([] & w1 & H1 & H2).
      injection H1 as <-. exact (IH _ _ _ H2).
Qed.

Lemma mute_all_but_run (n : nat) (w w' : world) :
  mute_all_but env (Z.of_nat n - 1) n w = (Val tt, w') ->
  sent w' = sent w ++ clip_mute_commands n /\ printed w' = printed w.
Proof.
  intros Hrun. destruct (issues_mute_all_but env n w) as (k & Hs & Hp & Hfull).
  rewrite Hrun in Hs, Hp, Hfull. simpl in Hs, Hp, Hfull.
  rewrite (Hfull tt eq_refl) in Hs. auto.
Qed.

(** What the loop over the clips has done when it returns: for each clip
    with valid data, in order, an attempt and its announcement; for each of
    the others a line and no command. *)
Lemma clip_loop_trace (t : Z) (total : nat) (clips : list jobject) :
  forall (i count : nat) (w : world) (n : nat) (w' : world),
  clip_loop env output_dir prefix file_extension t total i clips count w
  = (Val n, w') ->
  exists blocks more,
    sent w' = sent w ++ concat blocks /\
    printed w' = printed w ++ more /\
    Forall2 (attempted t) (List.filter (fun c => negb (invalid_data c)) clips)
            blocks /\
    announced more
    = List.map clip_key (List.filter (fun c => negb (invalid_data c)) clips) /\
    length (skipped more) = length (List.filter invalid_data clips).
Proof.
  induction clips as [|clip rest IH]; intros i count w n w' Hrun.
  - injection Hrun as _ <-. exists [], []. rewrite !app_nil_r.
    repeat split. constructor.
  - cbn [List.filter].
    destruct (invalid_data clip) eqn:Hinv; [|destruct (printable clip) eqn:Hpr];
      cbn [negb].
    + rewrite clip_loop_invalid in Hrun by exact Hinv.
      destruct (IH _ _ _ _ _ Hrun) as (blocks & more & Hs & Hp & Hb & Ha & Hk).
      exists blocks, (SkippingInvalid (name_of i clip) :: more).
      simpl in Hs, Hp. rewrite Hs, Hp, <- app_assoc.
      repeat split; try assumption. simpl. rewrite Hk. reflexivity.
    + destruct (clip_loop_valid env output_dir prefix file_extension t total i
                  clip rest count w Hinv Hpr)
        as (k & n1 & line & count' & w3 & Heq & Hs3 & Hp3 & Hline).
      rewrite Heq in Hrun.
      destruct (IH _ _ _ _ _ Hrun) as (blocks & more & Hs & Hp & Hb & Ha & Hk).
      eexists (_ :: blocks), (_ :: line :: more).
      rewrite Hs, Hs3, Hp, Hp3, <- !app_assoc. cbn [concat].
      split; [reflexivity|]. split; [reflexivity|]. split; [|split].
      * constructor; [|exact Hb]. exists i, k, n1. cbv zeta.
        split; [|split; [reflexivity|]].
        -- unfold printable in Hpr. apply andb_true_iff in Hpr as [Hfs Hfe].
           destruct (num_sub_printable env _ _ Hfe Hfs) as [d Hd].
           unfold commands_for, clip_commands. rewrite Hd. reflexivity.
        -- intros Hresponsive.
           destruct Hline as [(_ & _ & Hfull)|(e & _ & _ & history & c & msg & Hfails)];
             [exact Hfull|].
           destruct (Hresponsive history c) as [text Htext]. congruence.
      * destruct Hline as [(-> & _)|(e & -> & _)]; simpl; rewrite Ha; reflexivity.
      * destruct Hline as [(-> & _)|(e & -> & _)]; simpl; exact Hk.
    + rewrite clip_loop_unprintable in Hrun by assumption. discriminate Hrun.
Qed.

(** X28.  In a run of the clip workflow that completes, the clips the run
    tries to export are, in the order of the listing, exactly the clips that
    meet the four conditions: they refer to a track, the mute flag of that
    track is false or absent, start >= 0, end > start.  After the commands
    that set up the temp track, the commands issued are those of one attempt
    for each such clip, and nothing else; an attempt is a first part of the
    fifteen commands for the clip, and all of them, up to [Export2], when the
    host answers every command.  Each of these clips is announced, and every
    other clip gets a [Skipping clip] line and no command.  A run without
    such a clip issues the two queries, or the set-up and nothing more. *)
Theorem attempted_clips_are_the_included_ones (w' : world)
    (tracks_info clips_info : pystr) (tracks_data clips_data : list jobject) :
  export_clips_individually env output_dir prefix file_extension initial_world
  = (Completed, w') ->
  respond env [] (lit "GetInfo: Type=Tracks") = Responds tracks_info ->
  json_loads env tracks_info = Some tracks_data ->
  respond env [lit "GetInfo: Type=Tracks"] (lit "GetInfo: Type=Clips")
  = Responds clips_info ->
  json_loads env clips_info = Some clips_data ->
  let chosen := List.filter (included tracks_data) clips_data in
  announced (printed w') = List.map clip_key chosen /\
  length (skipped (printed w'))
  = length (List.filter (fun c => negb (included tracks_data c)) clips_data) /\
  ((chosen = [] /\
    sent w' = [lit "GetInfo: Type=Tracks"; lit "GetInfo: Type=Clips"]) \/
   (exists n blocks,
       In (CreatedTemporaryTrack (Z.of_nat n - 1)) (printed w') /\
       sent w' = clip_setup_commands n ++ concat blocks /\
       Forall2 (attempted (Z.of_nat n - 1)) chosen blocks)).
Proof.
  intros Hrun Ht Hlt Hc Hlc chosen. subst chosen.
  rewrite included_filter, excluded_count.
  set (status := mute_status_from 0 tracks_data ∅).
  unfold export_clips_individually in Hrun.
  destruct (connect_error env) as [e|] eqn:Hce.
  { rewrite (with_pipe_refused env _ _ e Hce) in Hrun. discriminate Hrun. }
  rewrite (with_pipe_connected env _ _ Hce) in Hrun.
  destruct (export_clips_body env output_dir prefix file_extension
              (connected_world initial_world true)) as [[[]|e] w1] eqn:Hbody;
    simpl in Hrun; [|destruct e; discriminate Hrun].
  injection Hrun as <-. cbn [connected_world sent printed].
  unfold export_clips_body in Hbody.
  apply bind_val in Hbody as (info & w2 & Hget & Hbody).
  apply do_command_val in Hget as (Hresp & Hs2 & Hp2).
  change (lit "GetInfo: Type=" ++ lit "Tracks") with (lit "GetInfo: Type=Tracks") in *.
  simpl in Hresp, Hs2, Hp2. rewrite Ht in Hresp. injection Hresp as <-.
  apply bind_val in Hbody as (td & w3 & Hloads & Hbody).
  unfold loads in Hloads. rewrite Hlt in Hloads. injection Hloads as <- <-.
  fold status in Hbody.
  apply bind_val in Hbody as ([] & w4 & Hp4 & Hbody).
  injection Hp4 as <-.
  apply bind_val in Hbody as (cinfo & w5 & Hget5 & Hbody).
  apply do_command_val in Hget5 as (Hresp5 & Hs5 & Hp5).
  change (lit "GetInfo: Type=" ++ lit "Clips") with (lit "GetInfo: Type=Clips") in *.
  cbn [sent printed] in Hresp5, Hs5, Hp5.
  rewrite Hs2, Hc in Hresp5. injection Hresp5 as <-.
  rewrite Hlc in Hbody. rewrite Hs2 in Hs5. rewrite Hp2 in Hp5.
  destruct clips_data as [|c cs].
  { injection Hbody as <-. cbn [sent printed]. rewrite Hs5, Hp5.
    repeat split. left. split; reflexivity. }
  set (clips := c :: cs) in *. clearbody clips. clear c cs.
  apply bind_val in Hbody as (kept & w6 & Hun & Hbody).
  pose proof (unmuted_clips_sent _ _ _ _ _ Hun) as Hs6.
  destruct (unmuted_clips_run status clips w5) as (w6' & Hun' & more6 & Hp6 & Ha6 & Hk6).
  rewrite Hun in Hun'. injection Hun' as -> <-.
  rewrite Hs5 in Hs6. rewrite Hp5 in Hp6.
  destruct (List.filter (fun c0 => negb (is_muted status c0)) clips)
    as [|k ks] eqn:Hkept.
  { injection Hbody as <-. cbn [sent printed]. rewrite Hs6, Hp6.
    split; [|split].
    - unfold announced in *. rewrite !flat_map_app. cbn [flat_map app].
      rewrite Ha6. reflexivity.
    - unfold skipped in *. rewrite !List.filter_app, !length_app.
      cbn [List.filter length app]. rewrite Hk6. lia.
    - left. split; reflexivity. }
  apply bind_val in Hbody as ([] & w7 & Hp7 & Hbody). injection Hp7 as <-.
  apply bind_val in Hbody as (? & w8 & Hc8 & Hbody).
  apply do_command_val in Hc8 as (_ & Hs8 & Hp8). cbn [sent printed] in Hs8, Hp8.
  apply bind_val in Hbody as (? & w9 & Hc9 & Hbody).
  apply do_command_val in Hc9 as (_ & Hs9 & Hp9).
  apply bind_val in Hbody as (tdu & w10 & Hl10 & Hbody).
  assert (w10 = w9) as ->.
  { unfold loads in Hl10. destruct (json_loads env _); [|discriminate Hl10].
    injection Hl10 as _ <-. reflexivity. }
  apply bind_val in Hbody as ([] & w11 & Hp11 & Hbody). injection Hp11 as <-.
  apply bind_val in Hbody as ([] & w12 & Hm12 & Hbody).
  apply mute_all_but_run in Hm12 as [Hs12 Hp12]. cbn [sent printed] in Hs12, Hp12.
  apply bind_val in Hbody as (n & w13 & Hloop & Hbody).
  destruct (clip_loop_trace _ _ _ _ _ _ _ _ Hloop)
    as (blocks & more & Hs13 & Hp13 & Hb & Ha & Hk).
  injection Hbody as <-. cbn [sent printed].
  assert (Hsent : sent w13
                  = clip_setup_commands (length tdu) ++ concat blocks).
  { rewrite Hs13, Hs12, Hs9, Hs8, Hs6. unfold clip_setup_commands.
    change (lit "GetInfo: Type=" ++ lit "Tracks") with (lit "GetInfo: Type=Tracks").
    rewrite <- !app_assoc. reflexivity. }
  assert (Hprinted : printed w13
                     = (FoundTracks (length tracks_data) :: more6)
                       ++ [FoundClips (length (k :: ks));
                           CreatedTemporaryTrack (Z.of_nat (length tdu) - 1)]
                       ++ more).
  { rewrite Hp13, Hp12, Hp9, Hp8, Hp6. cbn [printed].
    rewrite <- !app_assoc. reflexivity. }
  rewrite Hprinted.
  split; [|split].
  - unfold announced in *. cbn [flat_map app].
    rewrite ?flat_map_app. cbn [flat_map app].
    rewrite Ha6, Ha, ?app_nil_r. reflexivity.
  - rewrite <- Hk, <- Hk6. unfold skipped. cbn [List.filter length app].
    rewrite ?List.filter_app, ?length_app.
    cbn [List.filter length app]. lia.
  - right. exists (length tdu), blocks. split; [|split; [exact Hsent|exact Hb]].
    rewrite !in_app_iff. left. right. left. right. left. reflexivity.
Qed.

End AttemptedClips.

Lemma attempted_clips_are_the_included_ones_witness :
  let run := ExportClips.export_clips_individually
               scenario (lit "/out") (lit "take_") (lit "flac") initial_world in
  let chosen := [ clip_object "intro" 1 (PyInt 0) (PyFloat (5 # 2));
                  clip_object "outro" 1 (PyFloat 10) (PyFloat 12) ] in
  announced (printed (snd run)) = List.map clip_key chosen /\
  length (skipped (printed (snd run))) = 1%nat /\
  ((chosen = [] /\
    sent (snd run) = [lit "GetInfo: Type=Tracks"; lit "GetInfo: Type=Clips"]) \/
   (exists n blocks,
       In (CreatedTemporaryTrack (Z.of_nat n - 1)) (printed (snd run)) /\
       sent (snd run) = clip_setup_commands n ++ concat blocks /\
       Forall2 (attempt scenario (lit "/out") (lit "take_") (lit "flac")
                        (Z.of_nat n - 1))
               chosen blocks)).
Proof.
  intros run.
  assert (Hrun : ExportClips.export_clips_individually
                   scenario (lit "/out") (lit "take_") (lit "flac") initial_world
                 = (Completed, snd run)).
  { transitivity (fst run, snd run); [apply surjective_pairing|].
    assert (fst run = Completed) as -> by (vm_compute; reflexivity).
    reflexivity. }
  exact (attempted_clips_are_the_included_ones scenario (lit "/out") (lit "take_")
           (lit "flac") (snd run) (lit "[tracks]") (lit "[clips]")
           scenario_tracks scenario_clips Hrun eq_refl eq_refl eq_refl eq_refl).
Defined.
